(* A shallow embedding of the research orchestration engine of
   deep-research-agent (src/server): the content quality gate, the relevance
   filter, the rewriter and guardrail parsing, and the orchestrator with its
   rewrite loop, threaded through an explicit state and error monad.

   Collaborators (search provider, page fetcher, language models) are
   oracles: functions of the call index, quantified over in every theorem. *)

From Stdlib Require Import List String Ascii ZArith QArith Lia Bool.
From Stdlib Require Import Sorting.Permutation Sorting.Sorted.
Import ListNotations.

Open Scope string_scope.
Open Scope list_scope.

(* ------------------------------------------------------------------ *)
(** * Python strings *)

(** A Python [str] is modelled as a [string] whose characters are the code
    points U+0000..U+00FF. [py_isspace] is [str.isspace] on that range:
    \t \n \v \f \r, the separators \x1c..\x1f, space, NEL (0x85) and NBSP
    (0xa0). *)
Definition py_isspace (c : ascii) : bool :=
  let n := nat_of_ascii c in
  ((9 <=? n) && (n <=? 13))%nat || ((28 <=? n) && (n <=? 32))%nat
  || (n =? 133)%nat || (n =? 160)%nat.

Fixpoint drop_space (l : list ascii) : list ascii :=
  match l with
  | [] => []
  | c :: l' => if py_isspace c then drop_space l' else l
  end.

(** [s.strip()] *)
Definition py_strip (s : string) : string :=
  string_of_list_ascii
    (rev (drop_space (rev (drop_space (list_ascii_of_string s))))).

(** [s.split()] with no separator: maximal runs of non-space characters. *)
Fixpoint split_aux (l : list ascii) (cur : list ascii) : list (list ascii) :=
  match l with
  | [] => match cur with [] => [] | _ => [rev cur] end
  | c :: l' =>
      if py_isspace c then
        match cur with
        | [] => split_aux l' []
        | _ => rev cur :: split_aux l' []
        end
      else split_aux l' (c :: cur)
  end.

Definition py_split (s : string) : list string :=
  map string_of_list_ascii (split_aux (list_ascii_of_string s) []).

(** Truthiness of [str] and of [str | None]. *)
Definition py_truthy (s : string) : bool := negb (String.eqb s "").

Definition py_truthy_opt (o : option string) : bool :=
  match o with Some s => py_truthy s | None => false end.

(** [l[:n]] for a Python int [n]: a negative bound counts from the end. *)
Definition py_slice_upto {A} (l : list A) (n : Z) : list A :=
  if (0 <=? n)%Z then firstn (Z.to_nat n) l
  else firstn (List.length l - Z.to_nat (- n)) l.

(* ------------------------------------------------------------------ *)
(** * Data model (models.py) *)

Record SearchResult := mkSearchResult {
  sr_title : string; sr_url : string; sr_snippet : string }.

(** A Python [float]: a finite value, an infinity, or NaN. Finite values
    are taken exactly; rounding to the nearest double and overflow are not
    modelled. *)
Inductive PyFloat :=
| PFin (q : Q)
| PInf
| PNegInf
| PNaN.

(** [x < y]; every comparison with NaN is false. *)
Definition float_lt (x y : PyFloat) : bool :=
  match x, y with
  | PFin a, PFin b => negb (Qle_bool b a)
  | PNegInf, (PFin _ | PInf) => true
  | PFin _, PInf => true
  | _, _ => false
  end.



(** [x + y] *)
Definition float_add (x y : PyFloat) : PyFloat :=
  match x, y with
  | PNaN, _ | _, PNaN => PNaN
  | PInf, PNegInf | PNegInf, PInf => PNaN
  | PInf, _ | _, PInf => PInf
  | PNegInf, _ | _, PNegInf => PNegInf
  | PFin a, PFin b => PFin (a + b)
  end.

(** [x / n] for an int [n > 0]. *)
Definition float_div_pos (x : PyFloat) (n : Z) : PyFloat :=
  match x with PFin a => PFin (a / inject_Z n) | _ => x end.

Record FilteredSearchResult := mkFiltered {
  fr_title : string; fr_url : string; fr_snippet : string;
  relevance_score : PyFloat }.

Record DirectoryItem := mkDirectoryItem {
  di_title : string; di_url : option string;
  di_description : option string; di_price : option string }.

(** [ExtractedContent = Union[ArticleContent, ProductContent,
    ForumPostContent, DirectoryContent, OtherContent]]; fields in the order
    of the pydantic models (page_type is the constructor). *)
Inductive ExtractedContent :=
| ArticleContent (title url content : string) (author date : option string)
| ProductContent (title url : string) (name price : option string)
    (options : list string) (description : option string)
    (features : list string)
| ForumPostContent (title url content : string) (author : option string)
    (replies : list string)
| DirectoryContent (title url : string) (items : list DirectoryItem)
| OtherContent (title url content : string).

Definition page_type (e : ExtractedContent) : string :=
  match e with
  | ArticleContent _ _ _ _ _ => "article"
  | ProductContent _ _ _ _ _ _ _ => "product"
  | ForumPostContent _ _ _ _ _ => "forum_post"
  | DirectoryContent _ _ _ => "directory"
  | OtherContent _ _ _ => "other"
  end.

(* ------------------------------------------------------------------ *)
(** * Quality gate (utils/content_validators.py) *)

Definition MIN_CONTENT_LENGTH : nat := 50.
Definition MIN_MEANINGFUL_WORDS : nat := 10.

Definition has_meaningful_content (extracted : ExtractedContent) : bool :=
  match extracted with
  | ArticleContent _ _ content _ _ =>
      if negb (py_truthy content)
         || (String.length (py_strip content) <? MIN_CONTENT_LENGTH)%nat
      then false
      else if (List.length (py_split content) <? MIN_MEANINGFUL_WORDS)%nat
      then false
      else true
  | ProductContent _ _ name _ _ description _ =>
      if negb (py_truthy_opt name) && negb (py_truthy_opt description)
      then false else true
  | ForumPostContent _ _ content _ _ =>
      if negb (py_truthy content)
         || (String.length (py_strip content) <? MIN_CONTENT_LENGTH)%nat
      then false else true
  | DirectoryContent _ _ items =>
      if match items with [] => true | _ => false end
         || (List.length items =? 0)%nat
      then false else true
  | OtherContent _ _ content =>
      if negb (py_truthy content)
         || (String.length (py_strip content) <? MIN_CONTENT_LENGTH)%nat
      then false else true
  end.

(** The gate as the specification words it: every text variant (article,
    forum post, other) needs both 50 characters and 10 words. *)
Definition gate_as_specified (e : ExtractedContent) : bool :=
  let text_ok c :=
    (MIN_CONTENT_LENGTH <=? String.length (py_strip c))%nat
    && (MIN_MEANINGFUL_WORDS <=? List.length (py_split c))%nat in
  match e with
  | ArticleContent _ _ c _ _ => text_ok c
  | ForumPostContent _ _ c _ _ => text_ok c
  | OtherContent _ _ c => text_ok c
  | ProductContent _ _ name _ _ description _ =>
      py_truthy_opt name || py_truthy_opt description
  | DirectoryContent _ _ items => negb (List.length items =? 0)%nat
  end.

Fixpoint repeat_char (c : ascii) (n : nat) : string :=
  match n with O => EmptyString | S k => String c (repeat_char c k) end.

(* ------------------------------------------------------------------ *)
(** * Python's [sorted(xs, key=k, reverse=True)] *)

Section PySorted.
Variable A : Type.
(** The comparison the sort makes: [key(x) < key(y)]. *)
Variable lt : A -> A -> bool.

(** One step of a stable ascending insertion sort: [x] goes after every
    element it is not less than. *)
Fixpoint insert_stable (x : A) (l : list A) : list A :=
  match l with
  | [] => [x]
  | y :: l' => if lt x y then x :: l else y :: insert_stable x l'
  end.

Definition stable_sort (l : list A) : list A :=
  fold_left (fun acc x => insert_stable x acc) l [].

(** CPython's [list.sort(reverse=True)] reverses the list, sorts it stably
    in ascending order, and reverses the result (listobject.c), which keeps
    equal keys in their original order. For a comparison that is a strict
    weak order, every stable sort returns this list. *)
Definition py_sorted_reverse (l : list A) : list A :=
  rev (stable_sort (rev l)).

Lemma insert_stable_perm x l : Permutation (insert_stable x l) (x :: l).
Proof.
  induction l as [|y l IH]; simpl; [reflexivity|].
  destruct (lt x y); [reflexivity|].
  rewrite IH. apply perm_swap.
Qed.

Lemma stable_sort_aux_perm l acc :
  Permutation (fold_left (fun acc x => insert_stable x acc) l acc)
              (l ++ acc).
Proof.
  revert acc. induction l as [|x l IH]; intros acc; simpl; [reflexivity|].
  rewrite IH, insert_stable_perm. symmetry. apply Permutation_middle.
Qed.

Lemma py_sorted_reverse_perm l : Permutation (py_sorted_reverse l) l.
Proof.
  unfold py_sorted_reverse, stable_sort.
  rewrite <- Permutation_rev, stable_sort_aux_perm, app_nil_r.
  symmetry. apply Permutation_rev.
Qed.
End PySorted.

Arguments insert_stable {A} lt x l.
Arguments stable_sort {A} lt l.
Arguments py_sorted_reverse {A} lt l.

(* ------------------------------------------------------------------ *)
(** * Exceptions and collaborator calls *)

(** A fallible Python computation: a value or a raised exception (named by
    its class). *)
Inductive Result (A : Type) :=
| Ok (a : A)
| Raise (exn : string).
Arguments Ok {A} a.
Arguments Raise {A} exn.

(** One call through [call_llm_with_cancel]: the stop flag was seen while
    the call was outstanding, the model call raised, or the reply came back.
    A reply is given as what [parse_json_response] makes of it: [None] when
    it raises, or the parsed value. *)
Inductive LLMCall (J : Type) :=
| LLMCancelled
| LLMRaises
| LLMReply (raw : string) (parsed : option J).
Arguments LLMCancelled {J}.
Arguments LLMRaises {J}.
Arguments LLMReply {J} raw parsed.

(* ------------------------------------------------------------------ *)
(** * Ad and tracking URLs (utils/url_filters.py) *)

Definition ascii_lower (c : ascii) : ascii :=
  let n := nat_of_ascii c in
  if ((65 <=? n) && (n <=? 90))%nat then ascii_of_nat (n + 32) else c.

Fixpoint string_lower (s : string) : string :=
  match s with
  | EmptyString => EmptyString
  | String c s' => String (ascii_lower c) (string_lower s')
  end.

(** [re.search(pat, s)] for a literal pattern. *)
Fixpoint contains (pat s : string) : bool :=
  String.prefix pat s
  || match s with EmptyString => false | String _ s' => contains pat s' end.

(** The patterns of [AD_PATTERNS] under [re.IGNORECASE]; a leading or
    trailing [.*] does not change what [search] finds. *)
Definition AD_PATTERNS : list string :=
  ["bing.com/aclick"; "doubleclick.net"; "googleadservices.com"; "ads.";
   ".ad."; "click."; "tracker."; "affiliate."; "youtube.com"; "youtu.be"].

Definition is_ad_or_tracking_url (url : string) : bool :=
  existsb (fun pat => contains pat (string_lower url)) AD_PATTERNS.

(* ------------------------------------------------------------------ *)
(** * Relevance filter (tasks/filtering.py) *)

Record TitleFilterOutput := mkTitleFilterOutput {
  tf_query : string;
  total_results : nat;
  relevant_results : list FilteredSearchResult;
  filtered_out : Z;
  avg_relevance_score : PyFloat }.

Definition MAX_RESULTS_FILTERED_DEFAULT : Z := 3.

(** The loop building [FilteredSearchResult]s raises (and the whole reply
    falls back) as soon as one item lacks a field or a float score. *)
Fixpoint all_items {B} (l : list (option B)) : option (list B) :=
  match l with
  | [] => Some []
  | None :: _ => None
  | Some b :: l' =>
      match all_items l' with Some bs => Some (b :: bs) | None => None end
  end.

(** [sum(r.relevance_score for r in l)] *)
Definition sum_scores (l : list FilteredSearchResult) : PyFloat :=
  fold_left (fun acc r => float_add acc (relevance_score r)) l (PFin 0).

(** The key comparison of the filter's sort:
    [a.relevance_score < b.relevance_score]. *)
Definition score_lt (a b : FilteredSearchResult) : bool :=
  float_lt (relevance_score a) (relevance_score b).

(** [sorted(l, key=lambda v: v.relevance_score, reverse=True)] as CPython
    computes it. CPython's sort is stable and returns a permutation of its
    input. When no score is NaN, [<] on the scores is a strict weak order and
    these two facts fix the result: [py_sorted_reverse score_lt l]. A NaN
    score makes the comparisons inconsistent; the order timsort then returns
    depends on its run detection and merging, and is left open here. *)
Record ListSort := mkListSort {
  sorted_by_score_desc : list FilteredSearchResult -> list FilteredSearchResult;
  sorted_by_score_perm : forall l, Permutation (sorted_by_score_desc l) l;
  sorted_by_score_no_nan : forall l,
    Forall (fun r => relevance_score r <> PNaN) l ->
    sorted_by_score_desc l = py_sorted_reverse score_lt l }.

(** The insertion sort itself is one such sort. *)
Definition insertion_list_sort : ListSort :=
  mkListSort (py_sorted_reverse score_lt) (py_sorted_reverse_perm _ score_lt)
    (fun _ _ => eq_refl).

Definition filter_search_results_by_titles (srt : ListSort) (MAX_RESULTS_FILTERED : Z)
    (query : string) (search_results : list SearchResult)
    (llm : list SearchResult -> LLMCall (list (option FilteredSearchResult)))
    : Result (TitleFilterOutput * bool) :=
  let clean_results :=
    filter (fun r => negb (is_ad_or_tracking_url (sr_url r))) search_results in
  let rejected_count :=
    List.length (filter (fun r => is_ad_or_tracking_url (sr_url r))
                        search_results) in
  let n := List.length search_results in
  match clean_results with
  | [] => Ok (mkTitleFilterOutput query n [] (Z.of_nat n) (PFin 0), false)
  | _ =>
    match llm clean_results with
    | LLMCancelled => Ok (mkTitleFilterOutput query n [] (Z.of_nat n) (PFin 0), true)
    | LLMRaises => Raise "LLMError"
    | LLMReply _ parsed =>
      match match parsed with Some l => all_items l | None => None end with
      | Some filtered_results =>
          let relevant_count := List.length filtered_results in
          let avg_score :=
            if (0 <? relevant_count)%nat
            then float_div_pos (sum_scores filtered_results) (Z.of_nat relevant_count)
            else PFin 0 in
          Ok (mkTitleFilterOutput query n
                (py_slice_upto
                   (sorted_by_score_desc srt filtered_results)
                   MAX_RESULTS_FILTERED)
                (Z.of_nat n - Z.of_nat relevant_count) avg_score, false)
      | None =>
          let fallback_results :=
            py_slice_upto
              (map (fun r => mkFiltered (sr_title r) (sr_url r) (sr_snippet r)
                                        (PFin (7 # 10))) clean_results)
              MAX_RESULTS_FILTERED in
          Ok (mkTitleFilterOutput query n fallback_results
                (Z.of_nat rejected_count) (PFin (7 # 10)), false)
      end
    end
  end.

(* ------------------------------------------------------------------ *)
(** * Query rewriter (tasks/rewriter.py) *)

Record QueryWithFilter := mkQueryWithFilter {
  qf_query : string; qf_time_filter : option string; qf_strategy : option string }.

Inductive RewriteAction := ActContinue | ActStop | ActCancelled.

Record RewriterOutput := mkRewriterOutput {
  action : RewriteAction; requires_recency : bool;
  queries : list QueryWithFilter }.

(** One entry of the reply's ["queries"] list: a dict, a string, or some
    other JSON value (skipped by the loop). *)
Inductive RQItem :=
| RQDict (query time_filter strategy : option string)
| RQString (q : string)
| RQOther.

(** The decoded reply object: its ["action"], its ["requires_recency"] as
    pydantic reads it, and its ["queries"]. *)
Record RewriterJson := mkRewriterJson {
  rj_action : option string; rj_requires_recency : bool;
  rj_queries : list RQItem }.

(** [TimeFilter = Literal["d", "w", "m", "y"] | None]: another value makes
    pydantic raise. *)
Definition valid_time_filter (tf : option string) : bool :=
  match tf with
  | None => true
  | Some f => existsb (String.eqb f) ["d"; "w"; "m"; "y"]
  end.

(** The body of the [for q in result.get("queries", [])[:3]] loop; [None]
    when a [QueryWithFilter] fails validation. *)
Fixpoint queries_of_json (l : list RQItem) : option (list QueryWithFilter) :=
  match l with
  | [] => Some []
  | RQDict q tf st :: l' =>
      if valid_time_filter tf then
        match queries_of_json l' with
        | Some qs =>
            Some (mkQueryWithFilter (match q with Some s => s | None => "" end)
                    tf st :: qs)
        | None => None
        end
      else None
  | RQString q :: l' =>
      match queries_of_json l' with
      | Some qs => Some (mkQueryWithFilter q None None :: qs)
      | None => None
      end
  | RQOther :: l' => queries_of_json l'
  end.

(** The [try] block: [None] when it raises. *)
Definition decision_of_json (j : RewriterJson) : option RewriterOutput :=
  match rj_action j with
  | Some a =>
      if String.eqb a "stop" then Some (mkRewriterOutput ActStop false [])
      else match queries_of_json (firstn 3 (rj_queries j)) with
           | Some qs => Some (mkRewriterOutput ActContinue (rj_requires_recency j) qs)
           | None => None
           end
  | None =>
      match queries_of_json (firstn 3 (rj_queries j)) with
      | Some qs => Some (mkRewriterOutput ActContinue (rj_requires_recency j) qs)
      | None => None
      end
  end.

Definition ascii_upper (c : ascii) : ascii :=
  let n := nat_of_ascii c in
  if ((97 <=? n) && (n <=? 122))%nat then ascii_of_nat (n - 32) else c.

(** [s.upper()]; Latin-1 letters outside a..z never upper-case to an
    ASCII letter, so the test against ["STOP"] is unaffected. *)
Fixpoint string_upper (s : string) : string :=
  match s with
  | EmptyString => EmptyString
  | String c s' => String (ascii_upper c) (string_upper s')
  end.

(** [s.split("\n")] *)
Fixpoint split_lines_aux (l : list ascii) (cur : list ascii) : list string :=
  match l with
  | [] => [string_of_list_ascii (rev cur)]
  | c :: l' =>
      if Ascii.eqb c "010"%char then string_of_list_ascii (rev cur) :: split_lines_aux l' []
      else split_lines_aux l' (c :: cur)
  end.

Definition split_lines (s : string) : list string :=
  split_lines_aux (list_ascii_of_string s) [].

(** The [except] branch: the reply read as plain text. *)
Definition plain_text_decision (content : string) : RewriterOutput :=
  if String.eqb (string_upper content) "STOP"
  then mkRewriterOutput ActStop false []
  else mkRewriterOutput ActContinue false
         (firstn 3
            (map (fun q => mkQueryWithFilter (py_strip q) None None)
                 (filter (fun q => py_truthy (py_strip q)
                                   && negb (String.prefix "-" q))
                         (split_lines content)))).

(** [rewrite_queries_task]: the model is asked once, through the call of
    index [i] of the collaborator [llm]; the result is the decision and the
    [cancelled] flag, with the index of the next call. *)
Definition rewrite_queries_task (llm : nat -> LLMCall RewriterJson) (i : nat)
    : Result (RewriterOutput * bool) * nat :=
  (match llm i with
   | LLMCancelled => Ok (mkRewriterOutput ActCancelled false [], true)
   | LLMRaises => Raise "LLMError"
   | LLMReply content parsed =>
       match match parsed with Some j => decision_of_json j | None => None end with
       | Some out => Ok (out, false)
       | None => Ok (plain_text_decision content, false)
       end
   end, S i).

(* ------------------------------------------------------------------ *)
(** * Guardrail (tasks/guardrail.py) *)

Record GuardrailResult := mkGuardrailResult {
  is_acceptable : bool; reason : string; confidence : Q }.

(** The decoded verdict: the truthiness of ["is_acceptable"], ["reason"],
    and ["confidence"] ([Some None] when [float(...)] raises on it). *)
Record GuardJson := mkGuardJson {
  gj_is_acceptable : option bool; gj_reason : option string;
  gj_confidence : option (option Q) }.

Definition guardrail_fail_open : GuardrailResult :=
  mkGuardrailResult true "Unable to evaluate query safety" 0.

Definition check_query_safety (llm : nat -> LLMCall GuardJson) (i : nat)
    : (GuardrailResult * bool) * nat :=
  (match llm i with
   | LLMCancelled => (mkGuardrailResult true "" 0, true)
   | LLMRaises => (guardrail_fail_open, false)
   | LLMReply _ None => (guardrail_fail_open, false)
   | LLMReply _ (Some j) =>
       match gj_confidence j with
       | Some None => (guardrail_fail_open, false)
       | c =>
           (mkGuardrailResult
              (match gj_is_acceptable j with Some b => b | None => true end)
              (match gj_reason j with Some r => r | None => "Unable to determine" end)
              (match c with Some (Some q) => q | _ => 1 # 2 end), false)
       end
   end, S i).

(* ------------------------------------------------------------------ *)
(** * Digest for the rewriter ([_build_content_summary]) *)

(** The objects the digest may be handed: search results (models.py
    [SearchResult]) or extracted content. *)
Inductive PyItem :=
| PySearchResult (r : SearchResult)
| PyContent (e : ExtractedContent).

Definition content_title (e : ExtractedContent) : string :=
  match e with
  | ArticleContent t _ _ _ _ | ProductContent t _ _ _ _ _ _
  | ForumPostContent t _ _ _ _ | DirectoryContent t _ _
  | OtherContent t _ _ => t
  end.

(** [c.title] and [c.page_type]: a [SearchResult] has a title but no
    [page_type] attribute. *)
Definition getattr_title (x : PyItem) : string :=
  match x with PySearchResult r => sr_title r | PyContent e => content_title e end.

Definition getattr_page_type (x : PyItem) : Result string :=
  match x with
  | PySearchResult _ => Raise "AttributeError"
  | PyContent e => Ok (page_type e)
  end.

(** The [hasattr(c, "content") and c.content] and [description] tests. *)
Definition attr_content (x : PyItem) : option string :=
  match x with
  | PyContent (ArticleContent _ _ c _ _) | PyContent (ForumPostContent _ _ c _ _)
  | PyContent (OtherContent _ _ c) => if py_truthy c then Some c else None
  | _ => None
  end.

Definition attr_description (x : PyItem) : option string :=
  match x with
  | PyContent (ProductContent _ _ _ _ _ (Some d) _) =>
      if py_truthy d then Some d else None
  | _ => None
  end.

Definition summary_line (x : PyItem) : Result string :=
  match getattr_page_type x with
  | Raise e => Raise e
  | Ok pt =>
      let base := "- [" ++ getattr_title x ++ "]: " ++ pt in
      Ok match attr_content x with
         | Some c => base ++ " - " ++ substring 0 200 c ++ "..."
         | None =>
             match attr_description x with
             | Some d => base ++ " - " ++ substring 0 200 d ++ "..."
             | None => base
             end
         end
  end%string.

Fixpoint summary_lines (l : list PyItem) : Result (list string) :=
  match l with
  | [] => Ok []
  | x :: l' =>
      match summary_line x with
      | Raise e => Raise e
      | Ok s => match summary_lines l' with
                | Raise e => Raise e
                | Ok ss => Ok (s :: ss)
                end
      end
  end.

Definition _build_content_summary (content_list : list PyItem) : Result string :=
  match content_list with
  | [] => Ok "No content gathered yet."
  | _ => match summary_lines content_list with
         | Raise e => Raise e
         | Ok ss => Ok (String.concat (String "010" EmptyString) ss)
         end
  end.

(* ------------------------------------------------------------------ *)
(** * Orchestrator (workflow.py) *)

(** What a run does, in order: the collaborator calls (stage work), the
    stop-flag observations at phase boundaries ([EvStopSeen]), the
    observations of a rewritten query's own check after its search
    ([EvQueryStopSeen]), the failed-query reports, and, as ghost events,
    each new value of the rewritten-query counter. *)
Inductive Event :=
| EvGuardrail
| EvSearch (query : string)
| EvFilter (query : string)
| EvFetch (url : string)
| EvRewrite
| EvWrite
| EvStopSeen
| EvQueryStopSeen (query : string)
| EvSearchFailed (query : string)
| EvCounter (n : Z).

Definition is_work (e : Event) : bool :=
  match e with
  | EvGuardrail | EvSearch _ | EvFilter _ | EvFetch _ | EvRewrite | EvWrite => true
  | EvStopSeen | EvQueryStopSeen _ | EvSearchFailed _ | EvCounter _ => false
  end.

(** The outcome of one [scrape_and_extract_task]: cancelled, scrape failed,
    scraped without extraction, or extracted ([None] when
    [create_extracted_content] raises on the extracted dict). *)
Inductive ExtractOutcome :=
| XCancelled
| XScrapeFailed
| XNoExtraction
| XExtracted (e : option ExtractedContent).

(** Configuration (config.py) and collaborators. Every collaborator is
    indexed by the clock value of its call; [stop_at = Some n] sets the
    stop flag once [n] calls have been made. [search_provider] returns
    [None] when the provider raises, [scrape_page] when the fetch raises.
    [py_list_sort] is CPython's sort. [gather_schedule] is the event loop's
    choice of which query task of a rewrite batch runs next, for the batch
    that starts at the given clock value. *)
Record Env := mkEnv {
  USE_GUARDRAILS : bool;
  USE_EXTRACTION : bool;
  MAX_REWRITTEN_QUERIES : Z;
  MAX_RESULTS_PER_QUERY : Z;
  MAX_RESULTS_FILTERED : Z;
  stop_at : option nat;
  guardrail_llm : nat -> LLMCall GuardJson;
  search_provider : nat -> string -> option string -> option (list SearchResult);
  filter_llm : nat -> list SearchResult -> LLMCall (list (option FilteredSearchResult));
  scrape_page : nat -> string -> option string;
  extract_unit : nat -> string -> string -> ExtractOutcome;
  rewriter_llm : nat -> LLMCall RewriterJson;
  writer_llm : nat -> option string;
  py_list_sort : ListSort;
  gather_schedule : nat -> list nat }.

(** [ResearchState], with the clock and the trace of the run. The field
    [searches] is assigned the initial results before it is first read. *)
Record RState := mkRState {
  original_query : string;
  seen_urls : list string;
  searches : list SearchResult;
  extracted_content : list ExtractedContent;
  queries_executed : list string;
  total_rewritten_queries : Z;
  clock : nat;
  trace : list Event }.

Definition init_state (query : string) : RState :=
  mkRState query [] [] [] [] 0 0 [].

Definition emit (e : Event) (st : RState) : RState :=
  mkRState (original_query st) (seen_urls st) (searches st) (extracted_content st)
    (queries_executed st) (total_rewritten_queries st) (clock st)
    (trace st ++ [e]).

Definition advance (next : nat) (e : Event) (st : RState) : RState :=
  mkRState (original_query st) (seen_urls st) (searches st) (extracted_content st)
    (queries_executed st) (total_rewritten_queries st) next (trace st ++ [e]).

(** A run step: a value, an exception propagating out, or the fuel bound of
    the (unbounded) rewrite loop reached. *)
Inductive Step (A : Type) :=
| Ret (a : A)
| Throw (exn : string)
| NoFuel.
Arguments Ret {A} a.
Arguments Throw {A} exn.
Arguments NoFuel {A}.

Definition M (A : Type) := RState -> Step A * RState.

Definition ret {A} (a : A) : M A := fun st => (Ret a, st).
Definition throw {A} (e : string) : M A := fun st => (Throw e, st).
Definition get : M RState := fun st => (Ret st, st).
Definition modify (f : RState -> RState) : M unit := fun st => (Ret tt, f st).

Definition bind {A B} (m : M A) (k : A -> M B) : M B :=
  fun st =>
    match m st with
    | (Ret a, st') => k a st'
    | (Throw e, st') => (Throw e, st')
    | (NoFuel, st') => (NoFuel, st')
    end.

Notation "x <- m ;; k" := (bind m (fun x => k))
  (at level 61, m at next level, right associativity).

(** [try: ... except Exception as e] around a computation. *)
Definition try_m {A} (m : M A) : M (Result A) :=
  fun st =>
    match m st with
    | (Ret a, st') => (Ret (Ok a), st')
    | (Throw e, st') => (Ret (Raise e), st')
    | (NoFuel, st') => (NoFuel, st')
    end.

Definition append_content (e : ExtractedContent) (st : RState) : RState :=
  mkRState (original_query st) (seen_urls st) (searches st)
    (extracted_content st ++ [e]) (queries_executed st)
    (total_rewritten_queries st) (clock st) (trace st).

(** [_deduplicate_search_results]: first seen wins, at most [max_results]. *)
Fixpoint dedup_loop (rs : list SearchResult) (seen_urls_set : list string)
    (max_results : Z) (new_results : list SearchResult) (new_urls : list string)
    : list SearchResult * list string :=
  match rs with
  | [] => (new_results, new_urls)
  | r :: rs' =>
      if negb (existsb (String.eqb (sr_url r)) seen_urls_set)
         && (Z.of_nat (List.length new_results) <? max_results)%Z
      then dedup_loop rs' (sr_url r :: seen_urls_set) max_results
             (new_results ++ [r]) (new_urls ++ [sr_url r])
      else dedup_loop rs' seen_urls_set max_results new_results new_urls
  end.

Definition _deduplicate_search_results (search_results : list SearchResult)
    (seen_urls_set : list string) (max_results : Z)
    : list SearchResult * list string :=
  dedup_loop search_results seen_urls_set max_results [] [].

Definition to_search_result (fr : FilteredSearchResult) : SearchResult :=
  mkSearchResult (fr_title fr) (fr_url fr) (fr_snippet fr).

(** A row of the rewrite batch ([_process_rewritten_query]'s dict). *)
Record BatchItem := mkBatchItem {
  bi_query : string;
  bi_filtered_results : list SearchResult;
  bi_new_urls : list string;
  bi_success : bool }.

Fixpoint url_in (u : string) (l : list string) : bool :=
  match l with [] => false | v :: l' => String.eqb u v || url_in u l' end.

Fixpoint add_new_urls (seen : list string) (urls : list string) : list string :=
  match urls with
  | [] => seen
  | u :: us => if url_in u seen then add_new_urls seen us
               else add_new_urls (seen ++ [u]) us
  end.

(** The merge of one successful row under the lock. *)
Definition merge_one (b : BatchItem) (st : RState) : RState :=
  mkRState (original_query st) (add_new_urls (seen_urls st) (bi_new_urls b))
    (searches st ++ bi_filtered_results b) (extracted_content st)
    (queries_executed st ++ [bi_query b]) (total_rewritten_queries st + 1)
    (clock st) (trace st ++ [EvCounter (total_rewritten_queries st + 1)]).

Definition _update_state_from_batch (batch_results : list BatchItem) : M unit :=
  modify (fun st =>
    fold_left (fun st b => if bi_success b then merge_one b st else st)
      batch_results st).

(** The [urls_to_scrape_set] loop over the successful rows. *)
Fixpoint collect_to_scrape (rs : list SearchResult) (seen : list string)
    (acc : list SearchResult) : list SearchResult * list string :=
  match rs with
  | [] => (acc, seen)
  | r :: rs' =>
      if url_in (sr_url r) seen then collect_to_scrape rs' seen acc
      else collect_to_scrape rs' (sr_url r :: seen) (acc ++ [r])
  end.

Definition results_to_scrape (successful_results : list BatchItem)
    : list SearchResult :=
  fst (collect_to_scrape (List.concat (map bi_filtered_results successful_results))
         [] []).

Inductive Status := Complete | Stopped | Rejected.

Record WorkflowResult := mkWorkflowResult {
  status : Status;
  response : option string;
  sources : list ExtractedContent;
  rejection_reason : option string }.

Section Workflow.
Variable env : Env.

Definition stop_now (st : RState) : bool :=
  match stop_at env with Some n => (n <=? clock st)%nat | None => false end.

(** [check_stop()] at a phase boundary; a [True] answer is an observation. *)
Definition check_stop : M bool :=
  fun st => if stop_now st then (Ret true, emit EvStopSeen st) else (Ret false, st).

(** A collaborator call of index [clock]; [call_llm_with_cancel] returns
    [cancelled] at once when the flag is already set as the call starts. *)
Definition call (e : Event) : M nat :=
  fun st => (Ret (clock st), advance (S (clock st)) e st).

Definition with_cancel {J} (st : RState) (llm : nat -> LLMCall J) : nat -> LLMCall J :=
  fun i => if stop_now st then LLMCancelled else llm i.

(** [_search_and_filter] up to its [await]: the (synchronous) provider
    call and the deduplication against the snapshot. *)
Definition search_step (query : string) (max_results : Z)
    (seen_urls_set : list string) (time_filter : option string)
    : M (list SearchResult) :=
  n <- call (EvSearch query) ;;
  match search_provider env n query time_filter with
  | None => throw "SearchError"
  | Some search_results =>
      let (new_results, _) :=
        _deduplicate_search_results search_results seen_urls_set max_results in
      ret new_results
  end.

(** The awaited relevance filter on non-empty new results; the returned
    URLs are those of the results that passed the filter. *)
Definition filter_step (query : string) (new_results : list SearchResult)
    : M (list SearchResult * list string) :=
  st <- get ;;
  m <- call (EvFilter query) ;;
  match filter_search_results_by_titles (py_list_sort env) (MAX_RESULTS_FILTERED env)
          query new_results
          (fun clean => with_cancel st (fun i => filter_llm env i clean) m) with
  | Raise e => throw e
  | Ok (filter_output, _) =>
      let filtered_results :=
        map to_search_result (relevant_results filter_output) in
      ret (filtered_results, map sr_url filtered_results)
  end.

(** [_search_and_filter]: provider call, deduplication, and the filter when
    there are new results. *)
Definition _search_and_filter (query : string) (max_results : Z)
    (seen_urls_set : list string) (time_filter : option string)
    : M (list SearchResult * list string) :=
  new_results <- search_step query max_results seen_urls_set time_filter ;;
  match new_results with
  | [] => ret ([], [])
  | _ => filter_step query new_results
  end.

(** [_scrape_and_extract_results]: every unit is launched first (one fetch
    each), then the outcomes are handled one after the other. *)
Fixpoint launch_units (results : list SearchResult) : M (list (SearchResult * nat)) :=
  match results with
  | [] => ret []
  | r :: rs =>
      n <- call (EvFetch (sr_url r)) ;;
      rest <- launch_units rs ;;
      ret ((r, n) :: rest)
  end.

Definition handle_unit (u : SearchResult * nat) : M unit :=
  let (r, n) := u in
  if USE_EXTRACTION env then
    match extract_unit env n (sr_url r) (sr_title r) with
    | XCancelled | XScrapeFailed | XNoExtraction => ret tt
    | XExtracted None => throw "ValidationError"
    | XExtracted (Some extracted) =>
        if has_meaningful_content extracted then modify (append_content extracted)
        else ret tt
    end
  else
    match scrape_page env n (sr_url r) with
    | Some content =>
        if py_truthy content
        then modify (append_content (OtherContent (sr_title r) (sr_url r) content))
        else ret tt
    | None => ret tt
    end.

Fixpoint handle_units (us : list (SearchResult * nat)) : M unit :=
  match us with
  | [] => ret tt
  | u :: us' => _ <- handle_unit u ;; handle_units us'
  end.

Definition _scrape_and_extract_results (results : list SearchResult) : M unit :=
  us <- launch_units results ;; handle_units us.

(** The rewrite batch: one [_process_rewritten_query] task per query
    under [asyncio.gather(..., return_exceptions=True)]. A task is not
    started, suspended on its filter, or done with its row (an exception
    caught by [gather] or the result dict). *)
Inductive QTask :=
| QStart (qf : QueryWithFilter)
| QAwait (query : string) (r : Result (list SearchResult * list string))
| QDone (query : string) (r : Result BatchItem).

(** [check_stop()] in [_process_rewritten_query], after its search. *)
Definition check_stop_query (query : string) : M bool :=
  fun st => if stop_now st then (Ret true, emit (EvQueryStopSeen query) st)
            else (Ret false, st).

(** The rest of [_process_rewritten_query] once [_search_and_filter] has
    returned. *)
Definition finish_query (query : string) (p : list SearchResult * list string)
    : M QTask :=
  let (filtered_results, new_urls) := p in
  stopped <- check_stop_query query ;;
  ret (QDone query (Ok (if stopped then mkBatchItem query [] [] false
                        else mkBatchItem query filtered_results new_urls true))).

(** A task runs until its next suspension. Its first run takes the snapshot
    [set(state.seen_urls)], searches, and, when there are new results,
    starts the filter and suspends until it is done; without new results it
    runs to the end. Its second run resumes after the filter. An exception
    ends the task, and [gather] keeps it as the task's row. *)
Definition step_task (max_results : Z) (t : QTask) : M QTask :=
  match t with
  | QStart qf =>
      st <- get ;;
      r <- try_m (search_step (qf_query qf) max_results (seen_urls st)
                    (qf_time_filter qf)) ;;
      match r with
      | Raise e => ret (QDone (qf_query qf) (Raise e))
      | Ok [] => finish_query (qf_query qf) ([], [])
      | Ok new_results =>
          r' <- try_m (filter_step (qf_query qf) new_results) ;;
          ret (QAwait (qf_query qf) r')
      end
  | QAwait q (Raise e) => ret (QDone q (Raise e))
  | QAwait q (Ok p) => finish_query q p
  | QDone q r => ret (QDone q r)
  end.

(** Run task [i] (none if [i] is out of range). *)
Fixpoint step_nth (max_results : Z) (i : nat) (ts : list QTask) : M (list QTask) :=
  match ts, i with
  | [], _ => ret []
  | t :: ts', O => t' <- step_task max_results t ;; ret (t' :: ts')
  | t :: ts', S i' => ts'' <- step_nth max_results i' ts' ;; ret (t :: ts'')
  end.

Fixpoint run_schedule (max_results : Z) (sched : list nat) (ts : list QTask)
    : M (list QTask) :=
  match sched with
  | [] => ret ts
  | i :: sched' =>
      ts' <- step_nth max_results i ts ;; run_schedule max_results sched' ts'
  end.

(** Run every task once, in order. *)
Fixpoint step_all (max_results : Z) (ts : list QTask) : M (list QTask) :=
  match ts with
  | [] => ret []
  | t :: ts' =>
      t' <- step_task max_results t ;;
      rest <- step_all max_results ts' ;;
      ret (t' :: rest)
  end.

(** The row [gather] returns for a task; every task is done when it is
    read (the last case is never taken). *)
Definition row_of (t : QTask) : string * Result BatchItem :=
  match t with
  | QDone q r => (q, r)
  | QStart qf => (qf_query qf, Raise "CancelledError")
  | QAwait q _ => (q, Raise "CancelledError")
  end.

(** [asyncio.gather]: the tasks run in the order [gather_schedule] gives
    for this batch, which may be any order, then every task still running
    is run to its end (a task suspends at most once, so two rounds do). The
    rows come back in the order of the queries. *)
Definition gather_batch (qs : list QueryWithFilter) (max_results : Z)
    : M (list (string * Result BatchItem)) :=
  st <- get ;;
  ts <- run_schedule max_results (gather_schedule env (clock st)) (map QStart qs) ;;
  ts <- step_all max_results ts ;;
  ts <- step_all max_results ts ;;
  ret (map row_of ts).

(** The [for i, result in enumerate(batch_results)] loop: failures are
    reported, successful rows kept. *)
Fixpoint collect_successes (rs : list (string * Result BatchItem))
    : M (list BatchItem) :=
  match rs with
  | [] => ret []
  | (q, Raise _) :: rs' =>
      _ <- modify (emit (EvSearchFailed q)) ;; collect_successes rs'
  | (_, Ok b) :: rs' =>
      rest <- collect_successes rs' ;;
      ret (if bi_success b then b :: rest else rest)
  end.

Definition rewriter_call : M (Result (RewriterOutput * bool)) :=
  fun st =>
    let (r, next) :=
      rewrite_queries_task (with_cancel st (rewriter_llm env)) (clock st) in
    (Ret r, advance next EvRewrite st).

(** [_iterative_query_rewriting], one iteration per unit of fuel; [recency]
    is the local [requires_recency]. *)
Fixpoint _iterative_query_rewriting (fuel : nat) (recency : bool)
    : M bool :=
  match fuel with
  | O => fun st => (NoFuel, st)
  | S fuel' =>
    st <- get ;;
    if negb (total_rewritten_queries st <? MAX_REWRITTEN_QUERIES env)%Z
    then ret recency else
    s1 <- check_stop ;;
    if s1 then ret recency else
    match _build_content_summary (map PySearchResult (searches st)) with
    | Raise e => throw e
    | Ok _ =>
      r <- rewriter_call ;;
      match r with
      | Raise e => throw e
      | Ok (rewriter_output, _) =>
        s2 <- check_stop ;;
        if s2 then ret recency else
        match action rewriter_output with
        | ActStop => ret recency
        | _ =>
          let rr := recency || requires_recency rewriter_output in
          st <- get ;;
          let remaining_budget :=
            (MAX_REWRITTEN_QUERIES env - total_rewritten_queries st)%Z in
          let queries_to_process :=
            py_slice_upto (queries rewriter_output) remaining_budget in
          match queries_to_process with
          | [] => ret rr
          | _ =>
            batch_results <- gather_batch queries_to_process (MAX_RESULTS_PER_QUERY env) ;;
            successful_results <- collect_successes batch_results ;;
            _ <- _update_state_from_batch successful_results ;;
            let to_scrape := results_to_scrape successful_results in
            _ <- match to_scrape with
                 | [] => ret tt
                 | _ => s3 <- check_stop ;;
                        if s3 then ret tt else _scrape_and_extract_results to_scrape
                 end ;;
            st <- get ;;
            if (MAX_REWRITTEN_QUERIES env <=? total_rewritten_queries st)%Z
            then ret rr else
            s4 <- check_stop ;;
            if s4 then ret rr else
            _iterative_query_rewriting fuel' rr
          end
        end
      end
    end
  end.

Definition NO_CONTENT_RESPONSE : string := "No content was gathered.".

(** [_generate_final_response]: the writer is not given the stop flag. *)
Definition _generate_final_response (requires_recency : bool) : M string :=
  st <- get ;;
  match extracted_content st with
  | [] => ret NO_CONTENT_RESPONSE
  | _ =>
      n <- call EvWrite ;;
      match writer_llm env n with
      | Some final_response => ret final_response
      | None => throw "LLMError"
      end
  end.

Definition guardrail_phase : M (option WorkflowResult) :=
  if USE_GUARDRAILS env then
    st <- get ;;
    let '(gr, _, next) :=
      check_query_safety (with_cancel st (guardrail_llm env)) (clock st) in
    _ <- modify (advance next EvGuardrail) ;;
    s <- check_stop ;;
    if s then ret (Some (mkWorkflowResult Stopped None [] None))
    else if negb (is_acceptable gr)
    then ret (Some (mkWorkflowResult Rejected None [] (Some (reason gr))))
    else ret None
  else ret None.

Definition set_initial (new_urls : list string) (initial_results : list SearchResult)
    (st : RState) : RState :=
  mkRState (original_query st) (seen_urls st ++ new_urls) initial_results
    (extracted_content st) (queries_executed st ++ [original_query st])
    (total_rewritten_queries st) (clock st) (trace st).

(** [research_workflow] *)
Definition research_workflow (fuel : nat) : M WorkflowResult :=
  g <- guardrail_phase ;;
  match g with
  | Some res => ret res
  | None =>
    st <- get ;;
    p <- _search_and_filter (original_query st) (MAX_RESULTS_PER_QUERY env)
           (seen_urls st) None ;;
    let (initial_results, new_urls) := p in
    _ <- modify (set_initial new_urls initial_results) ;;
    s <- check_stop ;;
    if s then ret (mkWorkflowResult Stopped None [] None) else
    _ <- _scrape_and_extract_results initial_results ;;
    requires_recency <- _iterative_query_rewriting fuel false ;;
    final_response <- _generate_final_response requires_recency ;;
    was_stopped <- check_stop ;;
    st <- get ;;
    ret (mkWorkflowResult (if was_stopped then Stopped else Complete)
           (Some final_response) (extracted_content st) None)
  end.

Definition run_research (query : string) (fuel : nat) : Step WorkflowResult * RState :=
  research_workflow fuel (init_state query).

End Workflow.

(* ------------------------------------------------------------------ *)
(** * Ad filtering of URL lists ([filter_ad_urls], utils/url_filters.py) *)

Definition filter_ad_urls (urls : list string) : list string * list string :=
  fold_left (fun (acc : list string * list string) (url : string) =>
    let (clean_urls, rejected_urls) := acc in
    if is_ad_or_tracking_url url then (clean_urls, rejected_urls ++ [url])
    else (clean_urls ++ [url], rejected_urls)) urls ([], []).

(* ------------------------------------------------------------------ *)
(** * Reply helpers (utils/util.py) *)

(** [s.split(sep)] for a non-empty separator: the string is scanned from
    the left and cut at each occurrence of [sep], which is skipped;
    [skip] counts the separator characters still to pass over. *)
Fixpoint split_sep_aux (sep : string) (skip : nat) (s : string) (cur : list ascii)
    : list string :=
  match s with
  | EmptyString => [string_of_list_ascii (rev cur)]
  | String c s' =>
      match skip with
      | S k => split_sep_aux sep k s' cur
      | O =>
          if String.prefix sep s
          then string_of_list_ascii (rev cur)
                 :: split_sep_aux sep (String.length sep - 1) s' []
          else split_sep_aux sep 0 s' (c :: cur)
      end
  end.

Definition py_split_sep (sep s : string) : list string := split_sep_aux sep 0 s [].

(** [s[n:]] for [n >= 0] *)
Definition py_drop (n : nat) (s : string) : string :=
  string_of_list_ascii (skipn n (list_ascii_of_string s)).

(** [extract_json_from_markdown]; the list [content.split("```")] has at
    least two items when [content] starts with the fence, so the default
    of [nth] is never used. *)
Definition extract_json_from_markdown (content : string) : string :=
  if String.prefix "```" content then
    let content := nth 1 (py_split_sep "```" content) "" in
    let content := if String.prefix "json" content then py_drop 4 content else content in
    py_strip content
  else content.

(** [AIMessage.content]: a string, or a list of parts. A part is a dict,
    given by its ["type"] (when that is a string) and its ["text"] ([None]
    when the key is absent, [Some None] when the value is not a string), or
    something else. *)
Inductive ContentPart :=
| PartDict (type : option string) (text : option (option string))
| PartOther.

Inductive MessageContent :=
| ContentStr (s : string)
| ContentList (parts : list ContentPart).

(** [response_metadata]: its ["status"] (when a string) and its
    ["incomplete_details"]: absent, a dict with its ["reason"], or a value
    without a [get] method. *)
Inductive IncompleteDetails :=
| IDDict (reason : option string)
| IDOther.

Record AIMessage := mkAIMessage {
  msg_content : MessageContent;
  meta_status : option string;
  meta_incomplete_details : option IncompleteDetails }.

(** The [for item in response.content] loop, up to the [.strip()] that
    follows it (which raises on a value that is not a string). *)
Fixpoint text_of_parts (parts : list ContentPart) : Result string :=
  match parts with
  | [] => Ok ""
  | PartDict (Some t) text :: rest =>
      if String.eqb t "text" then
        match text with
        | None => Ok ""
        | Some (Some s) => Ok s
        | Some None => Raise "AttributeError"
        end
      else text_of_parts rest
  | _ :: rest => text_of_parts rest
  end.

Definition parse_content (response : AIMessage) : Result string :=
  let content :=
    match msg_content response with
    | ContentList parts =>
        match text_of_parts parts with
        | Ok s => Ok (py_strip s)
        | Raise e => Raise e
        end
    | ContentStr s => Ok (py_strip s)
    end in
  match content with
  | Raise e => Raise e
  | Ok content =>
      if String.eqb content "" then
        if negb (match meta_status response with
                 | Some s => String.eqb s "completed"
                 | None => false
                 end)
        then match meta_incomplete_details response with
             | Some IDOther => Raise "AttributeError"
             | _ => Raise "RuntimeError"
             end
        else Raise "RuntimeError"
      else Ok content
  end.

(* ------------------------------------------------------------------ *)
(** * Typed content from the extraction tool call (tasks/extraction.py) *)

(** A decoded JSON value; an object is the list of its entries, each key
    once, in order. *)
#[warnings="-register-all"]
Inductive Json :=
| JNull
| JBool (b : bool)
| JNum (q : Q)
| JStr (s : string)
| JArr (l : list Json)
| JObj (kvs : list (string * Json)).

(** [d.get(k)] and [d[k] = v] on a dict. *)
Fixpoint dict_get (k : string) (d : list (string * Json)) : option Json :=
  match d with
  | [] => None
  | (k', v) :: d' => if String.eqb k k' then Some v else dict_get k d'
  end.

Definition dict_get_default (k : string) (d : list (string * Json)) (dflt : Json) : Json :=
  match dict_get k d with Some v => v | None => dflt end.

Fixpoint dict_set (k : string) (v : Json) (d : list (string * Json))
    : list (string * Json) :=
  match d with
  | [] => [(k, v)]
  | (k', v') :: d' => if String.eqb k k' then (k, v) :: d' else (k', v') :: dict_set k v d'
  end.

(** [for x in v]: a list yields its items, a string its characters, a dict
    its keys; [None], booleans and numbers are not iterable. *)
Definition py_iter (v : Json) : Result (list Json) :=
  match v with
  | JArr l => Ok l
  | JStr s => Ok (map (fun c => JStr (String c EmptyString)) (list_ascii_of_string s))
  | JObj kvs => Ok (map (fun kv => JStr (fst kv)) kvs)
  | _ => Raise "TypeError"
  end.

Definition rbind {A B} (r : Result A) (k : A -> Result B) : Result B :=
  match r with Ok a => k a | Raise e => Raise e end.

(** Pydantic's validation of a [str], a [str | None] and a [list[str]]
    field. *)
Definition v_str (v : Json) : Result string :=
  match v with JStr s => Ok s | _ => Raise "ValidationError" end.

Definition v_opt_str (v : Json) : Result (option string) :=
  match v with JNull => Ok None | JStr s => Ok (Some s) | _ => Raise "ValidationError" end.

Fixpoint all_str (l : list Json) : option (list string) :=
  match l with
  | [] => Some []
  | JStr s :: l' => match all_str l' with Some ss => Some (s :: ss) | None => None end
  | _ :: _ => None
  end.

Definition v_str_list (v : Json) : Result (list string) :=
  match v with
  | JArr l => match all_str l with Some ss => Ok ss | None => Raise "ValidationError" end
  | _ => Raise "ValidationError"
  end.

Definition json_is_str (v : Json) (s : string) : bool :=
  match v with JStr t => String.eqb t s | _ => false end.

Section Extraction.
(** [str(d)] of a dict. *)
Variable py_str_dict : list (string * Json) -> string.

(** The sanitising loops over ["features"] and ["options"]: strings are
    kept, dicts turned into their [str], anything else dropped. *)
Fixpoint sanitize (l : list Json) : list string :=
  match l with
  | [] => []
  | JStr s :: l' => s :: sanitize l'
  | JObj kvs :: l' => py_str_dict kvs :: sanitize l'
  | _ :: l' => sanitize l'
  end.

(** The [for item in page_data.get("items", [])] loop: [item.get] raises
    on anything but a dict, and each [DirectoryItem] is validated as it is
    built. *)
Fixpoint directory_items (l : list Json) : Result (list DirectoryItem) :=
  match l with
  | [] => Ok []
  | JObj d :: l' =>
      rbind (v_str (dict_get_default "title" d (JStr ""))) (fun t =>
      rbind (v_opt_str (dict_get_default "url" d JNull)) (fun u =>
      rbind (v_opt_str (dict_get_default "description" d JNull)) (fun ds =>
      rbind (v_opt_str (dict_get_default "price" d JNull)) (fun p =>
      rbind (directory_items l') (fun rest =>
      Ok (mkDirectoryItem t u ds p :: rest))))))
  | _ :: _ => Raise "AttributeError"
  end.

Definition create_extracted_content (page_type : Json) (page_data : list (string * Json))
    : Result ExtractedContent :=
  let title := dict_get_default "title" page_data (JStr "Untitled") in
  let url := dict_get_default "url" page_data (JStr "") in
  if json_is_str page_type "article" then
    rbind (v_str title) (fun t => rbind (v_str url) (fun u =>
    rbind (v_str (dict_get_default "content" page_data (JStr ""))) (fun c =>
    rbind (v_opt_str (dict_get_default "author" page_data JNull)) (fun a =>
    rbind (v_opt_str (dict_get_default "date" page_data JNull)) (fun d =>
    Ok (ArticleContent t u c a d))))))
  else if json_is_str page_type "product" then
    rbind (py_iter (dict_get_default "features" page_data (JArr []))) (fun raw_features =>
    let features := sanitize raw_features in
    rbind (py_iter (dict_get_default "options" page_data (JArr []))) (fun raw_options =>
    let options := sanitize raw_options in
    rbind (v_opt_str (dict_get_default "name" page_data JNull)) (fun n =>
    rbind (v_str title) (fun t => rbind (v_str url) (fun u =>
    rbind (v_opt_str (dict_get_default "price" page_data JNull)) (fun p =>
    rbind (v_opt_str (dict_get_default "description" page_data JNull)) (fun ds =>
    Ok (ProductContent t u n p options ds features))))))))
  else if json_is_str page_type "forum_post" then
    rbind (v_str title) (fun t => rbind (v_str url) (fun u =>
    rbind (v_str (dict_get_default "content" page_data (JStr ""))) (fun c =>
    rbind (v_opt_str (dict_get_default "author" page_data JNull)) (fun a =>
    rbind (v_str_list (dict_get_default "replies" page_data (JArr []))) (fun r =>
    Ok (ForumPostContent t u c a r))))))
  else if json_is_str page_type "directory" then
    rbind (py_iter (dict_get_default "items" page_data (JArr []))) (fun raw_items =>
    rbind (directory_items raw_items) (fun items =>
    rbind (v_str title) (fun t => rbind (v_str url) (fun u =>
    Ok (DirectoryContent t u items)))))
  else
    rbind (v_str title) (fun t => rbind (v_str url) (fun u =>
    rbind (v_str (dict_get_default "content" page_data (JStr ""))) (fun c =>
    Ok (OtherContent t u c)))).

(** The tool-call branch of [_extract_content_with_llm], given the first
    tool call's ["args"]: [page_data["url"] = url] raises [TypeError] when
    ["page_data"] is not a dict. *)
Definition extract_from_tool_args (url title : string) (args : list (string * Json))
    : Result ExtractedContent :=
  let page_type := dict_get_default "page_type" args (JStr "other") in
  match dict_get_default "page_data" args (JObj []) with
  | JObj page_data =>
      let page_data := dict_set "url" (JStr url) page_data in
      let page_data := dict_set "title" (JStr title) page_data in
      create_extracted_content page_type page_data
  | _ => Raise "TypeError"
  end.
End Extraction.

Definition content_url (e : ExtractedContent) : string :=
  match e with
  | ArticleContent _ u _ _ _ | ProductContent _ u _ _ _ _ _
  | ForumPostContent _ u _ _ _ | DirectoryContent _ u _
  | OtherContent _ u _ => u
  end.

(* ------------------------------------------------------------------ *)
(** * The writer's per-source fragments (tasks/writer.py) *)

Definition nl : string := String "010" EmptyString.

(** [s[:n]] on a string. *)
Definition py_str_slice_upto (s : string) (n : Z) : string :=
  string_of_list_ascii (py_slice_upto (list_ascii_of_string s) n).

Section Writer.
Local Open Scope string_scope.

(** The fields of [c.model_dump()] that the loop reads with
    [content_dict.get(...)]: ["name"], ["content"], ["description"],
    ["options"], ["features"], ["price"] and ["date"]. *)
Definition dump_name (c : ExtractedContent) : option string :=
  match c with ProductContent _ _ n _ _ _ _ => n | _ => None end.

Definition dump_content (c : ExtractedContent) : option string :=
  match c with
  | ArticleContent _ _ t _ _ | ForumPostContent _ _ t _ _ | OtherContent _ _ t => Some t
  | _ => None
  end.

Definition dump_description (c : ExtractedContent) : option string :=
  match c with ProductContent _ _ _ _ _ d _ => d | _ => None end.

Definition dump_options (c : ExtractedContent) : list string :=
  match c with ProductContent _ _ _ _ o _ _ => o | _ => [] end.

Definition dump_features (c : ExtractedContent) : list string :=
  match c with ProductContent _ _ _ _ _ _ f => f | _ => [] end.

Definition dump_price (c : ExtractedContent) : option string :=
  match c with ProductContent _ _ _ p _ _ _ => p | _ => None end.

Definition dump_date (c : ExtractedContent) : option string :=
  match c with ArticleContent _ _ _ _ d => d | _ => None end.

(** One iteration of the [for content_dict in extracted_content_dicts]
    loop of [write_response_task]. *)
Definition content_part (MAX_CHARACTERS_PER_PAGE : Z) (c : ExtractedContent) : string :=
  let part := "Source: [" ++ content_title c ++ "](" ++ content_url c ++ ")" ++ nl
              ++ "Type: " ++ page_type c ++ nl in
  let part := if py_truthy_opt (dump_name c)
              then part ++ "Name: " ++ match dump_name c with Some n => n | None => "" end ++ nl
              else part in
  let part := if py_truthy_opt (dump_content c)
              then part ++ "Content: "
                   ++ py_str_slice_upto (match dump_content c with Some t => t | None => "" end)
                        MAX_CHARACTERS_PER_PAGE ++ nl
              else if py_truthy_opt (dump_description c)
              then part ++ "Description: "
                   ++ match dump_description c with Some d => d | None => "" end ++ nl
              else part in
  let part := match dump_options c with
              | [] => part
              | o => part ++ "Options: " ++ String.concat ", " (firstn 10 o) ++ nl
              end in
  let part := match dump_features c with
              | [] => part
              | f => part ++ "Features: " ++ String.concat ", " (firstn 10 f) ++ nl
              end in
  let part := if py_truthy_opt (dump_price c)
              then part ++ "Price: " ++ match dump_price c with Some p => p | None => "" end ++ nl
              else part in
  let part := if py_truthy_opt (dump_date c)
              then part ++ "Date: " ++ match dump_date c with Some d => d | None => "" end ++ nl
              else part in
  part.

Definition content_parts (MAX_CHARACTERS_PER_PAGE : Z) (cs : list ExtractedContent)
    : list string :=
  map (content_part MAX_CHARACTERS_PER_PAGE) cs.
End Writer.

(* ------------------------------------------------------------------ *)
(** * The browser pool (services/browser_pool.py) *)

(** The pool's fields: [_ref_count], whether [_playwright] is set, and
    [_browsers] (each browser named by its launch number), with the number
    of launches so far. Every method runs under [_lock], so the methods of
    concurrent sessions take effect one at a time. Starting Playwright,
    stopping it and launching a browser are awaited calls that may raise;
    the boolean argument of a method says whether that call succeeds when it
    is made. The exception then leaves the method. *)
Record BrowserPool := mkBrowserPool {
  ref_count : Z;
  playwright : bool;
  browsers : list nat;
  launched : nat }.

Definition pool_init : BrowserPool := mkBrowserPool 0 false [] 0.

(** [__aenter__]: the count is raised before Playwright is started. *)
Definition pool_aenter (start_ok : bool) (p : BrowserPool) : Result unit * BrowserPool :=
  let rc := (ref_count p + 1)%Z in
  if (rc =? 1)%Z then
    if start_ok then (Ok tt, mkBrowserPool rc true (browsers p) (launched p))
    else (Raise "PlaywrightError", mkBrowserPool rc (playwright p) (browsers p) (launched p))
  else (Ok tt, mkBrowserPool rc (playwright p) (browsers p) (launched p)).

(** [__aexit__]: errors closing a browser are logged and dropped; an error
    of [stop()] leaves [_playwright] set. *)
Definition pool_aexit (stop_ok : bool) (p : BrowserPool) : Result unit * BrowserPool :=
  let rc := (ref_count p - 1)%Z in
  if (rc =? 0)%Z then
    if playwright p then
      if stop_ok then (Ok tt, mkBrowserPool rc false [] (launched p))
      else (Raise "PlaywrightError", mkBrowserPool rc true [] (launched p))
    else (Ok tt, mkBrowserPool rc false [] (launched p))
  else (Ok tt, mkBrowserPool rc (playwright p) (browsers p) (launched p)).

(** [_acquire_browser] *)
Definition pool_acquire (launch_ok : bool) (p : BrowserPool) : Result nat * BrowserPool :=
  match browsers p with
  | b :: _ => (Ok b, p)
  | [] =>
      if negb (playwright p) then (Raise "RuntimeError", p)
      else if launch_ok
      then (Ok (launched p), mkBrowserPool (ref_count p) true [launched p] (S (launched p)))
      else (Raise "PlaywrightError", p)
  end.

(** A method call, with the outcome of its Playwright call. *)
Inductive PoolOp := PoolEnter (ok : bool) | PoolExit (ok : bool) | PoolAcquire (ok : bool).

(** The result of a call: [None] for enter and exit, the browser for an
    acquire. *)
Definition pool_call (o : PoolOp) (p : BrowserPool) : Result (option nat) * BrowserPool :=
  match o with
  | PoolEnter ok =>
      let (r, p') := pool_aenter ok p in
      (match r with Ok _ => Ok None | Raise e => Raise e end, p')
  | PoolExit ok =>
      let (r, p') := pool_aexit ok p in
      (match r with Ok _ => Ok None | Raise e => Raise e end, p')
  | PoolAcquire ok =>
      let (r, p') := pool_acquire ok p in
      (match r with Ok b => Ok (Some b) | Raise e => Raise e end, p')
  end.

(** A sequence of method calls; the result of every call, in order. *)
Fixpoint run_pool (ops : list PoolOp) (p : BrowserPool)
    : list (Result (option nat)) * BrowserPool :=
  match ops with
  | [] => ([], p)
  | o :: ops' =>
      let (r, p') := pool_call o p in
      let (rs, p'') := run_pool ops' p' in (r :: rs, p'')
  end.

(* ------------------------------------------------------------------ *)
(** * Turnstile verification (services/turnstile.py) *)

(** Python truthiness of a JSON value. *)
Definition py_truthy_json (v : Json) : bool :=
  match v with
  | JNull => false
  | JBool b => b
  | JNum q => negb (Qeq_bool q 0)
  | JStr s => py_truthy s
  | JArr l => match l with [] => false | _ => true end
  | JObj kvs => match kvs with [] => false | _ => true end
  end.

(** What the verification request yields: an [httpx.HTTPError] (a status
    error included), another exception, or the decoded JSON body. *)
Inductive TurnstileReply :=
| TSHttpError
| TSOtherError
| TSJson (body : Json).

(** [verify_turnstile_token]: the value returned, and whether the request
    was sent. [result.get] raises, and the handler returns [False], on a
    body that is not an object. *)
Definition verify_turnstile_token (USE_TURNSTILE : bool)
    (TURNSTILE_SECRET_KEY : option string) (token : string) (reply : TurnstileReply)
    : Json * bool :=
  if negb USE_TURNSTILE then (JBool true, false)
  else if negb (py_truthy_opt TURNSTILE_SECRET_KEY) then (JBool false, false)
  else if negb (py_truthy token) then (JBool false, false)
  else match reply with
       | TSJson (JObj result) => (dict_get_default "success" result (JBool false), true)
       | _ => (JBool false, true)
       end.

(* ------------------------------------------------------------------ *)
(** * The WebSocket endpoint (main.py) *)

(** What reaches [research_websocket]: a client message (a start with its
    ["query"] and ["turnstileToken"] when they are strings, a stop, another
    action, a message that is not a JSON object, a disconnect), or what the
    running research task does (streams [writing_started], fails, ends). *)
Inductive WsInput :=
| WsStart (query token : option string)
| WsStop
| WsOtherAction
| WsBadMessage
| WsDisconnect
| TaskWritingStarted
| TaskFailed
| TaskFinished.

Inductive WsOutput :=
| OutError (message : string)
| OutException
| OutStopped
| OutVerify (token : string) (valid : bool)
| OutTaskCancelled
| OutTaskStarted (query : string).

(** The handler's locals; [ws_open] is false once the receive loop has
    returned, after which inputs are no longer followed. *)
Record WsState := mkWsState {
  ws_open : bool;
  stop_flag : bool;
  writing_flag : bool;
  is_verified : bool;
  current_task : option string;
  ws_out : list WsOutput }.

Definition ws_init : WsState := mkWsState true false false false None [].

Definition ws_send (o : list WsOutput) (st : WsState) : WsState :=
  mkWsState (ws_open st) (stop_flag st) (writing_flag st) (is_verified st)
    (current_task st) (ws_out st ++ o).

Section WebSocket.
Variable USE_TURNSTILE : bool.
(** The truthiness of [verify_turnstile_token] on a token. *)
Variable verify : string -> bool.

(** Reset the flags, cancel a running task, start a new one. *)
Definition ws_launch (q : string) (verified : bool) (st : WsState) : WsState :=
  mkWsState (ws_open st) false false verified (Some q)
    (ws_out st ++ match current_task st with Some _ => [OutTaskCancelled] | None => [] end
               ++ [OutTaskStarted q]).

Definition ws_step (st : WsState) (i : WsInput) : WsState :=
  if negb (ws_open st) then st else
  match i with
  | WsStart query token =>
      match query with
      | Some q =>
          if negb (py_truthy q) then ws_send [OutError "Query is required"] st
          else if USE_TURNSTILE && negb (is_verified st) then
            match token with
            | Some t =>
                if negb (py_truthy t) then
                  ws_send [OutError "Cloudflare verification required"] st
                else if negb (verify t) then
                  ws_send [OutVerify t false; OutError "Cloudflare verification failed"] st
                else ws_launch q true (ws_send [OutVerify t true] st)
            | None => ws_send [OutError "Cloudflare verification required"] st
            end
          else ws_launch q (is_verified st) st
      | None => ws_send [OutError "Query is required"] st
      end
  | WsStop =>
      if writing_flag st
      then ws_send [OutError "Cannot stop research while writing response"] st
      else mkWsState (ws_open st) true (writing_flag st) (is_verified st)
             (current_task st) (ws_out st ++ [OutStopped])
  | WsOtherAction => st
  | WsBadMessage =>
      mkWsState false true (writing_flag st) (is_verified st) (current_task st)
        (ws_out st ++ [OutException])
  | WsDisconnect =>
      mkWsState false true (writing_flag st) (is_verified st) (current_task st)
        (ws_out st ++ match current_task st with Some _ => [OutTaskCancelled] | None => [] end)
  | TaskWritingStarted =>
      match current_task st with
      | Some _ => mkWsState (ws_open st) (stop_flag st) true (is_verified st)
                    (current_task st) (ws_out st)
      | None => st
      end
  | TaskFailed =>
      match current_task st with
      | Some _ => mkWsState (ws_open st) true (writing_flag st) (is_verified st) None
                    (ws_out st ++ [OutStopped; OutError "Research workflow error"])
      | None => st
      end
  | TaskFinished =>
      mkWsState (ws_open st) (stop_flag st) (writing_flag st) (is_verified st) None (ws_out st)
  end.

Definition ws_run (ins : list WsInput) (st : WsState) : WsState :=
  fold_left ws_step ins st.
End WebSocket.

(* ------------------------------------------------------------------ *)
(** * Auxiliary definitions for the proofs *)

Definition sample_result (u : string) : SearchResult :=
  mkSearchResult "title" u "snippet".

(** [preserves R m]: every run of [m] relates its start and end states by
    the preorder [R]. *)
Definition preserves {A} (R : RState -> RState -> Prop) (m : M A) : Prop :=
  forall st, R st (snd (m st)).

Definition R_frame {B} (f : RState -> B) (s s' : RState) : Prop := f s' = f s.
Definition R_clock (s s' : RState) : Prop := (clock s <= clock s')%nat.

Definition fetched (tr : list Event) : list string :=
  flat_map (fun e => match e with EvFetch u => [u] | _ => [] end) tr.

Definition not_counter (e : Event) : Prop := match e with EvCounter _ => False | _ => True end.
Definition not_stop (e : Event) : Prop := e <> EvStopSeen.

Definition R_counter (s s' : RState) : Prop :=
  (total_rewritten_queries s <= total_rewritten_queries s')%Z /\
  forall n, In (EvCounter n) (trace s') ->
    In (EvCounter n) (trace s) \/
    (total_rewritten_queries s < n <= total_rewritten_queries s')%Z.

Definition page_a : SearchResult := sample_result "https://example.org/a".
Definition page_b : SearchResult := sample_result "https://example.org/b".

(** A relevance filter that keeps every result it is given, at score 1/2. *)
Definition keep_all (clean : list SearchResult) : list (option FilteredSearchResult) :=
  map (fun r => Some (mkFiltered (sr_title r) (sr_url r) (sr_snippet r) (PFin (1 # 2)))) clean.

Definition no_json_reply {J} (raw : string) : nat -> LLMCall J := fun _ => LLMReply raw None.

(** A configuration with guardrails off: the provider returns [results] for
    every query, every page reads [page], the writer answers ["answer"]. *)
Definition sample_env (max_queries : Z) (extraction : bool) (stop : option nat)
    (results : list SearchResult) (page : string)
    (filter : nat -> list SearchResult -> LLMCall (list (option FilteredSearchResult)))
    : Env :=
  mkEnv false extraction max_queries 10 3 stop
    (fun _ => LLMCancelled) (fun _ _ _ => Some results) filter
    (fun _ _ => Some page) (fun _ _ _ => XNoExtraction)
    (no_json_reply "STOP") (fun _ => Some "answer") insertion_list_sort (fun _ => []).

Definition keep_all_filter : nat -> list SearchResult -> LLMCall (list (option FilteredSearchResult)) :=
  fun _ clean => LLMReply "" (Some (keep_all clean)).

Fixpoint batch_failures (rows : list (string * Result BatchItem)) : list Event :=
  match rows with
  | [] => []
  | (q, Raise _) :: rows' => EvSearchFailed q :: batch_failures rows'
  | (_, Ok _) :: rows' => batch_failures rows'
  end.

Fixpoint batch_successes (rows : list (string * Result BatchItem)) : list BatchItem :=
  match rows with
  | [] => []
  | (_, Raise _) :: rows' => batch_successes rows'
  | (_, Ok b) :: rows' => if bi_success b then b :: batch_successes rows'
                          else batch_successes rows'
  end.

Definition failing_search_env : Env :=
  mkEnv false false 3 10 3 None (fun _ => LLMCancelled) (fun _ _ _ => None)
    keep_all_filter (fun _ _ => Some "text") (fun _ _ _ => XNoExtraction)
    (no_json_reply "STOP") (fun _ => Some "answer") insertion_list_sort (fun _ => []).

(** The provider raises on the query ["bad"] and returns [page_a] for any
    other query; the filter keeps every result. *)
Definition mixed_search_env : Env :=
  mkEnv false false 3 10 3 None (fun _ => LLMCancelled)
    (fun _ q _ => if String.eqb q "bad" then None else Some [page_a])
    keep_all_filter (fun _ _ => Some "text") (fun _ _ _ => XNoExtraction)
    (no_json_reply "STOP") (fun _ => Some "answer") insertion_list_sort (fun _ => []).

Definition R_impl (P : RState -> Prop) (s s' : RState) : Prop := P s -> P s'.

Definition NoStop (st : RState) : Prop := ~ In EvStopSeen (trace st).

(** Once the flag has been seen set, it is still set. *)
Definition Mono (env : Env) (st : RState) : Prop :=
  In EvStopSeen (trace st) -> stop_now env st = true.

(** Work allowed after a stop observation: none but the writer call. *)
Definition okw (e : Event) : Prop := is_work e = false \/ e = EvWrite.

Definition WF (tr : list Event) : Prop :=
  exists pre post, tr = pre ++ post /\ ~ In EvStopSeen pre /\ Forall okw post.

Definition WFt (st : RState) : Prop := WF (trace st).

(** Stages that never raise. *)
Definition returns {A} (m : M A) : Prop :=
  forall st o st', m st = (o, st') -> exists a, o = Ret a.

(** The query of a batch task, and how many more runs it needs at most. *)
Definition task_query (t : QTask) : string :=
  match t with QStart qf => qf_query qf | QAwait q _ => q | QDone q _ => q end.

Definition stage (t : QTask) : nat :=
  match t with QStart _ => 2 | QAwait _ _ => 1 | QDone _ _ => 0 end.

(** The relevance filter's parsed reply, given distinct clean results,
    lists distinct URLs taken from them. *)
Definition FilterSelects (env : Env) : Prop :=
  forall n clean raw items fs,
    filter_llm env n clean = LLMReply raw (Some items) -> all_items items = Some fs ->
    NoDup (map sr_url clean) -> NoDup (map fr_url fs) /\ incl (map fr_url fs) (map sr_url clean).

Definition URLInv (st : RState) : Prop :=
  NoDup (seen_urls st) /\ NoDup (fetched (trace st)) /\
  incl (fetched (trace st)) (seen_urls st).

Definition URLs (st : RState) : list string * list string :=
  (seen_urls st, fetched (trace st)).

Definition merge_urls (bs : list BatchItem) (seen : list string) : list string :=
  fold_left (fun seen b => if bi_success b then add_new_urls seen (bi_new_urls b) else seen)
    bs seen.

Definition item_ok (snap : list string) (b : BatchItem) : Prop :=
  bi_success b = true ->
  bi_new_urls b = map sr_url (bi_filtered_results b) /\ NoDup (bi_new_urls b) /\
  (forall u, In u (bi_new_urls b) -> ~ In u snap).

(** A suspended task holds distinct new URLs of its results, none in the
    snapshot; a finished task's row satisfies [item_ok]. *)
Definition task_ok (snap : list string) (t : QTask) : Prop :=
  match t with
  | QAwait _ (Ok (res, urls)) =>
      urls = map sr_url res /\ NoDup urls /\ (forall u, In u urls -> ~ In u snap)
  | QDone _ (Ok b) => item_ok snap b
  | _ => True
  end.

(** A relevance filter whose reply lists every clean result twice. *)
Definition dup_filter : nat -> list SearchResult -> LLMCall (list (option FilteredSearchResult)) :=
  fun _ clean => LLMReply "" (Some (keep_all (clean ++ clean))).

(** Guardrails off, one rewritten query allowed: the provider finds nothing
    for the original query ["q"] and [page_a] for any other; the rewriter's
    plain-text reply ["q2"] becomes the one rewritten query, and the
    relevance filter names every clean result twice. *)
Definition batch_dup_env : Env :=
  mkEnv false false 1 10 3 None (fun _ => LLMCancelled)
    (fun _ q _ => if String.eqb q "q" then Some [] else Some [page_a])
    dup_filter (fun _ _ => Some "text") (fun _ _ _ => XNoExtraction)
    (no_json_reply "q2") (fun _ => Some "answer") insertion_list_sort (fun _ => []).



(** Definitions used by the statements about the remaining modules. *)

(** The exceptions the extraction tool-call path can raise. *)
Definition extraction_errors : list string := ["TypeError"; "AttributeError"; "ValidationError"].

(** Counting the calls of one kind in a sequence of pool calls. *)
Definition is_enter (o : PoolOp) : bool := match o with PoolEnter _ => true | _ => false end.
Definition is_exit (o : PoolOp) : bool := match o with PoolExit _ => true | _ => false end.
Definition is_acquire (o : PoolOp) : bool := match o with PoolAcquire _ => true | _ => false end.
Definition op_ok (o : PoolOp) : bool :=
  match o with PoolEnter ok | PoolExit ok | PoolAcquire ok => ok end.

Definition n_ops (f : PoolOp -> bool) (ops : list PoolOp) : Z :=
  Z.of_nat (List.length (filter f ops)).

(** The pool's bookkeeping between calls. *)
Definition PoolInv (p : BrowserPool) : Prop :=
  (0 <= ref_count p)%Z
  /\ (playwright p = true <-> (0 < ref_count p)%Z)
  /\ (List.length (browsers p) <= 1)%nat
  /\ (browsers p <> [] -> playwright p = true).

(** Every task start is preceded by a successful verification. *)
Definition started_after_verify (out : list WsOutput) : Prop :=
  forall pre q post, out = pre ++ OutTaskStarted q :: post ->
  exists t, In (OutVerify t true) pre.

(** No verification follows a successful one. *)
Definition no_verify_after_success (out : list WsOutput) : Prop :=
  forall pre t post, out = pre ++ OutVerify t true :: post ->
  forall t' b, ~ In (OutVerify t' b) post.

(** The WebSocket handler's verification bookkeeping. *)
Definition WsGate (st : WsState) : Prop :=
  (is_verified st = true -> exists t, In (OutVerify t true) (ws_out st))
  /\ (is_verified st = false -> forall t, ~ In (OutVerify t true) (ws_out st))
  /\ started_after_verify (ws_out st)
  /\ no_verify_after_success (ws_out st).

(** The results whose URL is neither in [seen] nor that of an earlier
    kept result, in order. *)
Fixpoint first_unseen (rs : list SearchResult) (seen : list string) : list SearchResult :=
  match rs with
  | [] => []
  | r :: rs' =>
      if existsb (String.eqb (sr_url r)) seen then first_unseen rs' seen
      else r :: first_unseen rs' (sr_url r :: seen)
  end.

(** Guardrails on, and a guardrail reply that rejects every query. *)
Definition rejecting_env : Env :=
  mkEnv true false 3 10 3 None
    (fun _ => LLMReply "{}" (Some (mkGuardJson (Some false) (Some "unsafe") None)))
    (fun _ _ _ => Some []) (fun _ _ => LLMCancelled) (fun _ _ => None)
    (fun _ _ _ => XNoExtraction) (fun _ => LLMCancelled) (fun _ => None)
    insertion_list_sort (fun _ => []).

(** The accepted content only grows, by items that pass the gate. *)
Definition R_gate (s s' : RState) : Prop :=
  exists added, extracted_content s' = extracted_content s ++ added /\
                Forall (fun c => has_meaningful_content c = true) added.

(** Extraction on, two results: a directory with one item and an empty one. *)
Definition listed_page : ExtractedContent :=
  DirectoryContent "Shops" "https://example.com/a"
    [mkDirectoryItem "Shop" None None None].

Definition empty_listing : ExtractedContent :=
  DirectoryContent "Shops" "https://example.com/b" [].

Definition gating_env : Env :=
  mkEnv false true 0 10 3 None (fun _ => LLMCancelled)
    (fun _ _ _ => Some [mkSearchResult "A" "https://example.com/a" "";
                        mkSearchResult "B" "https://example.com/b" ""])
    (fun _ _ => LLMReply "not json" None) (fun _ _ => None)
    (fun _ u _ => if String.eqb u "https://example.com/a"
                  then XExtracted (Some listed_page) else XExtracted (Some empty_listing))
    (fun _ => LLMCancelled) (fun _ => Some "answer") insertion_list_sort (fun _ => []).

(* ================================================================== *)
(** * Theorems *)
(* ================================================================== *)

Example split_sample : py_split " a  bc	d " = ["a"; "bc"; "d"].
Proof. reflexivity. Qed.

Example strip_sample : py_strip "  a b  " = "a b".
Proof. reflexivity. Qed.

(** ** The quality gate *)

Lemma py_truthy_false_empty (s : string) : py_truthy s = false -> s = "".
Proof.
  unfold py_truthy. destruct (String.eqb s "") eqn:E; simpl; [|discriminate].
  intros _. apply String.eqb_eq. exact E.
Qed.

Lemma strip_empty_length : String.length (py_strip "") = 0%nat.
Proof. reflexivity. Qed.

(** Every text gate: falsy content has a stripped length of 0 < 50, so the
    two-part test of the source is the length test alone. *)
Lemma text_gate_iff (c : string) :
  (negb (py_truthy c)
   || (String.length (py_strip c) <? MIN_CONTENT_LENGTH)%nat) = false <->
  (MIN_CONTENT_LENGTH <= String.length (py_strip c))%nat.
Proof.
  rewrite orb_false_iff, negb_false_iff, Nat.ltb_ge. split.
  - intros [_ H]. exact H.
  - intros H. split; [|exact H].
    destruct (py_truthy c) eqn:E; [reflexivity|].
    apply py_truthy_false_empty in E. subst c.
    rewrite strip_empty_length in H. unfold MIN_CONTENT_LENGTH in H. lia.
Qed.

(** C5 (corrected): the gate, variant by variant. Only articles have a word
    count; forum posts and other pages have the length test alone. *)
Theorem has_meaningful_content_iff (e : ExtractedContent) :
  has_meaningful_content e = true <->
  match e with
  | ArticleContent _ _ c _ _ =>
      (MIN_CONTENT_LENGTH <= String.length (py_strip c))%nat
      /\ (MIN_MEANINGFUL_WORDS <= List.length (py_split c))%nat
  | ForumPostContent _ _ c _ _ =>
      (MIN_CONTENT_LENGTH <= String.length (py_strip c))%nat
  | OtherContent _ _ c =>
      (MIN_CONTENT_LENGTH <= String.length (py_strip c))%nat
  | ProductContent _ _ name _ _ description _ =>
      py_truthy_opt name = true \/ py_truthy_opt description = true
  | DirectoryContent _ _ items => items <> []
  end.
Proof.
  destruct e as [t u c a d | t u n p o d f | t u c a r | t u items | t u c];
    simpl.
  - rewrite <- text_gate_iff.
    destruct (negb (py_truthy c)
              || (String.length (py_strip c) <? MIN_CONTENT_LENGTH)%nat);
      [split; [discriminate | intros [H _]; discriminate H]|].
    destruct (List.length (py_split c) <? MIN_MEANINGFUL_WORDS)%nat eqn:W.
    + apply Nat.ltb_lt in W. split; [discriminate|]. intros [_ H]. lia.
    + apply Nat.ltb_ge in W. tauto.
  - destruct (py_truthy_opt n), (py_truthy_opt d); simpl;
      split; intros; auto; try discriminate.
    destruct H; discriminate.
  - rewrite <- text_gate_iff.
    destruct (negb (py_truthy c)
              || (String.length (py_strip c) <? MIN_CONTENT_LENGTH)%nat);
      split; congruence.
  - destruct items; simpl; split; congruence.
  - rewrite <- text_gate_iff.
    destruct (negb (py_truthy c)
              || (String.length (py_strip c) <? MIN_CONTENT_LENGTH)%nat);
      split; congruence.
Qed.

(** C5 (counterexample): a forum post of 60 letters and no space, one word,
    passes the gate although the specified gate asks for ten words. *)
Lemma has_meaningful_content_one_word_forum_post :
  has_meaningful_content
    (ForumPostContent "t" "https://forum.example/p" (repeat_char "a" 60) None [])
  = true
  /\ List.length (py_split (repeat_char "a" 60)) = 1%nat
  /\ gate_as_specified
       (ForumPostContent "t" "https://forum.example/p" (repeat_char "a" 60) None [])
     = false.
Proof. vm_compute. repeat split. Qed.

(** ** The stable descending sort of the relevance filter *)

Section PySortedFacts.
Variable A : Type.
(** A strict weak order: asymmetric and negatively transitive. *)
Variable lt : A -> A -> bool.
Hypothesis lt_asym : forall x y, lt x y = true -> lt y x = false.
Hypothesis lt_negtrans : forall x y z, lt x z = true -> lt x y = true \/ lt y z = true.





(** A class of elements no one of which is less than another. *)
Variable cls : A -> bool.
Hypothesis cls_flat : forall x z, cls x = true -> cls z = true -> lt x z = false.


End PySortedFacts.
















Lemma py_slice_upto_nonneg {B} (l : list B) (n : Z) :
  (0 <= n)%Z -> py_slice_upto l n = firstn (Z.to_nat n) l.
Proof.
  intros H. unfold py_slice_upto. destruct (Z.leb_spec 0 n); [reflexivity|lia].
Qed.







(** ** Effects of the monadic components *)

#[export] Instance R_frame_preorder {B} (f : RState -> B) : PreOrder (R_frame f).
Proof. split; [intros s; reflexivity | intros a b c H1 H2; unfold R_frame in *; congruence]. Qed.

#[export] Instance R_clock_preorder : PreOrder R_clock.
Proof. split; [intros s; unfold R_clock; lia | intros a b c; unfold R_clock; lia]. Qed.

Section Preserves.
Context (R : RState -> RState -> Prop) `{PreOrder _ R}.

Lemma preserves_bind {A B} (m : M A) (k : A -> M B) :
  preserves R m -> (forall a, preserves R (k a)) -> preserves R (bind m k).
Proof.
  intros Hm Hk st. unfold bind. specialize (Hm st).
  destruct (m st) as [[a|e|] st'] eqn:E; simpl in *; try exact Hm.
  transitivity st'; [exact Hm | apply Hk].
Qed.

Lemma preserves_ret {A} (a : A) : preserves R (ret a).
Proof. intros st. simpl. reflexivity. Qed.

Lemma preserves_throw {A} e : preserves R (@throw A e).
Proof. intros st. simpl. reflexivity. Qed.

Lemma preserves_get : preserves R get.
Proof. intros st. simpl. reflexivity. Qed.

Lemma preserves_nofuel {A} : preserves R (fun st => (@NoFuel A, st)).
Proof. intros st. simpl. reflexivity. Qed.

Lemma preserves_try_m {A} (m : M A) : preserves R m -> preserves R (try_m m).
Proof.
  intros Hm st. unfold try_m. specialize (Hm st).
  destruct (m st) as [[a|e|] st']; exact Hm.
Qed.

Lemma preserves_modify f : (forall st, R st (f st)) -> preserves R (modify f).
Proof. intros Hf st. apply Hf. Qed.
End Preserves.

(** Split a computation into its binds, returns and branches. *)
Ltac pres_step :=
  match goal with
  | |- preserves ?R (bind ?m ?k) => refine (preserves_bind R m k _ _); [|intros ?]
  | |- preserves ?R (ret ?a) => exact (preserves_ret R a)
  | |- preserves ?R (throw ?e) => exact (preserves_throw R e)
  | |- preserves ?R get => exact (preserves_get R)
  | |- preserves ?R (fun st => (NoFuel, st)) => exact (preserves_nofuel R)
  | |- preserves ?R (try_m ?m) => refine (preserves_try_m R m _)
  | |- preserves _ (match ?x with _ => _ end) => destruct x eqn:?
  end.

Ltac pres := repeat pres_step.

Lemma call_clock e : preserves R_clock (call e).
Proof. intros st. unfold R_clock, call. simpl. lia. Qed.

Lemma check_stop_clock env : preserves (R_frame clock) (check_stop env).
Proof. intros st. unfold check_stop. destruct (stop_now env st); reflexivity. Qed.

Lemma check_stop_spec env st :
  check_stop env st =
  (Ret (stop_now env st), if stop_now env st then emit EvStopSeen st else st).
Proof. unfold check_stop. destruct (stop_now env st); reflexivity. Qed.

Lemma emit_clock e st : clock (emit e st) = clock st.
Proof. reflexivity. Qed.

Lemma guardrail_state env st :
  guardrail_phase env st = (Ret None, st) \/
  exists o, guardrail_phase env st =
            (o, snd (check_stop env (advance (S (clock st)) EvGuardrail st))).
Proof.
  unfold guardrail_phase. destruct (USE_GUARDRAILS env); [right | left; reflexivity].
  unfold bind, get, modify, check_query_safety, check_stop. simpl.
  repeat match goal with |- context [match ?x with _ => _ end] => destruct x end;
    simpl; eexists; reflexivity.
Qed.

(** Every stage built from calls and stop checks preserves whatever
    preorder the calls and checks preserve. *)
Section Components.
Context (env : Env) (R : RState -> RState -> Prop) `{PreOrder _ R}.

Lemma search_step_pres q mr snap tf :
  preserves R (call (EvSearch q)) -> preserves R (search_step env q mr snap tf).
Proof. intros H1. unfold search_step. pres; assumption. Qed.

Lemma filter_step_pres q nr :
  preserves R (call (EvFilter q)) -> preserves R (filter_step env q nr).
Proof. intros H1. unfold filter_step. pres; assumption. Qed.

Lemma search_and_filter_pres q mr snap tf :
  preserves R (call (EvSearch q)) -> preserves R (call (EvFilter q)) ->
  preserves R (_search_and_filter env q mr snap tf).
Proof.
  intros H1 H2. unfold _search_and_filter. pres;
    auto using search_step_pres, filter_step_pres.
Qed.

Lemma check_stop_query_pres q :
  (forall st, R st (emit (EvQueryStopSeen q) st)) ->
  preserves R (check_stop_query env q).
Proof. intros H1 st. unfold check_stop_query. destruct (stop_now env st); [apply H1 | reflexivity]. Qed.

Lemma step_task_pres mr t :
  (forall q, preserves R (call (EvSearch q))) ->
  (forall q, preserves R (call (EvFilter q))) ->
  (forall q st, R st (emit (EvQueryStopSeen q) st)) ->
  preserves R (step_task env mr t).
Proof.
  intros H1 H2 H3. unfold step_task, finish_query. pres;
    auto using search_step_pres, filter_step_pres, check_stop_query_pres.
Qed.

Lemma gather_pres qs mr :
  (forall q, preserves R (call (EvSearch q))) ->
  (forall q, preserves R (call (EvFilter q))) ->
  (forall q st, R st (emit (EvQueryStopSeen q) st)) ->
  preserves R (gather_batch env qs mr).
Proof.
  intros H1 H2 H3.
  assert (Hn : forall i ts, preserves R (step_nth env mr i ts)).
  { intros i ts. revert i. induction ts as [|t ts IH]; intros [|i]; simpl; pres;
      auto using step_task_pres. }
  assert (Hs : forall sched ts, preserves R (run_schedule env mr sched ts)).
  { induction sched as [|i sched IH]; intros ts; simpl; pres; auto. }
  assert (Ha : forall ts, preserves R (step_all env mr ts)).
  { induction ts as [|t ts IH]; simpl; pres; auto using step_task_pres. }
  unfold gather_batch. pres; auto.
Qed.

Lemma launch_units_pres rs :
  (forall u, preserves R (call (EvFetch u))) -> preserves R (launch_units rs).
Proof. intros H1. induction rs as [|r rs IH]; simpl; pres; auto. Qed.

Lemma handle_units_pres us :
  (forall c st, R st (append_content c st)) -> preserves R (handle_units env us).
Proof.
  intros H1. induction us as [|u us IH]; simpl; pres; auto;
    unfold handle_unit; pres; try apply preserves_modify; auto.
Qed.

Lemma scrape_pres rs :
  (forall u, preserves R (call (EvFetch u))) ->
  (forall c st, R st (append_content c st)) ->
  preserves R (_scrape_and_extract_results env rs).
Proof.
  intros H1 H2. unfold _scrape_and_extract_results. pres;
    [apply launch_units_pres | apply handle_units_pres]; auto.
Qed.

Lemma collect_successes_pres rs :
  (forall q st, R st (emit (EvSearchFailed q) st)) ->
  preserves R (collect_successes rs).
Proof.
  intros H1. induction rs as [|[q [b|e]] rs IH]; simpl; pres; auto.
  apply preserves_modify; auto.
Qed.

Lemma rewriter_call_pres :
  preserves R (call EvRewrite) -> preserves R (rewriter_call env).
Proof.
  intros H1 st. specialize (H1 st). unfold rewriter_call, rewrite_queries_task in *.
  simpl in *. destruct (with_cancel env st (rewriter_llm env) (clock st)); exact H1.
Qed.

Lemma final_response_pres rr :
  preserves R (call EvWrite) -> preserves R (_generate_final_response env rr).
Proof. intros H1. unfold _generate_final_response. pres; auto. Qed.

Lemma update_pres bs :
  (forall b st, R st (merge_one b st)) ->
  preserves R (_update_state_from_batch bs).
Proof.
  intros H1. unfold _update_state_from_batch. apply preserves_modify.
  intros st. revert st. induction bs as [|b bs IH]; intros st; simpl.
  - reflexivity.
  - destruct (bi_success b).
    + transitivity (merge_one b st); [apply H1 | apply IH].
    + apply IH.
Qed.

Lemma guardrail_pres :
  preserves R (call EvGuardrail) -> preserves R (check_stop env) ->
  preserves R (guardrail_phase env).
Proof.
  intros H1 H2 st. destruct (guardrail_state env st) as [E|[o E]]; rewrite E.
  - reflexivity.
  - transitivity (advance (S (clock st)) EvGuardrail st); [apply (H1 st) | apply H2].
Qed.
Lemma loop_pres fuel rr :
  (forall e, is_work e = true -> preserves R (call e)) -> preserves R (check_stop env) ->
  (forall q st, R st (emit (EvSearchFailed q) st)) ->
  (forall q st, R st (emit (EvQueryStopSeen q) st)) ->
  (forall c st, R st (append_content c st)) ->
  (forall b st, R st (merge_one b st)) ->
  preserves R (_iterative_query_rewriting env fuel rr).
Proof.
  intros Hc Hs He Hq Ha Hm. revert rr. induction fuel as [|fuel IH]; intros rr; simpl; pres;
    auto using gather_pres, collect_successes_pres,
      update_pres, scrape_pres, rewriter_call_pres.
Qed.

Lemma workflow_pres fuel :
  (forall e, is_work e = true -> preserves R (call e)) -> preserves R (check_stop env) ->
  (forall q st, R st (emit (EvSearchFailed q) st)) ->
  (forall q st, R st (emit (EvQueryStopSeen q) st)) ->
  (forall c st, R st (append_content c st)) ->
  (forall b st, R st (merge_one b st)) ->
  (forall u r st, R st (set_initial u r st)) ->
  preserves R (research_workflow env fuel).
Proof.
  intros Hc Hs He Hq Ha Hm Hi. unfold research_workflow. pres;
    auto using guardrail_pres, search_and_filter_pres, scrape_pres, loop_pres,
      final_response_pres.
  apply preserves_modify. auto.
Qed.
End Components.

(** Weakest preconditions: reasoning about one run step by step. *)
Lemma bind_wp {A B} (m : M A) (k : A -> M B) st (Q : Step B -> RState -> Prop) :
  (forall a st', m st = (Ret a, st') -> let (o, s) := k a st' in Q o s) ->
  (forall e st', m st = (Throw e, st') -> Q (Throw e) st') ->
  (forall st', m st = (NoFuel, st') -> Q NoFuel st') ->
  let (o, s) := bind m k st in Q o s.
Proof.
  intros H1 H2 H3. unfold bind.
  destruct (m st) as [[a|e|] st'] eqn:E; [apply H1 | apply H2 | apply H3]; reflexivity.
Qed.

Lemma bind_get {B} (k : RState -> M B) st : bind get k st = k st st.
Proof. reflexivity. Qed.

Ltac wp_step :=
  match goal with
  | |- context [bind get ?k ?st] => rewrite (bind_get k st); cbv beta
  | |- let (_, _) := bind ?m ?k ?st in _ =>
      let a := fresh "a" in let s := fresh "s" in let E := fresh "E" in
      apply (bind_wp m k st); [intros a s E | intros ? s E | intros s E]
  | |- let (_, _) := ret _ _ in _ => cbn [ret]
  | |- let (_, _) := throw _ _ in _ => cbn [throw]
  | |- let (_, _) := (match ?x with _ => _ end) _ in _ => destruct x eqn:?
  | |- let (_, _) := (_, _) in _ => cbv iota
  end.

Ltac wp := repeat wp_step.

(** Reading a [preserves] fact off one step. *)
Lemma pres_at {A} (R : RState -> RState -> Prop) (m : M A) st o st' :
  preserves R m -> m st = (o, st') -> R st st'.
Proof. intros H E. specialize (H st). rewrite E in H. exact H. Qed.

(** ** The rewritten-query counter *)

#[export] Instance R_counter_preorder : PreOrder R_counter.
Proof.
  split.
  - intros s. split; [lia | auto].
  - intros a b c [T1 H1] [T2 H2]. split; [lia|]. intros n Hn.
    destruct (H2 n Hn) as [Hb|Hb]; [destruct (H1 n Hb)|]; auto; right; lia.
Qed.

Lemma R_counter_no_counter s s' ext :
  total_rewritten_queries s' = total_rewritten_queries s ->
  trace s' = trace s ++ ext -> Forall not_counter ext -> R_counter s s'.
Proof.
  intros T H F. split; [lia|]. intros n Hn. left. rewrite H in Hn.
  apply in_app_or in Hn as [Hn|Hn]; [exact Hn|].
  rewrite Forall_forall in F. specialize (F _ Hn). contradiction.
Qed.

Lemma workflow_counter env fuel : preserves R_counter (research_workflow env fuel).
Proof.
  apply workflow_pres; [typeclasses eauto | | | | | | |].
  - intros e He st. apply R_counter_no_counter with (ext := [e]); [reflexivity..|].
    repeat constructor. destruct e; discriminate + exact I.
  - intros st. rewrite check_stop_spec. simpl. destruct (stop_now env st).
    + apply R_counter_no_counter with (ext := [EvStopSeen]); [reflexivity..|].
      repeat constructor.
    + reflexivity.
  - intros q st. apply R_counter_no_counter with (ext := [EvSearchFailed q]);
      [reflexivity..|]. repeat constructor.
  - intros q st. apply R_counter_no_counter with (ext := [EvQueryStopSeen q]);
      [reflexivity..|]. repeat constructor.
  - intros c st. apply R_counter_no_counter with (ext := []);
      [reflexivity | symmetry; apply app_nil_r | constructor].
  - intros b st. unfold merge_one. split; simpl; [lia|]. intros n Hn.
    apply in_app_or in Hn as [Hn|[Hn|[]]]; [auto|]. inversion Hn. right. lia.
  - intros u r st. apply R_counter_no_counter with (ext := []);
      [reflexivity | symmetry; apply app_nil_r | constructor].
Qed.

Lemma frame_total_components env :
  (forall e, preserves (R_frame total_rewritten_queries) (call e)) /\
  preserves (R_frame total_rewritten_queries) (check_stop env).
Proof.
  split; [intros e st; reflexivity|].
  intros st. rewrite check_stop_spec. destruct (stop_now env st); reflexivity.
Qed.

Lemma try_m_total {A} (m : M A) st :
  fst (m st) <> NoFuel -> exists r, try_m m st = (Ret r, snd (m st)).
Proof.
  intros H. unfold try_m. destruct (m st) as [[a|e|] s]; simpl in *; eauto.
  contradiction.
Qed.

Lemma search_step_total env q mr snap tf st :
  fst (search_step env q mr snap tf st) <> NoFuel.
Proof.
  unfold search_step, bind, call. cbn beta iota.
  destruct (search_provider _ _ _ _) as [rs|];
    [destruct (_deduplicate_search_results rs snap mr)|]; discriminate.
Qed.

Lemma filter_step_total env q nr st : fst (filter_step env q nr st) <> NoFuel.
Proof.
  unfold filter_step, bind, get, call. cbn beta iota.
  destruct (filter_search_results_by_titles _ _ _ _ _) as [[fo c]|e]; discriminate.
Qed.

Lemma finish_query_ret env q p st :
  exists t' st', finish_query env q p st = (Ret t', st') /\
    task_query t' = q /\ stage t' = 0%nat.
Proof.
  destruct p as [f u]. unfold finish_query, bind, check_stop_query. cbn beta iota.
  destruct (stop_now env st); (eexists _, _; split; [reflexivity | split; reflexivity]).
Qed.

Lemma step_task_ret env mr t st :
  exists t' st', step_task env mr t st = (Ret t', st') /\
    task_query t' = task_query t /\ (stage t' <= pred (stage t))%nat.
Proof.
  destruct t as [qf|q [p|e]|q r]; cbn [step_task].
  - rewrite bind_get. unfold bind at 1.
    destruct (try_m_total (search_step env (qf_query qf) mr (seen_urls st) (qf_time_filter qf))
                st (search_step_total _ _ _ _ _ _)) as [r Er].
    rewrite Er. destruct r as [[|x nr]|e].
    + destruct (finish_query_ret env (qf_query qf) ([], [])
                  (snd (search_step env (qf_query qf) mr (seen_urls st) (qf_time_filter qf) st)))
        as (t' & s' & E & Q & S).
      rewrite E. exists t', s'. split; [reflexivity|]. rewrite S. simpl. auto with arith.
    + unfold bind.
      match goal with |- context [try_m ?m ?s] =>
        destruct (try_m_total m s (filter_step_total _ _ _ _)) as [r' Er'] end.
      rewrite Er'. eexists _, _. split; [reflexivity|]. simpl. auto.
    + eexists _, _. split; [reflexivity|]. simpl. auto.
  - destruct (finish_query_ret env q p st) as (t' & s' & E & Q & S).
    rewrite E. exists t', s'. split; [reflexivity|]. rewrite S. simpl. auto.
  - eexists _, _. split; [reflexivity|]. simpl. auto.
  - eexists _, _. split; [reflexivity|]. simpl. auto.
Qed.

Lemma step_nth_ret env mr i ts st :
  exists ts' st', step_nth env mr i ts st = (Ret ts', st') /\
    map task_query ts' = map task_query ts.
Proof.
  revert i st. induction ts as [|t ts IH]; intros i st.
  - destruct i; eexists _, _; split; reflexivity.
  - destruct i as [|i]; cbn [step_nth]; unfold bind.
    + destruct (step_task_ret env mr t st) as (t' & s' & E & Q & _). rewrite E.
      eexists _, _. split; [reflexivity|]. simpl. congruence.
    + destruct (IH i st) as (ts' & s' & E & Q). rewrite E.
      eexists _, _. split; [reflexivity|]. simpl. congruence.
Qed.

Lemma run_schedule_ret env mr sched ts st :
  exists ts' st', run_schedule env mr sched ts st = (Ret ts', st') /\
    map task_query ts' = map task_query ts.
Proof.
  revert ts st. induction sched as [|i sched IH]; intros ts st.
  - eexists _, _. split; reflexivity.
  - cbn [run_schedule]. unfold bind at 1.
    destruct (step_nth_ret env mr i ts st) as (ts1 & s1 & E & Q). rewrite E.
    destruct (IH ts1 s1) as (ts2 & s2 & E2 & Q2). rewrite E2.
    eexists _, _. split; [reflexivity|]. congruence.
Qed.

Lemma step_all_ret env mr ts st :
  exists ts' st', step_all env mr ts st = (Ret ts', st') /\
    map task_query ts' = map task_query ts /\
    (forall b, Forall (fun t => (stage t <= S b)%nat) ts ->
               Forall (fun t => (stage t <= b)%nat) ts').
Proof.
  revert st. induction ts as [|t ts IH]; intros st.
  - eexists _, _. split; [reflexivity|]. split; [reflexivity | intros; constructor].
  - cbn [step_all]. unfold bind at 1.
    destruct (step_task_ret env mr t st) as (t' & s1 & E & Q & S). rewrite E.
    unfold bind. destruct (IH s1) as (ts' & s2 & E2 & Q2 & F2). rewrite E2.
    eexists _, _. split; [reflexivity|]. split; [simpl; congruence|].
    intros b F. inversion F; subst. constructor; [lia | auto].
Qed.

Lemma stage_le t : (stage t <= 2)%nat.
Proof. destruct t; simpl; lia. Qed.

Lemma row_of_query t : fst (row_of t) = task_query t.
Proof. destruct t; reflexivity. Qed.

(** [gather] returns one row per query, in the order of the queries, and
    every task has run to its end when the rows are read. *)
Lemma gather_ret env qs mr st :
  exists rows st', gather_batch env qs mr st = (Ret rows, st') /\
    map fst rows = map qf_query qs /\
    exists ts, rows = map row_of ts /\ Forall (fun t => stage t = 0%nat) ts.
Proof.
  unfold gather_batch. rewrite bind_get. unfold bind at 1.
  destruct (run_schedule_ret env mr (gather_schedule env (clock st)) (map QStart qs) st)
    as (ts1 & s1 & E1 & Q1). rewrite E1. unfold bind at 1.
  destruct (step_all_ret env mr ts1 s1) as (ts2 & s2 & E2 & Q2 & F2). rewrite E2.
  unfold bind at 1.
  destruct (step_all_ret env mr ts2 s2) as (ts3 & s3 & E3 & Q3 & F3). rewrite E3.
  eexists _, _. split; [reflexivity|]. split.
  - rewrite map_map. rewrite (map_ext _ _ row_of_query).
    rewrite Q3, Q2, Q1, map_map. reflexivity.
  - exists ts3. split; [reflexivity|].
    assert (F : Forall (fun t => (stage t <= 0)%nat) ts3).
    { apply F3, F2. apply Forall_forall. intros t _. apply stage_le. }
    eapply Forall_impl; [|exact F]. intros t H. simpl in H. lia.
Qed.

Lemma gather_len env qs mr st rows st' :
  gather_batch env qs mr st = (Ret rows, st') -> List.length rows = List.length qs.
Proof.
  intros E. destruct (gather_ret env qs mr st) as (rows' & s' & E' & M & _).
  rewrite E in E'. inversion E'; subst.
  rewrite <- (length_map fst), <- (length_map qf_query qs). congruence.
Qed.

Lemma gather_returns env qs mr : returns (gather_batch env qs mr).
Proof.
  intros st o st' E. destruct (gather_ret env qs mr st) as (rows & s' & E' & _).
  rewrite E in E'. inversion E'; eauto.
Qed.

Lemma collect_successes_spec rs st succ st' :
  collect_successes rs st = (Ret succ, st') ->
  (List.length succ <= List.length rs)%nat /\ Forall (fun b => bi_success b = true) succ.
Proof.
  revert st succ st'. induction rs as [|[q [b|e]] rs IH]; intros st succ st' E.
  - inversion E; subst. split; [simpl; lia | constructor].
  - simpl in E. unfold bind in E.
    destruct (collect_successes rs st) as [[rest|e|] s2] eqn:E2; try discriminate.
    inversion E; subst. destruct (IH _ _ _ E2) as [L F].
    destruct (bi_success b) eqn:B; simpl; split; try lia; auto.
  - simpl in E. unfold bind, modify in E. destruct (IH _ _ _ E) as [L F].
    simpl. split; [lia | exact F].
Qed.

Lemma update_total bs st :
  (total_rewritten_queries (snd (_update_state_from_batch bs st)) <=
   total_rewritten_queries st + Z.of_nat (List.length bs))%Z.
Proof.
  unfold _update_state_from_batch, modify. simpl. revert st.
  induction bs as [|b bs IH]; intros st; simpl; [lia|].
  destruct (bi_success b).
  - specialize (IH (merge_one b st)). simpl in IH. lia.
  - specialize (IH st). lia.
Qed.

Lemma py_slice_upto_len {B} (l : list B) (n : Z) :
  (0 <= n)%Z -> (Z.of_nat (List.length (py_slice_upto l n)) <= n)%Z.
Proof.
  intros H. rewrite py_slice_upto_nonneg by exact H. rewrite length_firstn. lia.
Qed.

(** Solve [preserves (R_frame f) m] for a stage [m] that leaves [f] alone. *)
Ltac base_frame :=
  unfold preserves, R_frame; intros;
  try rewrite check_stop_spec; try destruct (stop_now _ _); reflexivity.

Ltac comp_frame :=
  pres; first [ eapply gather_pres
        | eapply collect_successes_pres | eapply scrape_pres
        | eapply rewriter_call_pres | eapply search_and_filter_pres
        | eapply final_response_pres | eapply guardrail_pres
        | eapply launch_units_pres | eapply handle_units_pres
        | idtac ];
  try typeclasses eauto; intros; base_frame.

Ltac frame_of f E :=
  match type of E with
  | ?m ?s = (_, ?s') =>
      let H := fresh "F" in
      assert (H : f s' = f s)
        by exact (pres_at (R_frame f) m s _ s' ltac:(comp_frame) E)
  end.

Lemma loop_total_bound env fuel rr st :
  (total_rewritten_queries st <= MAX_REWRITTEN_QUERIES env)%Z ->
  let (o, s) := _iterative_query_rewriting env fuel rr st in
  (total_rewritten_queries s <= MAX_REWRITTEN_QUERIES env)%Z.
Proof.
  revert rr st. induction fuel as [|fuel IH]; intros rr st Hst; [exact Hst|].
  cbn [_iterative_query_rewriting]. wp.
  all: try (apply negb_false_iff, Z.ltb_lt in Heqb).
  all: try match goal with E : gather_batch _ _ _ _ = (Ret _, _) |- _ =>
         pose proof (gather_len _ _ _ _ _ _ E) end.
  all: try match goal with E : collect_successes _ _ = (Ret _, _) |- _ =>
         pose proof (proj1 (collect_successes_spec _ _ _ _ E)) end.
  all: try match goal with E : _update_state_from_batch ?bs ?s = (_, ?s') |- _ =>
         pose proof (update_total bs s) as U; rewrite E in U; simpl in U; clear E end.
  all: repeat match goal with E : ?m ?s = (_, ?s') |- _ =>
         frame_of total_rewritten_queries E; clear E end.
  all: try match goal with
           Heql : py_slice_upto ?l ?n = _ |- _ =>
           assert (Hn : (0 <= n)%Z) by lia;
           pose proof (py_slice_upto_len l n Hn) as Hl; rewrite Heql in Hl end.
  all: try lia.
  all: apply IH; lia.
Qed.

Lemma workflow_total_bound env fuel st :
  (total_rewritten_queries st <= MAX_REWRITTEN_QUERIES env)%Z ->
  let (o, s) := research_workflow env fuel st in
  (total_rewritten_queries s <= MAX_REWRITTEN_QUERIES env)%Z.
Proof.
  intros Hst. unfold research_workflow. wp.
  all: repeat match goal with E : ?m ?s = (_, ?s') |- _ =>
         frame_of total_rewritten_queries E; clear E end.
  all: try match goal with E : _iterative_query_rewriting ?e ?f ?r ?s = (_, ?s') |- _ =>
         pose proof (loop_total_bound e f r s ltac:(lia)) as L; rewrite E in L end.
  all: lia.
Qed.

(** C2 (corrected): with a non-negative maximum, the counter ends at most
    [MAX_REWRITTEN_QUERIES], and each value it is given when a merged query
    increments it lies between 1 and the maximum. *)
Theorem rewritten_query_counter_bounded env query fuel :
  (0 <= MAX_REWRITTEN_QUERIES env)%Z ->
  let (o, st) := run_research env query fuel in
  (total_rewritten_queries st <= MAX_REWRITTEN_QUERIES env)%Z /\
  forall n, In (EvCounter n) (trace st) -> (0 < n <= MAX_REWRITTEN_QUERIES env)%Z.
Proof.
  intros Hmax. unfold run_research.
  pose proof (workflow_total_bound env fuel (init_state query) Hmax) as B.
  pose proof (workflow_counter env fuel (init_state query)) as [_ C].
  destruct (research_workflow env fuel (init_state query)) as [o st]. simpl in C.
  split; [exact B|]. intros n Hn. destruct (C n Hn) as [[]|Hr]. lia.
Qed.

Lemma rewritten_query_counter_bounded_witness :
  (0 <= MAX_REWRITTEN_QUERIES (sample_env 3 false None [] "" keep_all_filter))%Z /\
  let (o, st) := run_research (sample_env 3 false None [] "" keep_all_filter) "q" 5 in
  (total_rewritten_queries st <=
     MAX_REWRITTEN_QUERIES (sample_env 3 false None [] "" keep_all_filter))%Z /\
  forall n, In (EvCounter n) (trace st) ->
    (0 < n <= MAX_REWRITTEN_QUERIES (sample_env 3 false None [] "" keep_all_filter))%Z.
Proof.
  split; [simpl; lia|].
  apply (rewritten_query_counter_bounded (sample_env 3 false None [] "" keep_all_filter) "q" 5).
  simpl; lia.
Defined.

(** C2 (counterexample): with [MAX_REWRITTEN_QUERIES = -1] the counter
    starts at 0 and the run ends with it above the maximum. *)
Lemma negative_max_counter_above :
  let (o, st) := run_research (sample_env (-1) false None [page_a] "text" keep_all_filter) "q" 5 in
  total_rewritten_queries st = 0%Z /\
  (total_rewritten_queries st >
     MAX_REWRITTEN_QUERIES (sample_env (-1) false None [page_a] "text" keep_all_filter))%Z.
Proof. vm_compute. split; reflexivity. Qed.

(** C10 (confirmed): when the accepted-content list is empty, synthesis
    returns the fixed fallback text and leaves the state untouched, so no
    writer call is made (no [EvWrite], the clock does not move). *)
Theorem empty_content_fallback_no_call env rr st :
  extracted_content st = [] ->
  _generate_final_response env rr st = (Ret NO_CONTENT_RESPONSE, st).
Proof.
  intros H. unfold _generate_final_response, bind, get. simpl. rewrite H. reflexivity.
Qed.

Lemma empty_content_fallback_no_call_witness :
  extracted_content (init_state "q") = [] /\
  _generate_final_response (sample_env 3 false None [] "" keep_all_filter) false
    (init_state "q") = (Ret NO_CONTENT_RESPONSE, init_state "q").
Proof.
  split; [reflexivity|].
  apply (empty_content_fallback_no_call (sample_env 3 false None [] "" keep_all_filter)
           false (init_state "q")).
  reflexivity.
Defined.

(** C6 (corrected): each task asks its collaborator once, with no retry;
    an unparsable rewriter reply is read as plain text and an unparsable
    guardrail reply fails open, neither being fatal. *)
Theorem single_call_parse_fallback llm_r llm_g i :
  snd (rewrite_queries_task llm_r i) = S i /\
  snd (check_query_safety llm_g i) = S i /\
  match llm_r i with
  | LLMReply raw None => fst (rewrite_queries_task llm_r i) = Ok (plain_text_decision raw, false)
  | _ => True
  end /\
  match llm_g i with
  | LLMReply raw None => fst (check_query_safety llm_g i) = (guardrail_fail_open, false)
  | _ => True
  end.
Proof.
  unfold rewrite_queries_task, check_query_safety. simpl.
  split; [reflexivity|]. split; [reflexivity|].
  split; [destruct (llm_r i) as [| |raw [j|]]|destruct (llm_g i) as [| |raw [j|]]]; auto.
Qed.

(** C6 (counterexample): two unparsable replies in a row. The rewriter
    makes one call (the next call index is 1) and returns a decision; the
    guardrail makes one call and accepts the query. *)
Lemma unparsable_replies_no_retry :
  rewrite_queries_task (no_json_reply "not json") 0 =
    (Ok (plain_text_decision "not json", false), 1%nat) /\
  check_query_safety (no_json_reply "not json") 0 = ((guardrail_fail_open, false), 1%nat).
Proof. split; reflexivity. Qed.

(** C7 (code bug): the loop hands [_build_content_summary] the search
    results of [state.searches], which have no [page_type]: the digest
    raises [AttributeError] as soon as one search result has been
    accumulated, and a run whose initial search finds a page ends with that
    exception before any rewriter call. *)
Theorem digest_of_search_results_raises r rs :
  _build_content_summary (map PySearchResult (r :: rs)) = Raise "AttributeError" /\
  let (o, st) := run_research (sample_env 3 false None [page_a] "text" keep_all_filter) "q" 5 in
  o = Throw "AttributeError" /\ ~ In EvRewrite (trace st).
Proof.
  split; [reflexivity|]. vm_compute. split; [reflexivity|].
  intros H. repeat (destruct H as [H|H]; [discriminate|]). exact H.
Qed.

(** In extraction mode, [handle_units] appends only content that passes
    [has_meaningful_content]. *)
Lemma extraction_path_gates env us st :
  USE_EXTRACTION env = true ->
  let (o, st') := handle_units env us st in
  exists added, extracted_content st' = extracted_content st ++ added /\
                Forall (fun c => has_meaningful_content c = true) added.
Proof.
  intros HX. revert st. induction us as [|[r n] us IH]; intros st; simpl.
  - exists []. rewrite app_nil_r. split; [reflexivity | constructor].
  - unfold bind at 1. unfold handle_unit. rewrite HX.
    destruct (extract_unit env n (sr_url r) (sr_title r)) as [| | |[c|]] eqn:X; simpl;
      try (exists []; rewrite app_nil_r; split; [reflexivity | constructor]).
    + specialize (IH st). destruct (handle_units env us st) as [o st'].
      exact IH.
    + specialize (IH st). destruct (handle_units env us st) as [o st'].
      exact IH.
    + specialize (IH st). destruct (handle_units env us st) as [o st'].
      exact IH.
    + destruct (has_meaningful_content c) eqn:G; simpl.
      * specialize (IH (append_content c st)).
        destruct (handle_units env us (append_content c st)) as [o st'].
        destruct IH as [added [E F]]. exists (c :: added). simpl in E.
        rewrite E, <- app_assoc. split; [reflexivity | constructor; auto].
      * specialize (IH st). destruct (handle_units env us st) as [o st'].
        exact IH.
Qed.

(** C4 (code bug): with extraction disabled, a scraped page is appended as
    [OtherContent] without the gate: a ten-character page is accepted. *)
Theorem no_extraction_appends_ungated_page :
  let (o, st) := run_research (sample_env 0 false None [page_a] "short page" keep_all_filter) "q" 5 in
  o = Ret (mkWorkflowResult Complete (Some "answer")
             [OtherContent "title" "https://example.org/a" "short page"] None) /\
  extracted_content st = [OtherContent "title" "https://example.org/a" "short page"] /\
  has_meaningful_content (OtherContent "title" "https://example.org/a" "short page") = false.
Proof. vm_compute. split; [reflexivity|]. split; reflexivity. Qed.

Lemma collect_successes_exact rows st :
  collect_successes rows st =
  (Ret (batch_successes rows),
   mkRState (original_query st) (seen_urls st) (searches st) (extracted_content st)
     (queries_executed st) (total_rewritten_queries st) (clock st)
     (trace st ++ batch_failures rows)).
Proof.
  revert st. induction rows as [|[q [b|e]] rows IH]; intros st; simpl.
  - rewrite app_nil_r. destruct st; reflexivity.
  - unfold bind. rewrite IH. reflexivity.
  - unfold bind, modify. rewrite IH. simpl. rewrite <- app_assoc. reflexivity.
Qed.

Lemma batch_failures_in q e rows :
  In (q, Raise e) rows -> In (EvSearchFailed q) (batch_failures rows).
Proof.
  induction rows as [|[q' [b|e']] rows IH]; simpl; [intros []|..]; intros [H|H].
  - discriminate.
  - auto.
  - inversion H; subst. left. reflexivity.
  - right. auto.
Qed.

Lemma batch_successes_in q b rows :
  In (q, Ok b) rows -> bi_success b = true -> In b (batch_successes rows).
Proof.
  induction rows as [|[q' [b'|e']] rows IH]; simpl; [intros []|..]; intros [H|H] B.
  - inversion H; subst. rewrite B. left. reflexivity.
  - destruct (bi_success b'); [right|]; auto.
  - discriminate.
  - auto.
Qed.

Lemma batch_successes_success rows :
  Forall (fun b => bi_success b = true) (batch_successes rows).
Proof.
  induction rows as [|[q [b|e]] rows IH]; simpl; [constructor| |exact IH].
  destruct (bi_success b) eqn:B; [constructor; auto | exact IH].
Qed.

Lemma update_exact bs st :
  Forall (fun b => bi_success b = true) bs ->
  _update_state_from_batch bs st = (Ret tt, fold_left (fun s b => merge_one b s) bs st).
Proof.
  intros F. unfold _update_state_from_batch, modify. f_equal. revert st.
  induction F as [|b bs B F IH]; intros st; simpl; [reflexivity|]. rewrite B. apply IH.
Qed.

(** C8 (corrected): a failing rewritten query is isolated. [gather] returns
    a row for every query of the batch, in order, and no exception leaves
    the batch; every failed row is reported and every successful row is
    merged into the state. A failure of the initial search on the original
    query, whatever the exception, ends the run with it. *)
Theorem search_failure_isolation :
  (forall env qs mr st,
     exists rows st1,
       gather_batch env qs mr st = (Ret rows, st1) /\
       map fst rows = map qf_query qs /\
       (forall q e, In (q, Raise e) rows -> In (EvSearchFailed q) (batch_failures rows)) /\
       (forall q b, In (q, Ok b) rows -> bi_success b = true ->
                    In b (batch_successes rows)) /\
       collect_successes rows st1 =
         (Ret (batch_successes rows),
          mkRState (original_query st1) (seen_urls st1) (searches st1)
            (extracted_content st1) (queries_executed st1)
            (total_rewritten_queries st1) (clock st1) (trace st1 ++ batch_failures rows)) /\
       (forall s, _update_state_from_batch (batch_successes rows) s =
                  (Ret tt, fold_left (fun s b => merge_one b s) (batch_successes rows) s))) /\
  (forall env query fuel s1 e s2,
     guardrail_phase env (init_state query) = (Ret None, s1) ->
     _search_and_filter env query (MAX_RESULTS_PER_QUERY env) (seen_urls s1) None s1 =
       (Throw e, s2) ->
     run_research env query fuel = (Throw e, s2)).
Proof.
  split.
  - intros env qs mr st.
    destruct (gather_ret env qs mr st) as (rows & st1 & E & M & _).
    exists rows, st1. split; [exact E|]. split; [exact M|].
    split; [intros q e; apply batch_failures_in|].
    split; [intros q b; apply batch_successes_in|].
    split; [apply collect_successes_exact|].
    intros s. apply update_exact, batch_successes_success.
  - intros env query fuel s1 e s2 G S.
    frame_of original_query G. simpl in F.
    unfold run_research, research_workflow, bind at 1. rewrite G.
    rewrite bind_get, F. unfold bind at 1. rewrite S. reflexivity.
Qed.

(** A provider that raises on the query ["bad"] and returns [page_a]
    otherwise. *)
Lemma search_failure_isolation_witness :
  (exists rows st1,
     gather_batch mixed_search_env
       [mkQueryWithFilter "bad" None None; mkQueryWithFilter "good" None None] 10%Z
       (init_state "q") = (Ret rows, st1) /\
     map fst rows = ["bad"; "good"]) /\
  guardrail_phase failing_search_env (init_state "q") = (Ret None, init_state "q") /\
  _search_and_filter failing_search_env "q" (MAX_RESULTS_PER_QUERY failing_search_env)
    (seen_urls (init_state "q")) None (init_state "q") =
    (Throw "SearchError", mkRState "q" [] [] [] [] 0 1 [EvSearch "q"]) /\
  run_research failing_search_env "q" 5 =
    (Throw "SearchError", mkRState "q" [] [] [] [] 0 1 [EvSearch "q"]).
Proof.
  split.
  - destruct (proj1 search_failure_isolation mixed_search_env
                [mkQueryWithFilter "bad" None None; mkQueryWithFilter "good" None None] 10%Z
                (init_state "q")) as (rows & st1 & E & M & _).
    exists rows, st1. split; [exact E | exact M].
  - split; [reflexivity|]. split; [reflexivity|].
    apply (proj2 search_failure_isolation failing_search_env "q" 5%nat (init_state "q")
             "SearchError" (mkRState "q" [] [] [] [] 0 1 [EvSearch "q"]));
      reflexivity.
Defined.

(** C8 (counterexample): the provider raises on the original query; the
    run ends with the exception after its single search call. *)
Lemma initial_search_failure_ends_run :
  run_research failing_search_env "q" 5 =
    (Throw "SearchError",
     mkRState "q" [] [] [] [] 0 1 [EvSearch "q"]).
Proof. vm_compute. reflexivity. Qed.

(** ** Stop observations *)

#[export] Instance R_impl_preorder (P : RState -> Prop) : PreOrder (R_impl P).
Proof. split; [intros s H; exact H | intros a b c H1 H2 Ha; auto]. Qed.

Lemma stop_now_mono env s s' :
  (clock s <= clock s')%nat -> stop_now env s = true -> stop_now env s' = true.
Proof.
  unfold stop_now. destruct (stop_at env) as [n|]; [|auto].
  rewrite !Nat.leb_le. lia.
Qed.

Lemma mono_step env s s' ext :
  (clock s <= clock s')%nat -> trace s' = trace s ++ ext -> Forall not_stop ext ->
  R_impl (Mono env) s s'.
Proof.
  intros C T F M Hin. rewrite T in Hin. apply in_app_or in Hin as [Hin|Hin].
  - apply (stop_now_mono env s s' C), M, Hin.
  - rewrite Forall_forall in F. destruct (F _ Hin). reflexivity.
Qed.

Lemma nostop_step s s' ext :
  trace s' = trace s ++ ext -> Forall not_stop ext -> R_impl NoStop s s'.
Proof.
  intros T F N Hin. rewrite T in Hin. apply in_app_or in Hin as [Hin|Hin]; [exact (N Hin)|].
  rewrite Forall_forall in F. destruct (F _ Hin). reflexivity.
Qed.

Lemma wf_app tr ext : WF tr -> Forall okw ext -> WF (tr ++ ext).
Proof.
  intros [pre [post [E [N F]]]] F'. exists pre, (post ++ ext).
  rewrite E, app_assoc. split; [reflexivity|]. split; [exact N|]. apply Forall_app; auto.
Qed.

Lemma nostop_wf st : NoStop st -> WF (trace st).
Proof.
  intros N. exists (trace st), []. rewrite app_nil_r. split; [reflexivity|].
  split; [exact N | constructor].
Qed.

Section StopFacts.
Variable env : Env.

Lemma call_mono e : e <> EvStopSeen -> preserves (R_impl (Mono env)) (call e).
Proof.
  intros He st. apply (mono_step env st _ [e]); [simpl; lia | reflexivity |].
  constructor; [exact He | constructor].
Qed.

Lemma call_nostop e : e <> EvStopSeen -> preserves (R_impl NoStop) (call e).
Proof. intros He st. apply (nostop_step st _ [e]); [reflexivity|]. constructor; [exact He | constructor]. Qed.

Lemma call_wf e : okw e -> preserves (R_impl WFt) (call e).
Proof. intros He st W. apply (wf_app _ [e] W). constructor; [exact He | constructor]. Qed.

Lemma call_clock' e : preserves R_clock (call e).
Proof. apply call_clock. Qed.

Lemma check_stop_mono : preserves (R_impl (Mono env)) (check_stop env).
Proof.
  intros st M. rewrite check_stop_spec. simpl.
  destruct (stop_now env st) eqn:S; [|exact M].
  intros _. exact S.
Qed.

Lemma check_stop_wf : preserves (R_impl WFt) (check_stop env).
Proof.
  intros st W. rewrite check_stop_spec. simpl. destruct (stop_now env st); [|exact W].
  apply (wf_app _ [EvStopSeen] W). repeat constructor.
Qed.

Lemma check_stop_clock' : preserves R_clock (check_stop env).
Proof. intros st. rewrite check_stop_spec. unfold R_clock. destruct (stop_now env st); simpl; lia. Qed.

Lemma emit_mono e : e <> EvStopSeen -> forall st, R_impl (Mono env) st (emit e st).
Proof. intros He st. apply (mono_step env st _ [e]); [simpl; lia | reflexivity | constructor; [exact He | constructor]]. Qed.

Lemma emit_nostop e : e <> EvStopSeen -> forall st, R_impl NoStop st (emit e st).
Proof. intros He st. apply (nostop_step st _ [e]); [reflexivity | constructor; [exact He | constructor]]. Qed.

Lemma emit_wf e : okw e -> forall st, R_impl WFt st (emit e st).
Proof. intros He st W. apply (wf_app _ [e] W). constructor; [exact He | constructor]. Qed.

Lemma emit_clock' e : forall st, R_clock st (emit e st).
Proof. intros st. unfold R_clock. simpl. lia. Qed.

Lemma quiet_mono (f : RState -> RState) :
  (forall st, clock (f st) = clock st /\ trace (f st) = trace st) ->
  forall st, R_impl (Mono env) st (f st).
Proof.
  intros Hf st. destruct (Hf st) as [C T].
  apply (mono_step env st _ []); [lia | rewrite T, app_nil_r; reflexivity | constructor].
Qed.

Lemma quiet_nostop (f : RState -> RState) :
  (forall st, trace (f st) = trace st) -> forall st, R_impl NoStop st (f st).
Proof. intros Hf st N. unfold NoStop. rewrite Hf. exact N. Qed.

Lemma quiet_wf (f : RState -> RState) :
  (forall st, trace (f st) = trace st) -> forall st, R_impl WFt st (f st).
Proof. intros Hf st W. unfold WFt. rewrite Hf. exact W. Qed.

Lemma quiet_clock (f : RState -> RState) :
  (forall st, clock (f st) = clock st) -> forall st, R_clock st (f st).
Proof. intros Hf st. unfold R_clock. rewrite Hf. lia. Qed.

Lemma merge_mono b : forall st, R_impl (Mono env) st (merge_one b st).
Proof.
  intros st. apply (mono_step env st _ [EvCounter (total_rewritten_queries st + 1)]);
    [simpl; lia | reflexivity | repeat constructor; discriminate].
Qed.

Lemma merge_nostop b : forall st, R_impl NoStop st (merge_one b st).
Proof.
  intros st. apply (nostop_step st _ [EvCounter (total_rewritten_queries st + 1)]);
    [reflexivity | repeat constructor; discriminate].
Qed.

Lemma merge_wf b : forall st, R_impl WFt st (merge_one b st).
Proof.
  intros st W. apply (wf_app _ [EvCounter (total_rewritten_queries st + 1)] W).
  constructor; [left; reflexivity | constructor].
Qed.

Lemma merge_clock b : forall st, R_clock st (merge_one b st).
Proof. intros st. unfold R_clock. simpl. lia. Qed.
End StopFacts.

Ltac prim_solve :=
  first
    [ apply call_mono; discriminate | apply call_nostop; discriminate
    | apply call_wf; first [left; reflexivity | right; reflexivity]
    | apply call_clock' | apply check_stop_mono | apply check_stop_wf
    | apply check_stop_clock'
    | apply emit_mono; discriminate | apply emit_nostop; discriminate
    | apply emit_wf; left; reflexivity | apply emit_clock'
    | apply merge_mono | apply merge_nostop | apply merge_wf | apply merge_clock
    | apply quiet_mono; intros; split; reflexivity
    | apply quiet_nostop; intros; reflexivity
    | apply quiet_wf; intros; reflexivity
    | apply quiet_clock; intros; reflexivity
    | intro; prim_solve ].

Ltac comp_pres :=
  pres; first [ eapply gather_pres
              | eapply collect_successes_pres | eapply scrape_pres
              | eapply rewriter_call_pres | eapply search_and_filter_pres
              | eapply final_response_pres | eapply guardrail_pres
              | eapply launch_units_pres | eapply handle_units_pres
              | eapply update_pres | idtac ];
  try typeclasses eauto; prim_solve.

(** Add what a step [E : m s = (o, s')] keeps: the clock does not go back,
    the stop-flag discipline, and, when [m] allows it, the absence of stop
    observations or the shape of the trace. *)
Ltac facts env E :=
  match type of E with
  | ?m ?s = (_, ?s') =>
      let C := fresh "C" in let M := fresh "M" in
      assert (C : R_clock s s') by exact (pres_at R_clock m s _ s' ltac:(comp_pres) E);
      assert (M : R_impl (Mono env) s s')
        by exact (pres_at (R_impl (Mono env)) m s _ s' ltac:(comp_pres) E);
      try (let N := fresh "N" in
           assert (N : R_impl NoStop s s')
             by exact (pres_at (R_impl NoStop) m s _ s' ltac:(comp_pres) E));
      try (let W := fresh "W" in
           assert (W : R_impl WFt s s')
             by exact (pres_at (R_impl WFt) m s _ s' ltac:(comp_pres) E));
      unfold R_clock, R_impl in C, M |- *
  end.

Lemma check_stop_false env s s' :
  check_stop env s = (Ret false, s') -> s' = s /\ stop_now env s = false.
Proof.
  rewrite check_stop_spec. destruct (stop_now env s); intros E; inversion E; auto.
Qed.

Lemma mono_nostop env s : stop_now env s = false -> Mono env s -> NoStop s.
Proof. intros S M Hin. rewrite (M Hin) in S. discriminate. Qed.

Lemma nostop_wft st : NoStop st -> WFt st.
Proof. apply nostop_wf. Qed.

Lemma collect_successes_returns rows : returns (collect_successes rows).
Proof. intros st o st' E. rewrite collect_successes_exact in E. inversion E; eauto. Qed.

Lemma update_returns bs : returns (_update_state_from_batch bs).
Proof. intros st o st' E. inversion E; eauto. Qed.

Lemma rewriter_call_returns env : returns (rewriter_call env).
Proof.
  intros st o st' E. unfold rewriter_call in E.
  destruct (rewrite_queries_task _ _) as [r n]. inversion E; eauto.
Qed.

Lemma check_stop_returns env : returns (check_stop env).
Proof. intros st o st' E. rewrite check_stop_spec in E. inversion E; eauto. Qed.

Ltac no_fail :=
  match goal with
  | E : ?m ?s = (Throw _, _) |- _ =>
      let H := fresh in
      first [ pose proof (gather_returns _ _ _ _ _ _ E) as H
            | pose proof (collect_successes_returns _ _ _ _ E) as H
            | pose proof (update_returns _ _ _ _ E) as H
            | pose proof (rewriter_call_returns _ _ _ _ E) as H
            | pose proof (check_stop_returns _ _ _ _ E) as H ];
      destruct H as [? H]; discriminate H
  | E : ?m ?s = (NoFuel, _) |- _ =>
      let H := fresh in
      first [ pose proof (gather_returns _ _ _ _ _ _ E) as H
            | pose proof (collect_successes_returns _ _ _ _ E) as H
            | pose proof (update_returns _ _ _ _ E) as H
            | pose proof (rewriter_call_returns _ _ _ _ E) as H
            | pose proof (check_stop_returns _ _ _ _ E) as H ];
      destruct H as [? H]; discriminate H
  end.

(** The scrape step of a rewrite iteration, guarded by its stop check. *)
Lemma scrape_block env l s o s' :
  (match l with
   | [] => ret tt
   | _ => s3 <- check_stop env ;;
          if s3 then ret tt else _scrape_and_extract_results env l
   end) s = (o, s') ->
  (Mono env s -> WFt s -> WFt s') /\
  match o with Ret _ => True | _ => Mono env s -> NoStop s' end.
Proof.
  destruct l as [|r l]; intros E.
  - inversion E; subst. split; auto.
  - unfold bind in E. rewrite check_stop_spec in E.
    destruct (stop_now env s) eqn:S.
    + inversion E; subst. split; [|exact I]. intros _ W.
      pose proof (pres_at (R_impl WFt) (check_stop env) s _ _ (check_stop_wf env)
                    (check_stop_spec env s) W) as W'.
      rewrite S in W'. exact W'.
    + assert (Hn : forall o' s'', _scrape_and_extract_results env (r :: l) s = (o', s'') ->
                   Mono env s -> NoStop s'').
      { intros o' s'' E' M.
        apply (pres_at (R_impl NoStop) (_scrape_and_extract_results env (r :: l)) s _ s''
                 ltac:(comp_pres) E').
        exact (mono_nostop env s S M). }
      pose proof (Hn _ _ E) as Hn'. split.
      * intros M _. apply nostop_wft, Hn', M.
      * destruct o; auto.
Qed.

Ltac stop_leaf env :=
  try no_fail;
  repeat match goal with
         | E : check_stop _ ?s = (Ret false, _) |- _ =>
             apply check_stop_false in E as [? ?]; subst
         end;
  try match goal with
      | E : (match ?l with [] => ret tt | _ => _ end) ?s = (_, ?s') |- _ =>
          pose proof (scrape_block _ _ _ _ _ E) as [? ?]
      end;
  repeat match goal with E : ?m ?s = (_, ?s') |- _ => facts env E; clear E end;
  unfold R_impl in *;
  repeat match goal with
         | s : RState |- _ =>
             lazymatch goal with
             | _ : NoStop s -> WFt s |- _ => fail
             | _ => pose proof (nostop_wft s)
             end
         end;
  repeat match goal with
         | S : stop_now env ?s = false |- _ =>
             pose proof (mono_nostop env s S); clear S
         end.

Lemma loop_stop_discipline env fuel rr st :
  NoStop st -> Mono env st ->
  let (o, st') := _iterative_query_rewriting env fuel rr st in
  WFt st' /\ Mono env st' /\ (clock st <= clock st')%nat /\
  match o with Ret _ => True | _ => NoStop st' end.
Proof.
  revert rr st. induction fuel as [|fuel IH]; intros rr st N0 M0.
  - simpl. split; [apply nostop_wft, N0|]. split; [exact M0|]. split; [lia | exact N0].
  - cbn [_iterative_query_rewriting]. wp; stop_leaf env.
    all: try match goal with
           |- let (_, _) := _iterative_query_rewriting ?e ?f ?r ?s in _ =>
             let I := fresh "I" in
             assert (I : NoStop s /\ Mono e s) by tauto;
             specialize (IH r s (proj1 I) (proj2 I));
             destruct (_iterative_query_rewriting e f r s) as [o' s'];
             destruct IH as [? [? [? ?]]]; split; [|split; [|split]]; auto; lia
           end.
    all: cbn iota; repeat split; first [lia | tauto].
Qed.

Lemma guardrail_stop_facts env st o s :
  guardrail_phase env st = (o, s) -> NoStop st -> Mono env st ->
  WFt s /\ Mono env s /\ extracted_content s = extracted_content st /\
  match o with
  | Ret None => NoStop s
  | Ret (Some res) => In EvStopSeen (trace s) -> status res = Stopped /\ sources res = []
  | _ => False
  end.
Proof.
  intros E N M.
  assert (Ga : NoStop (advance (S (clock st)) EvGuardrail st)).
  { exact (pres_at (R_impl NoStop) (call EvGuardrail) st _ _
             (call_nostop EvGuardrail ltac:(discriminate)) eq_refl N). }
  assert (Gm : Mono env (advance (S (clock st)) EvGuardrail st)).
  { exact (pres_at (R_impl (Mono env)) (call EvGuardrail) st _ _
             (call_mono env EvGuardrail ltac:(discriminate)) eq_refl M). }
  set (a := advance (S (clock st)) EvGuardrail st) in *.
  assert (Sw : WFt (emit EvStopSeen a)).
  { apply (wf_app _ [EvStopSeen]); [apply nostop_wf, Ga | repeat constructor]. }
  assert (Sm : stop_now env a = true -> Mono env (emit EvStopSeen a)).
  { intros S _. exact S. }
  unfold guardrail_phase in E. destruct (USE_GUARDRAILS env).
  2: { inversion E; subst. split; [apply nostop_wf, N|]. auto. }
  unfold bind, get, modify, check_query_safety, check_stop in E. simpl in E. fold a in E.
  repeat (match type of E with
          | context [match ?x with _ => _ end] =>
              lazymatch x with
              | context [match _ with _ => _ end] => fail
              | _ => destruct x eqn:?
              end
          end; simpl in E);
    inversion E; subst; clear E;
    repeat split; auto; try (apply nostop_wf; exact Ga);
    try (intros Hin; exfalso; exact (Ga Hin));
    try (exfalso; match goal with H : In EvStopSeen _ |- _ => exact (Ga H) end).
Qed.

Lemma final_response_throws env rr s e s' :
  _generate_final_response env rr s = (Throw e, s') -> e = "LLMError" /\ In EvWrite (trace s').
Proof.
  unfold _generate_final_response, bind, get, call, ret, throw. simpl.
  destruct (extracted_content s); [discriminate|].
  destruct (writer_llm env (clock s)); intros E; inversion E; subst.
  split; [reflexivity|]. simpl. apply in_or_app. right. left. reflexivity.
Qed.

Lemma final_response_returns_or_throws env rr s o s' :
  _generate_final_response env rr s = (o, s') -> o <> NoFuel.
Proof.
  unfold _generate_final_response, bind, get, call, ret, throw. simpl.
  destruct (extracted_content s); [intros E; inversion E; discriminate|].
  destruct (writer_llm env (clock s)); intros E; inversion E; discriminate.
Qed.

(** C3 (corrected): over a whole run, the trace splits into a prefix with no
    stop observation and a suffix in which the only work is the writer call
    (no search, filter, fetch or rewrite after the first observation).
    If the stop flag was observed, the run either returns [Stopped] with the
    accepted content as sources, or raises [LLMError] from a writer call made
    after the observation. *)
Theorem stop_observation_discipline env query fuel :
  let (o, st) := run_research env query fuel in
  WF (trace st) /\
  (In EvStopSeen (trace st) ->
     (exists r, o = Ret r /\ status r = Stopped /\ sources r = extracted_content st) \/
     (o = Throw "LLMError" /\ In EvWrite (trace st))).
Proof.
  unfold run_research, research_workflow.
  assert (N0 : NoStop (init_state query)) by (intros []).
  assert (M0 : Mono env (init_state query)) by (intros []).
  assert (X0 : extracted_content (init_state query) = []) by reflexivity.
  revert N0 M0 X0. generalize (init_state query) as s0. intros s0 N0 M0 X0.
  apply bind_wp.
  2: { intros e s1 E. destruct (guardrail_stop_facts env s0 _ s1 E N0 M0) as [_ [_ [_ []]]]. }
  2: { intros s1 E. destruct (guardrail_stop_facts env s0 _ s1 E N0 M0) as [_ [_ [_ []]]]. }
  intros g s1 E1.
  destruct (guardrail_stop_facts env s0 _ s1 E1 N0 M0) as [W1 [M1 [X1 G1]]].
  destruct g as [res|].
  { cbn [ret]. split; [exact W1|]. intros Hin. left. exists res.
    destruct (G1 Hin) as [S1 S2]. rewrite S2, X1, X0. auto. }
  wp.
  all: repeat match goal with
       | E : check_stop _ _ = (Ret _, _) |- _ =>
           rewrite check_stop_spec in E;
           let S := fresh "S" in destruct (stop_now _ _) eqn:S; inversion E; subst; clear E
       | E : check_stop _ _ = (_, _) |- _ =>
           rewrite check_stop_spec in E; destruct (stop_now _ _); discriminate
       | E : modify _ _ = _ |- _ => unfold modify in E; inversion E; subst; clear E
       end.
  all: try match goal with E : _iterative_query_rewriting _ _ _ ?s = _ |- _ =>
         pose proof (loop_stop_discipline env fuel false s) as L;
         rewrite E in L; cbv iota in L; clear E end.
  all: try match goal with E : _search_and_filter _ _ _ _ _ ?s = _ |- _ =>
         frame_of extracted_content E end.
  all: try match goal with E : _generate_final_response _ _ _ = (Throw _, _) |- _ =>
         pose proof (final_response_throws _ _ _ _ _ E) as [? ?]; subst end.
  all: try match goal with E : _generate_final_response _ _ _ = (NoFuel, _) |- _ =>
         destruct (final_response_returns_or_throws _ _ _ _ _ E eq_refl) end.
  all: repeat match goal with E : ?m ?s = (_, ?s') |- _ => facts env E; clear E end.
  all: unfold R_impl in *.
  all: repeat match goal with H : ?P -> ?Q, H' : ?P |- _ => specialize (H H') end.
  all: repeat match goal with L : _ /\ _ |- _ => destruct L end.
  all: repeat match goal with H : ?P -> ?Q, H' : ?P |- _ => specialize (H H') end.
  all: try (split; [apply nostop_wf; assumption | intros Hin; exfalso; auto]).
  all: cbn [emit set_initial trace extracted_content] in *.
  all: try (split; [assumption | intros _; right; split; [reflexivity | assumption]]).
  all: try (split; [assumption | intros Hin; exfalso;
         match goal with Sx : stop_now ?ev ?x = false, Mx : Mono ?ev ?x |- _ =>
           rewrite (Mx Hin) in Sx; discriminate end]).
  all: split; [apply wf_app; [first [apply nostop_wf; assumption | assumption]
                             | constructor; [left; reflexivity | constructor]]
              | intros _; left; eexists; split; [reflexivity|]; split; [reflexivity|];
                try rewrite F, X1, X0; reflexivity].
Qed.

(** C3 counterexample: the stop flag is set after four calls. It is observed
    at the start of the first rewrite iteration ([EvStopSeen]), yet the
    writer is called afterwards ([EvWrite]): synthesis is started after the
    observation, and the run returns [Stopped] with the writer's answer. *)
Lemma stop_seen_then_synthesis_runs :
  run_research (sample_env 3 false (Some 4%nat) [page_a; page_b] "text" keep_all_filter) "q" 5
  = (Ret (mkWorkflowResult Stopped (Some "answer")
            [OtherContent "title" "https://example.org/a" "text";
             OtherContent "title" "https://example.org/b" "text"] None),
     mkRState "q" ["https://example.org/a"; "https://example.org/b"] [page_a; page_b]
       [OtherContent "title" "https://example.org/a" "text";
        OtherContent "title" "https://example.org/b" "text"]
       ["q"] 0 5
       [EvSearch "q"; EvFilter "q"; EvFetch "https://example.org/a";
        EvFetch "https://example.org/b"; EvStopSeen; EvWrite; EvStopSeen]).
Proof. vm_compute. reflexivity. Qed.

(** ** No URL fetched twice *)

Lemma existsb_eqb_false u l : existsb (String.eqb u) l = false -> ~ In u l.
Proof.
  intros H Hin. assert (existsb (String.eqb u) l = true) as H'.
  { apply existsb_exists. exists u. split; [exact Hin | apply String.eqb_refl]. }
  congruence.
Qed.

Lemma dedup_loop_spec rs seen mr nr nu :
  NoDup (map sr_url nr) -> (forall u, In u (map sr_url nr) -> In u seen) ->
  NoDup (map sr_url (fst (dedup_loop rs seen mr nr nu))) /\
  forall u, In u (map sr_url (fst (dedup_loop rs seen mr nr nu))) ->
    In u (map sr_url nr) \/ ~ In u seen.
Proof.
  revert seen nr nu. induction rs as [|r rs IH]; intros seen nr nu N S; simpl.
  - split; auto.
  - destruct (existsb (String.eqb (sr_url r)) seen) eqn:X; simpl.
    + apply IH; auto.
    + apply existsb_eqb_false in X.
      destruct (Z.of_nat (List.length nr) <? mr)%Z; simpl; [|apply IH; auto].
      destruct (IH (sr_url r :: seen) (nr ++ [r]) (nu ++ [sr_url r])) as [N' S'].
      * rewrite map_app. apply NoDup_app; [exact N | repeat constructor; intros [] |].
        intros u Hu [<-|[]]. apply X, S, Hu.
      * intros u Hu. rewrite map_app in Hu. apply in_app_or in Hu as [Hu|[<-|[]]];
          [right; apply S, Hu | left; reflexivity].
      * split; [exact N'|]. intros u Hu. destruct (S' u Hu) as [H|H].
        -- rewrite map_app in H. apply in_app_or in H as [H|[<-|[]]]; [left; exact H|].
           right. exact X.
        -- right. intros H'. apply H. right. exact H'.
Qed.

Lemma dedup_spec rs snap mr :
  NoDup (map sr_url (fst (_deduplicate_search_results rs snap mr))) /\
  forall u, In u (map sr_url (fst (_deduplicate_search_results rs snap mr))) -> ~ In u snap.
Proof.
  unfold _deduplicate_search_results.
  destruct (dedup_loop_spec rs snap mr [] []) as [N S]; [constructor | intros _ []|].
  split; [exact N|]. intros u Hu. destruct (S u Hu) as [[]|H]. exact H.
Qed.

Lemma py_slice_upto_firstn {B} (l : list B) n : exists k, py_slice_upto l n = firstn k l.
Proof. unfold py_slice_upto. destruct (0 <=? n)%Z; eexists; reflexivity. Qed.

Lemma nodup_incl_firstn {B} (f : B -> string) k (l : list B) :
  NoDup (map f l) -> NoDup (map f (firstn k l)) /\ incl (map f (firstn k l)) (map f l).
Proof.
  intros N. rewrite <- (firstn_skipn k l) in N. rewrite map_app in N.
  split; [exact (NoDup_app_remove_r _ _ N)|].
  intros u Hu. rewrite <- (firstn_skipn k l), map_app. apply in_or_app. left. exact Hu.
Qed.

Lemma nodup_incl_filter {B} (f : B -> string) p (l : list B) :
  NoDup (map f l) -> NoDup (map f (filter p l)) /\ incl (map f (filter p l)) (map f l).
Proof.
  induction l as [|x l IH]; intros N; simpl; [split; [constructor | intros u []]|].
  inversion N as [|? ? Nx Nl]; subst. destruct (IH Nl) as [N' I'].
  destruct (p x); simpl.
  - split; [constructor; [intros Hx; apply Nx, I', Hx | exact N']|].
    intros u [<-|Hu]; [left; reflexivity | right; apply I', Hu].
  - split; [exact N'|]. intros u Hu. right. apply I', Hu.
Qed.

Lemma filter_urls_ok srt K q results llm out c :
  (forall clean raw items fs, llm clean = LLMReply raw (Some items) ->
     all_items items = Some fs -> NoDup (map sr_url clean) ->
     NoDup (map fr_url fs) /\ incl (map fr_url fs) (map sr_url clean)) ->
  NoDup (map sr_url results) ->
  filter_search_results_by_titles srt K q results llm = Ok (out, c) ->
  NoDup (map fr_url (relevant_results out)) /\
  incl (map fr_url (relevant_results out)) (map sr_url results).
Proof.
  intros HL N E. unfold filter_search_results_by_titles in E.
  destruct (nodup_incl_filter sr_url (fun r => negb (is_ad_or_tracking_url (sr_url r)))
              results N) as [Nc Ic].
  set (clean := filter _ results) in *.
  destruct clean as [|r0 rs0] eqn:Hc.
  { inversion E; subst. simpl. split; [constructor | intros u []]. }
  rewrite <- Hc in *.
  destruct (llm clean) as [| |raw parsed] eqn:L; try discriminate.
  { inversion E; subst. simpl. split; [constructor | intros u []]. }
  destruct (match parsed with Some l => all_items l | None => None end) as [fs|] eqn:P.
  - destruct parsed as [items|]; [|discriminate].
    destruct (HL _ _ _ _ L P Nc) as [Nf If].
    inversion E; subst. simpl.
    destruct (py_slice_upto_firstn (sorted_by_score_desc srt fs) K) as [k ->].
    pose proof (sorted_by_score_perm srt fs) as Pm.
    apply (Permutation_map fr_url) in Pm.
    destruct (nodup_incl_firstn fr_url k (sorted_by_score_desc srt fs)) as [N1 I1].
    { eapply Permutation_NoDup; [symmetry; exact Pm | exact Nf]. }
    split; [exact N1|]. intros u Hu. apply Ic, If.
    eapply Permutation_in; [exact Pm | apply I1, Hu].
  - inversion E; subst. simpl.
    set (fb := map _ clean).
    assert (Mf : map fr_url fb = map sr_url clean).
    { unfold fb. rewrite map_map. reflexivity. }
    destruct (py_slice_upto_firstn fb K) as [k ->].
    destruct (nodup_incl_firstn fr_url k fb) as [N1 I1]; [rewrite Mf; exact Nc|].
    split; [exact N1|]. intros u Hu. apply Ic. rewrite <- Mf. apply I1, Hu.
Qed.

Lemma map_to_search_result_url l : map sr_url (map to_search_result l) = map fr_url l.
Proof. rewrite map_map. reflexivity. Qed.

Lemma search_step_urls env q mr snap tf s nr s' :
  search_step env q mr snap tf s = (Ret nr, s') ->
  NoDup (map sr_url nr) /\ (forall u, In u (map sr_url nr) -> ~ In u snap).
Proof.
  intros E. unfold search_step, bind, call in E. cbn beta iota in E.
  destruct (search_provider _ _ _ _) as [srs|]; [|discriminate].
  destruct (dedup_spec srs snap mr) as [Nd Sd].
  destruct (_deduplicate_search_results srs snap mr) as [nr' nu]. simpl in Nd, Sd.
  inversion E; subst. auto.
Qed.

Lemma filter_step_urls env q nr s res urls s' :
  FilterSelects env -> NoDup (map sr_url nr) ->
  filter_step env q nr s = (Ret (res, urls), s') ->
  urls = map sr_url res /\ NoDup urls /\ incl urls (map sr_url nr).
Proof.
  intros HF N E. unfold filter_step, bind, get, call in E. cbn beta iota in E.
  match type of E with
  | context [match ?x with Ok _ => _ | Raise _ => _ end] =>
      destruct x as [[out c]|e] eqn:F; [|discriminate]
  end.
  inversion E; subst.
  eapply filter_urls_ok in F as [N1 I1]; [| |exact N].
  2: { intros clean raw items fs L. unfold with_cancel in L.
       destruct (stop_now _ _); [discriminate|]. exact (HF _ _ _ _ _ L). }
  rewrite map_to_search_result_url. auto.
Qed.

Lemma search_and_filter_urls env q mr snap tf s res urls s' :
  FilterSelects env ->
  _search_and_filter env q mr snap tf s = (Ret (res, urls), s') ->
  urls = map sr_url res /\ NoDup urls /\ (forall u, In u urls -> ~ In u snap).
Proof.
  intros HF E. unfold _search_and_filter, bind at 1 in E.
  destruct (search_step env q mr snap tf s) as [[nr|e|] s1] eqn:E1; try discriminate.
  destruct (search_step_urls _ _ _ _ _ _ _ _ E1) as [Nd Sd].
  destruct nr as [|r0 rs0].
  { inversion E; subst. split; [reflexivity|]. split; [constructor | intros u []]. }
  destruct (filter_step_urls _ _ _ _ _ _ _ HF Nd E) as [U [N I]].
  split; [exact U|]. split; [exact N|]. intros u Hu. apply Sd, I, Hu.
Qed.

Lemma step_task_seen env mr t s t' s' :
  step_task env mr t s = (Ret t', s') -> seen_urls s' = seen_urls s.
Proof.
  intros E.
  exact (pres_at (R_frame seen_urls) _ s _ s'
           ltac:(eapply step_task_pres; try typeclasses eauto; intros; base_frame) E).
Qed.

Lemma finish_query_ok env snap q p s t' s' :
  task_ok snap (QAwait q (Ok p)) -> finish_query env q p s = (Ret t', s') ->
  task_ok snap t'.
Proof.
  destruct p as [res urls]. intros H E.
  unfold finish_query, bind, check_stop_query in E. cbn beta iota in E.
  destruct (stop_now env s); inversion E; subst; simpl; intros Sb;
    [discriminate | exact H].
Qed.

Lemma step_task_ok env mr snap t s t' s' :
  FilterSelects env -> seen_urls s = snap -> task_ok snap t ->
  step_task env mr t s = (Ret t', s') -> task_ok snap t' /\ seen_urls s' = snap.
Proof.
  intros HF Hs Ht E. split; [| rewrite (step_task_seen _ _ _ _ _ _ E); exact Hs].
  subst snap. destruct t as [qf|q [p|e]|q r]; cbn [step_task] in E.
  - rewrite bind_get in E. unfold bind at 1, try_m at 1 in E.
    destruct (search_step env (qf_query qf) mr (seen_urls s) (qf_time_filter qf) s)
      as [[nr|e|] s1] eqn:E1; try discriminate.
    + destruct (search_step_urls _ _ _ _ _ _ _ _ E1) as [Nd Sd].
      destruct nr as [|r0 rs0].
      * eapply finish_query_ok; [|exact E].
        simpl. split; [reflexivity|]. split; [constructor | intros u []].
      * unfold bind, try_m in E.
        destruct (filter_step env (qf_query qf) (r0 :: rs0) s1)
          as [[[res urls]|e|] s2] eqn:E2; inversion E; subst; simpl; [|exact I].
        destruct (filter_step_urls _ _ _ _ _ _ _ HF Nd E2) as [U [N I]].
        split; [exact U|]. split; [exact N|]. intros u Hu. apply Sd, I, Hu.
    + inversion E; subst. exact I.
  - eapply finish_query_ok; [exact Ht | exact E].
  - inversion E; subst. exact I.
  - inversion E; subst. exact Ht.
Qed.

Lemma step_nth_ok env mr snap i ts s ts' s' :
  FilterSelects env -> seen_urls s = snap -> Forall (task_ok snap) ts ->
  step_nth env mr i ts s = (Ret ts', s') ->
  Forall (task_ok snap) ts' /\ seen_urls s' = snap.
Proof.
  intros HF. revert i s ts' s'. induction ts as [|t ts IH]; intros i s ts' s' Hs F E.
  - destruct i; inversion E; subst; auto.
  - inversion F as [|? ? Ft Fs]; subst.
    destruct i as [|i]; cbn [step_nth] in E; unfold bind in E.
    + destruct (step_task env mr t s) as [[t1|e|] s1] eqn:E1; try discriminate.
      destruct (step_task_ok _ _ _ _ _ _ _ HF eq_refl Ft E1) as [O1 S1].
      inversion E; subst. auto.
    + destruct (step_nth env mr i ts s) as [[ts1|e|] s1] eqn:E1; try discriminate.
      destruct (IH _ _ _ _ eq_refl Fs E1) as [O1 S1]. inversion E; subst. auto.
Qed.

Lemma run_schedule_ok env mr snap sched ts s ts' s' :
  FilterSelects env -> seen_urls s = snap -> Forall (task_ok snap) ts ->
  run_schedule env mr sched ts s = (Ret ts', s') ->
  Forall (task_ok snap) ts' /\ seen_urls s' = snap.
Proof.
  intros HF. revert ts s. induction sched as [|i sched IH]; intros ts s Hs F E.
  - inversion E; subst. auto.
  - cbn [run_schedule] in E. unfold bind in E.
    destruct (step_nth env mr i ts s) as [[ts1|e|] s1] eqn:E1; try discriminate.
    destruct (step_nth_ok _ _ _ _ _ _ _ _ HF Hs F E1) as [O1 S1]. eauto.
Qed.

Lemma step_all_ok env mr snap ts s ts' s' :
  FilterSelects env -> seen_urls s = snap -> Forall (task_ok snap) ts ->
  step_all env mr ts s = (Ret ts', s') ->
  Forall (task_ok snap) ts' /\ seen_urls s' = snap.
Proof.
  intros HF. revert s ts' s'. induction ts as [|t ts IH]; intros s ts' s' Hs F E.
  - inversion E; subst. auto.
  - inversion F as [|? ? Ft Fs]; subst. cbn [step_all] in E. unfold bind in E.
    destruct (step_task env mr t s) as [[t1|e|] s1] eqn:E1; try discriminate.
    destruct (step_task_ok _ _ _ _ _ _ _ HF eq_refl Ft E1) as [O1 S1].
    destruct (step_all env mr ts s1) as [[ts2|e|] s2] eqn:E2; try discriminate.
    destruct (IH _ _ _ S1 Fs E2) as [O2 S2]. inversion E; subst. auto.
Qed.

(** Every successful row of a batch holds distinct new URLs of its results,
    none of them seen when the batch started. *)
Lemma gather_ok env qs mr s rows s' :
  FilterSelects env -> gather_batch env qs mr s = (Ret rows, s') ->
  Forall (fun row => match snd row with Ok b => item_ok (seen_urls s) b | Raise _ => True end)
    rows.
Proof.
  intros HF E. unfold gather_batch in E. rewrite bind_get in E. unfold bind in E.
  destruct (run_schedule env mr (gather_schedule env (clock s)) (map QStart qs) s)
    as [[ts1|e|] s1] eqn:E1; try discriminate.
  assert (F0 : Forall (task_ok (seen_urls s)) (map QStart qs)).
  { apply Forall_forall. intros t Ht. apply in_map_iff in Ht as [qf [<- _]]. exact I. }
  destruct (run_schedule_ok _ _ _ _ _ _ _ _ HF eq_refl F0 E1) as [O1 S1].
  destruct (step_all env mr ts1 s1) as [[ts2|e|] s2] eqn:E2; try discriminate.
  destruct (step_all_ok _ _ _ _ _ _ _ HF S1 O1 E2) as [O2 S2].
  destruct (step_all env mr ts2 s2) as [[ts3|e|] s3] eqn:E3; try discriminate.
  destruct (step_all_ok _ _ _ _ _ _ _ HF S2 O2 E3) as [O3 S3].
  inversion E; subst. apply Forall_map. eapply Forall_impl; [|exact O3].
  intros [qf|q [[res urls]|e]|q [b|e]]; simpl; auto.
Qed.

Ltac url_base :=
  unfold preserves, R_frame, URLs; intros;
  try rewrite check_stop_spec;
  try match goal with |- context [stop_now ?e ?x] => destruct (stop_now e x) end;
  cbn [snd call advance emit append_content seen_urls trace];
  unfold fetched; rewrite ?flat_map_app; simpl; rewrite ?app_nil_r; reflexivity.

Ltac url_comp :=
  pres; first [ eapply gather_pres
        | eapply collect_successes_pres | eapply rewriter_call_pres
        | eapply search_and_filter_pres | eapply final_response_pres
        | eapply guardrail_pres | eapply handle_units_pres | idtac ];
  try typeclasses eauto; url_base.

Ltac url_frame E :=
  match type of E with
  | ?m ?s = (_, ?s') =>
      let H := fresh "U" in
      assert (H : URLs s' = URLs s)
        by exact (pres_at (R_frame URLs) m s _ s' ltac:(url_comp) E)
  end.

Lemma URLInv_frame s s' : URLs s' = URLs s -> URLInv s -> URLInv s'.
Proof. unfold URLs, URLInv. intros H. inversion H as [[H1 H2]]. rewrite H1, H2. auto. Qed.

Lemma launch_units_urls rs s :
  exists us s', launch_units rs s = (Ret us, s') /\ seen_urls s' = seen_urls s /\
    fetched (trace s') = fetched (trace s) ++ map sr_url rs.
Proof.
  revert s. induction rs as [|r rs IH]; intros s.
  - exists [], s. simpl. rewrite app_nil_r. auto.
  - destruct (IH (advance (S (clock s)) (EvFetch (sr_url r)) s)) as [us [s' [E [H1 H2]]]].
    exists ((r, clock s) :: us), s'. simpl. unfold bind at 1. simpl. unfold bind.
    rewrite E. split; [reflexivity|]. split; [exact H1|]. rewrite H2. simpl.
    unfold fetched. rewrite flat_map_app, <- app_assoc. reflexivity.
Qed.

Lemma scrape_urls env rs s o s' :
  _scrape_and_extract_results env rs s = (o, s') ->
  seen_urls s' = seen_urls s /\ fetched (trace s') = fetched (trace s) ++ map sr_url rs.
Proof.
  unfold _scrape_and_extract_results, bind.
  destruct (launch_units_urls rs s) as [us [s1 [E [H1 H2]]]]. rewrite E. intros E'.
  url_frame E'. unfold URLs in U. inversion U as [[U1 U2]]. rewrite U1, U2. auto.
Qed.

Lemma url_in_spec u l : url_in u l = true <-> In u l.
Proof.
  induction l as [|v l IH]; simpl; [split; [discriminate | intros []]|].
  rewrite orb_true_iff, IH, String.eqb_eq. split; intros [H|H]; auto.
Qed.

Lemma add_new_urls_spec seen us :
  NoDup seen ->
  NoDup (add_new_urls seen us) /\ incl seen (add_new_urls seen us) /\
  incl us (add_new_urls seen us).
Proof.
  revert seen. induction us as [|u us IH]; intros seen N; simpl.
  - split; [exact N|]. split; [apply incl_refl | intros ? []].
  - destruct (url_in u seen) eqn:U.
    + apply url_in_spec in U. destruct (IH seen N) as [N' [I1 I2]].
      split; [exact N'|]. split; [exact I1|].
      intros x [<-|Hx]; [apply I1, U | apply I2, Hx].
    + assert (Nu : NoDup (seen ++ [u])).
      { apply NoDup_app; [exact N | repeat constructor; intros [] |].
        intros a Ha [<-|[]]. rewrite <- url_in_spec in Ha. congruence. }
      destruct (IH _ Nu) as [N' [I1 I2]].
      split; [exact N'|]. split.
      * intros x Hx. apply I1, in_or_app. left. exact Hx.
      * intros x [<-|Hx]; [apply I1, in_or_app; right; left; reflexivity | apply I2, Hx].
Qed.

Lemma merge_urls_spec bs seen :
  NoDup seen ->
  NoDup (merge_urls bs seen) /\ incl seen (merge_urls bs seen) /\
  forall b, In b bs -> bi_success b = true -> incl (bi_new_urls b) (merge_urls bs seen).
Proof.
  unfold merge_urls. revert seen. induction bs as [|b bs IH]; intros seen N; simpl.
  - split; [exact N|]. split; [apply incl_refl | intros _ []].
  - destruct (bi_success b) eqn:Sb.
    + destruct (add_new_urls_spec seen (bi_new_urls b) N) as [N1 [I1 I2]].
      destruct (IH _ N1) as [N2 [I3 I4]].
      split; [exact N2|]. split; [intros x Hx; apply I3, I1, Hx|].
      intros b' [<-|Hb] S'; [intros x Hx; apply I3, I2, Hx | apply I4; auto].
    + destruct (IH _ N) as [N2 [I3 I4]]. split; [exact N2|]. split; [exact I3|].
      intros b' [<-|Hb] S'; [congruence | apply I4; auto].
Qed.

Lemma update_urls bs s o s' :
  _update_state_from_batch bs s = (o, s') ->
  seen_urls s' = merge_urls bs (seen_urls s) /\ fetched (trace s') = fetched (trace s).
Proof.
  unfold _update_state_from_batch, modify, merge_urls. intros E. inversion E; subst. clear E.
  revert s. induction bs as [|b bs IH]; intros s; simpl; [auto|].
  destruct (bi_success b); [|apply IH].
  destruct (IH (merge_one b s)) as [H1 H2]. rewrite H1, H2. split; [reflexivity|].
  unfold fetched. simpl. rewrite flat_map_app. simpl. apply app_nil_r.
Qed.

Lemma collect_to_scrape_spec rs seen acc :
  NoDup (map sr_url acc) -> incl (map sr_url acc) seen ->
  NoDup (map sr_url (fst (collect_to_scrape rs seen acc))) /\
  incl (map sr_url (fst (collect_to_scrape rs seen acc))) (map sr_url acc ++ map sr_url rs).
Proof.
  revert seen acc. induction rs as [|r rs IH]; intros seen acc N I; simpl.
  - rewrite app_nil_r. split; [exact N | apply incl_refl].
  - destruct (url_in (sr_url r) seen) eqn:U.
    + destruct (IH seen acc N I) as [N' I']. split; [exact N'|].
      intros x Hx. apply I' in Hx. apply in_app_or in Hx as [Hx|Hx];
        apply in_or_app; [left | right; right]; exact Hx.
    + assert (U' : ~ In (sr_url r) seen) by (rewrite <- url_in_spec; congruence).
      destruct (IH (sr_url r :: seen) (acc ++ [r])) as [N' I'].
      * rewrite map_app. apply NoDup_app; [exact N | repeat constructor; intros [] |].
        intros a Ha [<-|[]]. apply U', I, Ha.
      * rewrite map_app. intros x Hx. apply in_app_or in Hx as [Hx|[<-|[]]];
          [right; apply I, Hx | left; reflexivity].
      * split; [exact N'|]. intros x Hx. apply I' in Hx. rewrite map_app, <- app_assoc in Hx.
        exact Hx.
Qed.

Lemma results_to_scrape_spec bs :
  NoDup (map sr_url (results_to_scrape bs)) /\
  forall u, In u (map sr_url (results_to_scrape bs)) ->
    exists b, In b bs /\ In u (map sr_url (bi_filtered_results b)).
Proof.
  unfold results_to_scrape.
  destruct (collect_to_scrape_spec (List.concat (map bi_filtered_results bs)) [] [])
    as [N I]; [constructor | intros ? []|].
  split; [exact N|]. intros u Hu. apply I in Hu. simpl in Hu.
  apply in_map_iff in Hu as [r [<- Hr]]. apply in_concat in Hr as [l [Hl Hr]].
  apply in_map_iff in Hl as [b [<- Hb]]. exists b. split; [exact Hb|].
  apply in_map, Hr.
Qed.

Lemma batch_successes_ok snap rows :
  Forall (fun row => match snd row with Ok b => item_ok snap b | Raise _ => True end) rows ->
  Forall (fun b => bi_success b = true /\ item_ok snap b) (batch_successes rows).
Proof.
  induction rows as [|[q [b|e]] rows IH]; intros F; simpl; [constructor| |];
    inversion F; subst; auto.
  destruct (bi_success b) eqn:Sb; auto.
Qed.

Lemma batch_merge_inv st sb s_d :
  URLInv st -> Forall (fun b => bi_success b = true /\ item_ok (seen_urls st) b) sb ->
  seen_urls s_d = merge_urls sb (seen_urls st) -> fetched (trace s_d) = fetched (trace st) ->
  URLInv s_d /\
  (forall s_e, seen_urls s_e = seen_urls s_d ->
     fetched (trace s_e) = fetched (trace s_d) ++ map sr_url (results_to_scrape sb) ->
     URLInv s_e).
Proof.
  intros [N0 [F0 I0]] Fb Hs Hf.
  destruct (merge_urls_spec sb (seen_urls st) N0) as [N1 [I1 I2]].
  rewrite Forall_forall in Fb.
  assert (Hnew : forall u, In u (map sr_url (results_to_scrape sb)) ->
                 In u (seen_urls s_d) /\ ~ In u (seen_urls st)).
  { intros u Hu. destruct (proj2 (results_to_scrape_spec sb) u Hu) as [b [Hb Hu']].
    destruct (Fb b Hb) as [Sb Ob]. destruct (Ob Sb) as [Eu [_ Du]].
    rewrite <- Eu in Hu'. rewrite Hs. split; [apply (I2 b Hb Sb), Hu' | apply Du, Hu']. }
  split.
  - unfold URLInv. rewrite Hs, Hf. split; [exact N1|]. split; [exact F0|].
    intros x Hx. apply I1, I0, Hx.
  - intros s_e He Hfe. unfold URLInv. rewrite He, Hfe, Hf. split; [rewrite Hs; exact N1|].
    split.
    + apply NoDup_app; [exact F0 | apply (proj1 (results_to_scrape_spec sb)) |].
      intros a Ha Hb. apply (proj2 (Hnew a Hb)), I0, Ha.
    + intros x Hx. apply in_app_or in Hx as [Hx|Hx].
      * rewrite Hs. apply I1, I0, Hx.
      * apply (Hnew x Hx).
Qed.

Lemma scrape_block_urls env l s o s' :
  (match l with
   | [] => ret tt
   | _ => s3 <- check_stop env ;;
          if s3 then ret tt else _scrape_and_extract_results env l
   end) s = (o, s') ->
  seen_urls s' = seen_urls s /\
  (fetched (trace s') = fetched (trace s) \/
   fetched (trace s') = fetched (trace s) ++ map sr_url l).
Proof.
  destruct l as [|r l]; intros E.
  - inversion E; subst. auto.
  - unfold bind in E. rewrite check_stop_spec in E. destruct (stop_now env s).
    + inversion E; subst. simpl. unfold fetched. rewrite flat_map_app. simpl.
      rewrite app_nil_r. auto.
    + apply scrape_urls in E as [H1 H2]. auto.
Qed.

Lemma loop_urls env fuel rr st :
  FilterSelects env -> URLInv st ->
  let (o, st') := _iterative_query_rewriting env fuel rr st in URLInv st'.
Proof.
  intros HF. revert rr st. induction fuel as [|fuel IH]; intros rr st I0; [exact I0|].
  cbn [_iterative_query_rewriting]. wp; try no_fail.
  all: repeat match goal with
    | E : gather_batch ?e ?qs ?mr ?s = (Ret ?rows, ?s') |- _ =>
        pose proof (batch_successes_ok _ _ (gather_ok e qs mr s rows s' HF E));
        url_frame E; clear E
    | E : collect_successes ?rows ?s = (Ret ?sb, ?s') |- _ =>
        let CE := fresh "CE" in
        pose proof (collect_successes_exact rows s) as CE; rewrite E in CE;
        injection CE as CE _; subst sb; url_frame E; clear E
    | E : _update_state_from_batch ?bs ?s = (_, ?s') |- _ =>
        apply update_urls in E
    | E : (match _ with [] => _ | _ => _ end) ?s = (_, ?s') |- _ =>
        apply scrape_block_urls in E
    | E : ?m ?s = (_, ?s') |- _ => url_frame E; clear E
    end.
  all: repeat match goal with
    | H : URLInv ?s, U : URLs ?s' = URLs ?s |- _ =>
        lazymatch goal with
        | _ : URLInv s' |- _ => fail
        | _ => pose proof (URLInv_frame s s' U H)
        end
    end.
  all: try match goal with
    | E5 : seen_urls ?s5 = merge_urls ?sb (seen_urls ?s4) /\ fetched (trace ?s5) = fetched (trace ?s4),
      H0 : Forall (fun b => bi_success b = true /\ item_ok (seen_urls ?s1) b) ?sb,
      H3 : URLInv ?s1 |- _ =>
        let Q := fresh "Q" in let Q1 := fresh "Q" in let Q2 := fresh "Q" in
        assert (Q : URLs s4 = URLs s1) by congruence;
        unfold URLs in Q; injection Q as Q1 Q2;
        let E5a := fresh "E" in let E5b := fresh "E" in
        destruct E5 as [E5a E5b]; rewrite Q1 in E5a; rewrite Q2 in E5b;
        let I5 := fresh "I" in let T5 := fresh "T" in
        destruct (batch_merge_inv s1 sb s5 H3 H0 E5a E5b) as [I5 T5];
        match goal with E6 : seen_urls ?s6 = seen_urls s5 /\ _ |- _ =>
          let E6a := fresh "E" in let E6b := fresh "E" in
          destruct E6 as [E6a [E6b|E6b]];
          [ assert (URLInv s6) by
              (exact (URLInv_frame s5 s6 ltac:(unfold URLs; congruence) I5))
          | pose proof (T5 s6 E6a E6b) ]
        end
    end.
  all: repeat match goal with
    | H : URLInv ?s, U : URLs ?s' = URLs ?s |- _ =>
        lazymatch goal with
        | _ : URLInv s' |- _ => fail
        | _ => pose proof (URLInv_frame s s' U H)
        end
    end.
  all: try assumption.
  all: try match goal with
    |- let (_, _) := _iterative_query_rewriting _ _ _ ?s in _ => apply IH; assumption
    end.
Qed.

Lemma initial_inv s res urls :
  URLInv s -> urls = map sr_url res -> NoDup urls ->
  (forall u, In u urls -> ~ In u (seen_urls s)) ->
  URLInv (set_initial urls res s) /\
  (forall s', seen_urls s' = seen_urls (set_initial urls res s) ->
     fetched (trace s') = fetched (trace s) ++ map sr_url res -> URLInv s').
Proof.
  intros [N0 [F0 I0]] -> Nu D.
  assert (Ns : NoDup (seen_urls s ++ map sr_url res)).
  { apply NoDup_app; [exact N0 | exact Nu |]. intros a Ha Hb. exact (D a Hb Ha). }
  split.
  - unfold URLInv. simpl. split; [exact Ns|]. split; [exact F0|].
    intros x Hx. apply in_or_app. left. apply I0, Hx.
  - intros s' Hs Hf. unfold URLInv. rewrite Hs, Hf. simpl. split; [exact Ns|]. split.
    + apply NoDup_app; [exact F0 | exact Nu |]. intros a Ha Hb. exact (D a Hb (I0 a Ha)).
    + intros x Hx. apply in_app_or in Hx as [Hx|Hx]; apply in_or_app; [left; apply I0, Hx | right; exact Hx].
Qed.

(** X21: when every parsed reply of the relevance filter, given distinct
    clean results, lists distinct URLs taken from them, no URL is fetched
    twice over the run (initial scrape and every rewrite batch, whatever
    order [gather] runs the batch's queries in), and the seen-URL list has
    no duplicate entry. *)
Theorem no_url_fetched_twice env query fuel :
  FilterSelects env ->
  let (o, st) := run_research env query fuel in
  NoDup (fetched (trace st)) /\ NoDup (seen_urls st).
Proof.
  intros HF. unfold run_research.
  assert (I0 : URLInv (init_state query)).
  { split; [constructor|]. split; [constructor | intros ? []]. }
  enough (let (o, st) := research_workflow env fuel (init_state query) in URLInv st) as H.
  { destruct (research_workflow env fuel (init_state query)) as [o st].
    destruct H as [N1 [N2 _]]. auto. }
  revert I0. generalize (init_state query) as s0. intros s0 I0.
  unfold research_workflow. wp.
  all: repeat match goal with
    | E : _search_and_filter ?e ?q ?mr ?snap ?tf ?s = (Ret (?res, ?urls), ?s') |- _ =>
        pose proof (search_and_filter_urls e q mr snap tf s res urls s' HF E);
        url_frame E; clear E
    | E : modify _ _ = _ |- _ => unfold modify in E; inversion E; subst; clear E
    | E : _scrape_and_extract_results _ _ _ = _ |- _ => apply scrape_urls in E
    | E : _iterative_query_rewriting _ _ _ ?s = _ |- _ =>
        let LU := fresh "LU" in
        pose proof (loop_urls env fuel false s HF) as LU; rewrite E in LU;
        cbv iota in LU; clear E
    | E : ?m ?s = (_, ?s') |- _ => url_frame E; clear E
    end.
  all: repeat first
    [ match goal with
      | H : URLInv ?s, U : URLs ?s' = URLs ?s |- _ =>
          lazymatch goal with
          | _ : URLInv s' |- _ => fail
          | _ => pose proof (URLInv_frame s s' U H)
          end
      end
    | match goal with H : URLInv ?s, L : URLInv ?s -> URLInv ?s' |- _ =>
        specialize (L H) end
    | match goal with
      | SA : ?urls = map sr_url ?res /\ NoDup ?urls /\
             (forall u, In u ?urls -> ~ In u (seen_urls ?sn)),
        U : URLs ?s1 = URLs ?sn, H : URLInv ?s1 |- _ =>
          let SA1 := fresh "SA" in let SA2 := fresh "SA" in let SA3 := fresh "SA" in
          destruct SA as [SA1 [SA2 SA3]];
          let IA := fresh "IA" in let IB := fresh "IB" in
          destruct (initial_inv s1 res urls H SA1 SA2
                      ltac:(let V := fresh "V" in
                           assert (V : seen_urls s1 = seen_urls sn)
                             by (unfold URLs in U; congruence);
                           rewrite V; exact SA3))
            as [IA IB]
      end
    | match goal with
      | SC : seen_urls ?s4 = seen_urls ?s3 /\
             fetched (trace ?s4) = fetched (trace ?s3) ++ map sr_url ?l,
        IB : forall s', _ -> _ -> URLInv s' |- _ =>
          let SC1 := fresh "SC" in let SC2 := fresh "SC" in
          destruct SC as [SC1 SC2];
          assert (URLInv s4) by
            (apply IB; unfold URLs in *; cbn [set_initial trace seen_urls] in *; congruence)
      end ].
  all: assumption.
Qed.

Lemma all_items_some {B} (l : list B) : all_items (map Some l) = Some l.
Proof. induction l as [|x l IH]; simpl; [reflexivity | rewrite IH; reflexivity]. Qed.

Lemma keep_all_filter_selects mq ex stop results page :
  FilterSelects (sample_env mq ex stop results page keep_all_filter).
Proof.
  intros n clean raw items fs L P N. simpl in L. inversion L; subst. unfold keep_all in P.
  rewrite <- (map_map _ Some), all_items_some in P. inversion P; subst.
  rewrite map_map. simpl. split; [exact N | apply incl_refl].
Qed.

(** X21 (witness): a filter that keeps every clean result, two pages found. *)
Lemma no_url_fetched_twice_witness :
  FilterSelects (sample_env 3 false None [page_a; page_b] "text" keep_all_filter) /\
  let (o, st) := run_research (sample_env 3 false None [page_a; page_b] "text" keep_all_filter)
                   "q" 5 in
  NoDup (fetched (trace st)) /\ NoDup (seen_urls st).
Proof.
  split; [apply keep_all_filter_selects|].
  apply (no_url_fetched_twice (sample_env 3 false None [page_a; page_b] "text" keep_all_filter)
           "q" 5).
  apply keep_all_filter_selects.
Defined.

(** C1 (code bug): the initial path extends [seen_urls] with the filter's
    URLs and scrapes its results as they are, while a rewrite batch adds
    only URLs not yet seen and deduplicates what it scrapes. With a
    relevance filter reply that names the only page twice, the initial path
    fetches the page twice and lists its URL twice in [seen_urls]; the same
    reply inside a rewrite batch leads to one fetch and one entry. *)
Theorem initial_path_skips_url_dedup :
  (let st := snd (run_research (sample_env 0 false None [page_a] "text" dup_filter) "q" 5) in
   fetched (trace st) = ["https://example.org/a"; "https://example.org/a"] /\
   seen_urls st = ["https://example.org/a"; "https://example.org/a"]) /\
  (let st := snd (run_research batch_dup_env "q" 5) in
   queries_executed st = ["q"; "q2"] /\
   fetched (trace st) = ["https://example.org/a"] /\
   seen_urls st = ["https://example.org/a"]).
Proof. vm_compute. split; [split | split; [|split]]; reflexivity. Qed.


(* ------------------------------------------------------------------ *)
(** * The remaining modules *)

Lemma filter_ad_urls_fold urls c r :
  fold_left (fun (acc : list string * list string) (url : string) =>
    let (clean_urls, rejected_urls) := acc in
    if is_ad_or_tracking_url url then (clean_urls, rejected_urls ++ [url])
    else (clean_urls ++ [url], rejected_urls)) urls (c, r)
  = (c ++ filter (fun u => negb (is_ad_or_tracking_url u)) urls,
     r ++ filter is_ad_or_tracking_url urls).
Proof.
  revert c r; induction urls as [|u urls IH]; intros c r; simpl.
  - rewrite !app_nil_r; reflexivity.
  - destruct (is_ad_or_tracking_url u); simpl; rewrite IH, <- !app_assoc; reflexivity.
Qed.

Lemma filter_partition_perm {A} (p : A -> bool) l :
  Permutation (filter (fun x => negb (p x)) l ++ filter p l) l.
Proof.
  induction l as [|x l IH]; simpl; [constructor|].
  destruct (p x); simpl.
  - apply Permutation_sym, Permutation_cons_app, Permutation_sym, IH.
  - constructor; exact IH.
Qed.

(** X1: [filter_ad_urls] returns the clean URLs and the ad or tracking URLs,
    each in input order; together they are a permutation of the input. *)
Theorem filter_ad_urls_partition urls :
  filter_ad_urls urls
    = (filter (fun u => negb (is_ad_or_tracking_url u)) urls,
       filter is_ad_or_tracking_url urls)
  /\ Permutation (fst (filter_ad_urls urls) ++ snd (filter_ad_urls urls)) urls.
Proof.
  assert (E : filter_ad_urls urls
    = (filter (fun u => negb (is_ad_or_tracking_url u)) urls,
       filter is_ad_or_tracking_url urls))
    by (unfold filter_ad_urls; apply filter_ad_urls_fold).
  split; [exact E|]. rewrite E; apply filter_partition_perm.
Qed.

Lemma string_lower_app s1 s2 :
  string_lower (s1 ++ s2) = (string_lower s1 ++ string_lower s2)%string.
Proof. induction s1 as [|c s1 IH]; simpl; [reflexivity|]. rewrite IH; reflexivity. Qed.

Lemma prefix_app_r pat s q :
  String.prefix pat s = true -> String.prefix pat (s ++ q)%string = true.
Proof.
  revert s; induction pat as [|a pat IH]; intros s H; [destruct (s ++ q)%string; reflexivity|].
  destruct s as [|b s]; simpl in *; [discriminate|].
  destruct (ascii_dec a b); [|discriminate]. apply IH, H.
Qed.

Lemma contains_cons pat c s :
  contains pat (String c s) = (String.prefix pat (String c s) || contains pat s)%bool.
Proof. reflexivity. Qed.

Lemma contains_app_r pat s q :
  contains pat s = true -> contains pat (s ++ q)%string = true.
Proof.
  induction s as [|c s IH]; intros H.
  - destruct pat; [destruct q; reflexivity|]. discriminate.
  - change (String c s ++ q)%string with (String c (s ++ q)).
    rewrite contains_cons in *.
    apply orb_true_iff in H as [H|H].
    + apply orb_true_iff; left; exact (prefix_app_r _ _ q H).
    + rewrite (IH H), orb_true_r; reflexivity.
Qed.

Lemma contains_app_l pat p s :
  contains pat s = true -> contains pat (p ++ s)%string = true.
Proof.
  induction p as [|c p IH]; intros H; [exact H|].
  change (String c p ++ s)%string with (String c (p ++ s)).
  rewrite contains_cons, (IH H), orb_true_r; reflexivity.
Qed.

Lemma ascii_lower_idem c : ascii_lower (ascii_lower c) = ascii_lower c.
Proof. destruct c as [[] [] [] [] [] [] [] []]; reflexivity. Qed.

Lemma string_lower_idem s : string_lower (string_lower s) = string_lower s.
Proof. induction s as [|c s IH]; simpl; [reflexivity|]. rewrite ascii_lower_idem, IH; reflexivity. Qed.

(** X2: the ad and tracking test ignores letter case, and a URL containing an
    ad or tracking URL as a substring is itself classified as one. *)
Theorem is_ad_or_tracking_url_robust u p s :
  is_ad_or_tracking_url (string_lower u) = is_ad_or_tracking_url u
  /\ (is_ad_or_tracking_url u = true ->
      is_ad_or_tracking_url (p ++ u ++ s)%string = true).
Proof.
  split.
  - unfold is_ad_or_tracking_url; rewrite string_lower_idem; reflexivity.
  - unfold is_ad_or_tracking_url; intros H.
    apply existsb_exists in H as [pat [Hin Hc]].
    apply existsb_exists; exists pat; split; [exact Hin|].
    rewrite !string_lower_app.
    apply contains_app_l, contains_app_r, Hc.
Qed.

Lemma str_app_assoc (a b c : string) : (a ++ (b ++ c))%string = ((a ++ b) ++ c)%string.
Proof. induction a as [|x a IH]; simpl; [reflexivity|]. rewrite IH; reflexivity. Qed.

Lemma str_length_app (a b : string) :
  String.length (a ++ b) = (String.length a + String.length b)%nat.
Proof. induction a as [|x a IH]; simpl; [reflexivity|]. rewrite IH; reflexivity. Qed.

Lemma list_ascii_of_string_app (a b : string) :
  list_ascii_of_string (a ++ b) = list_ascii_of_string a ++ list_ascii_of_string b.
Proof. induction a as [|x a IH]; simpl; [reflexivity|]. rewrite IH; reflexivity. Qed.

Lemma prefix_nil s : String.prefix "" s = true.
Proof. destruct s; reflexivity. Qed.

Lemma prefix_app_self p r : String.prefix p (p ++ r) = true.
Proof.
  induction p as [|a p IH]; [apply prefix_nil|]. simpl.
  destruct (ascii_dec a a) as [_|n]; [exact IH|congruence].
Qed.

Lemma prefix_app_long p s t :
  (String.length p <= String.length s)%nat ->
  String.prefix p (s ++ t) = String.prefix p s.
Proof.
  revert s; induction p as [|a p IH]; intros s Hl.
  - rewrite !prefix_nil; reflexivity.
  - destruct s as [|b s]; simpl in Hl; [lia|]. simpl.
    destruct (ascii_dec a b); [apply IH; lia|reflexivity].
Qed.

Lemma split_step sep c s cur :
  split_sep_aux sep 0 (String c s) cur
  = if String.prefix sep (String c s)
    then string_of_list_ascii (rev cur) :: split_sep_aux sep (String.length sep - 1) s []
    else split_sep_aux sep 0 s (c :: cur).
Proof. reflexivity. Qed.

(** Splitting [x ++ "```" ++ r] on the fence cuts right after [x] when no
    fence starts inside [x]. *)
Lemma split_fence x r cur :
  contains "```" (x ++ "``") = false ->
  split_sep_aux "```" 0 (x ++ "```" ++ r) cur
  = string_of_list_ascii (rev cur ++ list_ascii_of_string x)
      :: split_sep_aux "```" 0 r [].
Proof.
  revert cur; induction x as [|c x IH]; intros cur H.
  - change ("" ++ "```" ++ r)%string with (String "`" ("``" ++ r)).
    rewrite split_step.
    replace (String.prefix "```" (String "`" ("``" ++ r))) with true
      by (symmetry; apply (prefix_app_self "```" r)).
    rewrite app_nil_r; reflexivity.
  - change ((String c x ++ "``")%string) with (String c (x ++ "``")) in H.
    rewrite contains_cons in H. apply orb_false_iff in H as [Hp Hc].
    change ((String c x ++ "```" ++ r)%string) with (String c (x ++ "```" ++ r)).
    rewrite split_step.
    replace (String.prefix "```" (String c (x ++ "```" ++ r))) with false.
    + rewrite (IH (c :: cur) Hc). simpl. rewrite <- app_assoc; reflexivity.
    + change (String c (x ++ "```" ++ r)) with (String c (x ++ "``" ++ "`" ++ r)).
      rewrite str_app_assoc.
      change (String c ((x ++ "``") ++ "`" ++ r)) with ((String c (x ++ "``")) ++ "`" ++ r)%string.
      rewrite prefix_app_long; [symmetry; exact Hp|].
      simpl; rewrite str_length_app; simpl; lia.
Qed.

Lemma py_drop_app (a b : string) :
  py_drop (String.length a) (a ++ b) = b.
Proof.
  unfold py_drop; rewrite list_ascii_of_string_app.
  assert (E : String.length a = List.length (list_ascii_of_string a))
    by (induction a; simpl; congruence).
  rewrite E, skipn_app, skipn_all, Nat.sub_diag; simpl.
  apply string_of_list_ascii_of_string.
Qed.

(** X3: a reply fenced as json (or as a plain fence whose body does not start
    with json) gives back the fenced body, stripped, when the body holds no
    run of three backticks. *)
Theorem extract_json_from_markdown_fenced body rest :
  contains "```" (body ++ "``") = false ->
  extract_json_from_markdown ("```json" ++ body ++ "```" ++ rest) = py_strip body
  /\ (String.prefix "json" body = false ->
      extract_json_from_markdown ("```" ++ body ++ "```" ++ rest) = py_strip body).
Proof.
  intros H. unfold extract_json_from_markdown.
  split.
  - change ("```json" ++ body ++ "```" ++ rest)%string
      with ("```" ++ (("json" ++ body) ++ "```" ++ rest))%string.
    rewrite prefix_app_self.
    change ("```" ++ (("json" ++ body) ++ "```" ++ rest))%string
      with (String "`" (String "`" (String "`" (("json" ++ body) ++ "```" ++ rest)))).
    unfold py_split_sep. rewrite split_step.
    replace (String.prefix "```" (String "`" (String "`" (String "`"
               (("json" ++ body) ++ "```" ++ rest)))))
      with true by (symmetry; apply (prefix_app_self "```")).
    simpl (String.length "```" - 1)%nat.
    change (split_sep_aux "```" 2 (String "`" (String "`" (("json" ++ body) ++ "```" ++ rest))) [])
      with (split_sep_aux "```" 0 (("json" ++ body) ++ "```" ++ rest) []).
    rewrite split_fence.
    + simpl nth. rewrite string_of_list_ascii_of_string.
      change (String "j" (String "s" (String "o" (String "n" body)))) with ("json" ++ body)%string.
      rewrite prefix_app_self.
      change 4%nat with (String.length "json"). rewrite py_drop_app; reflexivity.
    + rewrite <- str_app_assoc. simpl. exact H.
  - intros Hj.
    change ("```" ++ body ++ "```" ++ rest)%string
      with (String "`" (String "`" (String "`" (body ++ "```" ++ rest)))).
    replace (String.prefix "```" (String "`" (String "`" (String "`" (body ++ "```" ++ rest)))))
      with true by (symmetry; apply (prefix_app_self "```")).
    unfold py_split_sep. rewrite split_step.
    replace (String.prefix "```" (String "`" (String "`" (String "`" (body ++ "```" ++ rest)))))
      with true by (symmetry; apply (prefix_app_self "```")).
    simpl (String.length "```" - 1)%nat.
    change (split_sep_aux "```" 2 (String "`" (String "`" (body ++ "```" ++ rest))) [])
      with (split_sep_aux "```" 0 (body ++ "```" ++ rest) []).
    rewrite (split_fence body rest [] H).
    simpl nth. rewrite string_of_list_ascii_of_string, Hj; reflexivity.
Qed.

(** X3 (witness): a fenced array with surrounding blanks. *)
Lemma extract_json_from_markdown_fenced_witness :
  contains "```" (" [1, 2] " ++ "``") = false
  /\ extract_json_from_markdown ("```json" ++ " [1, 2] " ++ "```" ++ "") = py_strip " [1, 2] "
  /\ (String.prefix "json" " [1, 2] " = false ->
      extract_json_from_markdown ("```" ++ " [1, 2] " ++ "```" ++ "") = py_strip " [1, 2] ").
Proof.
  assert (H : contains "```" (" [1, 2] " ++ "``") = false) by reflexivity.
  split; [exact H|]. exact (extract_json_from_markdown_fenced _ _ H).
Defined.

Lemma drop_space_prefix l : exists p, l = p ++ drop_space l.
Proof.
  induction l as [|c l [p Hp]]; simpl; [exists []; reflexivity|].
  destruct (py_isspace c); [exists (c :: p); simpl; congruence|exists []; reflexivity].
Qed.

Lemma drop_space_head l c m : drop_space l = c :: m -> py_isspace c = false.
Proof.
  induction l as [|d l IH]; simpl; [discriminate|].
  destruct (py_isspace d) eqn:E; [exact IH|]. intros H; injection H as <- _; exact E.
Qed.

Lemma drop_space_fix l :
  (forall c m, l = c :: m -> py_isspace c = false) -> drop_space l = l.
Proof.
  destruct l as [|c m]; simpl; [reflexivity|]. intros H; rewrite (H c m eq_refl); reflexivity.
Qed.

Lemma drop_space_idem l : drop_space (drop_space l) = drop_space l.
Proof. apply drop_space_fix; intros c m H; exact (drop_space_head _ _ _ H). Qed.

Lemma py_strip_idem s : py_strip (py_strip s) = py_strip s.
Proof.
  unfold py_strip. rewrite list_ascii_of_string_of_list_ascii.
  set (A := drop_space (list_ascii_of_string s)).
  set (B := drop_space (rev A)).
  assert (HB : drop_space (rev B) = rev B).
  { apply drop_space_fix; intros c m Hc.
    destruct (drop_space_prefix (rev A)) as [p Hp].
    fold B in Hp. apply (f_equal (@rev ascii)) in Hp.
    rewrite rev_involutive, rev_app_distr, Hc in Hp.
    apply (drop_space_head (list_ascii_of_string s) c (m ++ rev p)).
    fold A; rewrite Hp; reflexivity. }
  rewrite HB, rev_involutive. unfold B at 1. rewrite drop_space_idem; reflexivity.
Qed.

Lemma text_of_parts_raise ps e : text_of_parts ps = Raise e -> e = "AttributeError".
Proof.
  induction ps as [|p ps IH]; simpl; [discriminate|].
  destruct p as [[t|] text|]; try exact IH.
  destruct (String.eqb t "text"); [|exact IH].
  destruct text as [[s|]|]; intros H; inversion H; auto.
Qed.

(** X4: [parse_content] returns a non-empty stripped text or raises
    RuntimeError or AttributeError; a string message with non-blank text is
    returned stripped. *)
Theorem parse_content_result r :
  match parse_content r with
  | Ok c => c <> "" /\ py_strip c = c
  | Raise e => e = "RuntimeError" \/ e = "AttributeError"
  end
  /\ (forall s, msg_content r = ContentStr s -> py_strip s <> "" ->
      parse_content r = Ok (py_strip s)).
Proof.
  split.
  - unfold parse_content.
    assert (Hc : forall content : Result string,
      (forall c, content = Ok c -> exists s, c = py_strip s) ->
      (forall e, content = Raise e -> e = "AttributeError") ->
      match match content with
            | Raise e => Raise e
            | Ok content =>
                if String.eqb content "" then
                  if negb (match meta_status r with
                           | Some s => String.eqb s "completed" | None => false end)
                  then match meta_incomplete_details r with
                       | Some IDOther => Raise "AttributeError"
                       | _ => Raise "RuntimeError" end
                  else Raise "RuntimeError"
                else Ok content end with
      | Ok c => c <> "" /\ py_strip c = c
      | Raise e => e = "RuntimeError" \/ e = "AttributeError" end).
    { intros [c|e] Hok Hr.
      - destruct (String.eqb_spec c "") as [->|Hne].
        + destruct (match meta_status r with
                    | Some s => String.eqb s "completed" | None => false end); simpl;
            [now left|].
          destruct (meta_incomplete_details r) as [[]|]; auto.
        + destruct (Hok c eq_refl) as [s ->]. split; [exact Hne|apply py_strip_idem].
      - right; exact (Hr e eq_refl). }
    apply Hc.
    + destruct (msg_content r) as [s|ps]; [intros c [=<-]; eauto|].
      destruct (text_of_parts ps); intros c [=<-]; eauto.
    + destruct (msg_content r) as [s|ps]; [discriminate|].
      destruct (text_of_parts ps) eqn:E; intros e [=<-]; [].
      exact (text_of_parts_raise _ _ E).
  - intros s Hs Hne. unfold parse_content; rewrite Hs.
    destruct (String.eqb_spec (py_strip s) "") as [E|_]; [contradiction|reflexivity].
Qed.

Lemma dict_get_set k v d : dict_get k (dict_set k v d) = Some v.
Proof.
  induction d as [|[k' v'] d IH]; simpl.
  - rewrite String.eqb_refl; reflexivity.
  - destruct (String.eqb k k') eqn:E; simpl; [rewrite String.eqb_refl; reflexivity|].
    rewrite E; exact IH.
Qed.

Lemma dict_get_set_other k k' v d :
  k <> k' -> dict_get k (dict_set k' v d) = dict_get k d.
Proof.
  intros Hne. induction d as [|[k'' v'] d IH]; simpl.
  - apply String.eqb_neq in Hne; rewrite Hne; reflexivity.
  - destruct (String.eqb k' k'') eqn:E; simpl.
    + apply String.eqb_eq in E; subst k''.
      apply String.eqb_neq in Hne; rewrite Hne; reflexivity.
    + destruct (String.eqb k k''); [reflexivity|exact IH].
Qed.

Lemma v_str_err j e : v_str j = Raise e -> e = "ValidationError".
Proof. destruct j; simpl; congruence. Qed.
Lemma v_opt_str_err j e : v_opt_str j = Raise e -> e = "ValidationError".
Proof. destruct j; simpl; congruence. Qed.
Lemma v_str_list_err j e : v_str_list j = Raise e -> e = "ValidationError".
Proof. destruct j; simpl; try congruence. destruct (all_str l); congruence. Qed.
Lemma py_iter_err j e : py_iter j = Raise e -> e = "TypeError".
Proof. destruct j; simpl; congruence. Qed.
Lemma directory_items_err l e :
  directory_items l = Raise e -> e = "AttributeError" \/ e = "ValidationError".
Proof.
  induction l as [|j l IH]; simpl; [discriminate|].
  destruct j; try (intros H; injection H; auto; fail).
  unfold rbind.
  destruct (v_str _) eqn:E1; [|intros [=<-]; right; exact (v_str_err _ _ E1)].
  destruct (v_opt_str (dict_get_default "url" _ _)) eqn:E2;
    [|intros [=<-]; right; exact (v_opt_str_err _ _ E2)].
  destruct (v_opt_str (dict_get_default "description" _ _)) eqn:E3;
    [|intros [=<-]; right; exact (v_opt_str_err _ _ E3)].
  destruct (v_opt_str (dict_get_default "price" _ _)) eqn:E4;
    [|intros [=<-]; right; exact (v_opt_str_err _ _ E4)].
  destruct (directory_items l); [discriminate|exact IH].
Qed.

Ltac rbind_cases :=
  repeat match goal with
  | |- context [rbind ?r _] =>
      let E := fresh "E" in
      destruct r eqn:E; simpl;
      [|first [ apply v_str_err in E | apply v_opt_str_err in E
              | apply v_str_list_err in E | apply py_iter_err in E
              | apply directory_items_err in E ];
        unfold extraction_errors; simpl; intuition congruence]
  end.

(** X5: content built from the extraction tool call carries the page's own
    title and URL, and the requested page type when it is a known one (else
    other); otherwise the call raises TypeError, AttributeError or
    ValidationError. *)
Theorem extract_from_tool_args_result py_str_dict url title args :
  match extract_from_tool_args py_str_dict url title args with
  | Ok e =>
      content_title e = title /\ content_url e = url
      /\ page_type e
         = match dict_get_default "page_type" args (JStr "other") with
           | JStr s =>
               if existsb (String.eqb s) ["article"; "product"; "forum_post"; "directory"]
               then s else "other"
           | _ => "other"
           end
  | Raise e => In e extraction_errors
  end.
Proof.
  unfold extract_from_tool_args.
  destruct (dict_get_default "page_data" args (JObj [])) as [| | | | |pd];
    try (simpl; tauto).
  set (pt := dict_get_default "page_type" args (JStr "other")).
  set (pd' := dict_set "title" (JStr title) (dict_set "url" (JStr url) pd)).
  assert (Ht : dict_get_default "title" pd' (JStr "Untitled") = JStr title)
    by (unfold dict_get_default, pd'; rewrite dict_get_set; reflexivity).
  assert (Hu : dict_get_default "url" pd' (JStr "") = JStr url)
    by (unfold dict_get_default, pd';
        rewrite dict_get_set_other by discriminate; rewrite dict_get_set; reflexivity).
  unfold create_extracted_content. rewrite Ht, Hu. simpl.
  destruct pt as [| | | s | |] eqn:Ept; simpl;
    try (rbind_cases; auto; fail).
  destruct (String.eqb_spec s "article") as [->|n1]; [rbind_cases; auto|].
  destruct (String.eqb_spec s "product") as [->|n2]; [rbind_cases; auto|].
  destruct (String.eqb_spec s "forum_post") as [->|n3]; [rbind_cases; auto|].
  destruct (String.eqb_spec s "directory") as [->|n4]; [rbind_cases; auto|].
  rbind_cases.
  repeat split.
Qed.

Lemma str_app_nil_r (a : string) : (a ++ "")%string = a.
Proof. induction a as [|x a IH]; simpl; [reflexivity|]. rewrite IH; reflexivity. Qed.

Section WriterFacts.
Local Open Scope string_scope.

Lemma str_app_if (b : bool) (p x : string) :
  (if b then p ++ x else p) = p ++ (if b then x else "").
Proof. destruct b; [reflexivity|symmetry; apply str_app_nil_r]. Qed.

Lemma str_app_if2 (b1 b2 : bool) (p x y : string) :
  (if b1 then p ++ x else if b2 then p ++ y else p)
  = p ++ (if b1 then x else if b2 then y else "").
Proof. destruct b1, b2; try reflexivity; symmetry; apply str_app_nil_r. Qed.

Lemma str_app_list {A} (l : list A) (p : string) (f : list A -> string) :
  match l with [] => p | _ => p ++ f l end
  = p ++ match l with [] => "" | _ => f l end.
Proof. destruct l; [symmetry; apply str_app_nil_r|reflexivity]. Qed.

Lemma content_part_split MAX c :
  content_part MAX c
  = ("Source: [" ++ content_title c ++ "](" ++ content_url c ++ ")" ++ nl
     ++ "Type: " ++ page_type c ++ nl)
    ++ ((if py_truthy_opt (dump_name c)
         then "Name: " ++ match dump_name c with Some n => n | None => "" end ++ nl else "")
    ++ ((if py_truthy_opt (dump_content c)
         then "Content: "
              ++ py_str_slice_upto (match dump_content c with Some t => t | None => "" end) MAX
              ++ nl
         else if py_truthy_opt (dump_description c)
         then "Description: " ++ match dump_description c with Some d => d | None => "" end ++ nl
         else "")
    ++ (match dump_options c with
        | [] => "" | o => "Options: " ++ String.concat ", " (firstn 10 o) ++ nl end
    ++ (match dump_features c with
        | [] => "" | f => "Features: " ++ String.concat ", " (firstn 10 f) ++ nl end
    ++ ((if py_truthy_opt (dump_price c)
         then "Price: " ++ match dump_price c with Some p => p | None => "" end ++ nl else "")
    ++ (if py_truthy_opt (dump_date c)
        then "Date: " ++ match dump_date c with Some d => d | None => "" end ++ nl else "")))))).
Proof.
  unfold content_part; cbv zeta.
  rewrite str_app_if, str_app_if2.
  destruct (dump_options c), (dump_features c);
    rewrite ?str_app_if; rewrite <- ?str_app_assoc; rewrite ?str_app_nil_r; reflexivity.
Qed.
End WriterFacts.

(** X6: each source fragment of the writer prompt starts with its Source and
    Type lines; a directory adds nothing, a forum post or other page only its
    truncated content line, an article its content line and then its date
    line. *)
Theorem content_part_layout MAX c :
  exists tail,
    content_part MAX c
    = ("Source: [" ++ content_title c ++ "](" ++ content_url c ++ ")" ++ nl
       ++ "Type: " ++ page_type c ++ nl ++ tail)%string
    /\ match c with
       | DirectoryContent _ _ _ => tail = ""
       | ForumPostContent _ _ txt _ _ | OtherContent _ _ txt =>
           tail = if py_truthy txt
                  then ("Content: " ++ py_str_slice_upto txt MAX ++ nl)%string else ""
       | ArticleContent _ _ txt _ date =>
           tail = ((if py_truthy txt
                    then "Content: " ++ py_str_slice_upto txt MAX ++ nl else "")
                   ++ (if py_truthy_opt date
                       then "Date: " ++ match date with Some d => d | None => "" end ++ nl
                       else ""))%string
       | ProductContent _ _ _ _ _ _ _ => True
       end.
Proof.
  eexists; split.
  - rewrite content_part_split. rewrite <- !str_app_assoc. reflexivity.
  - destruct c as [t u txt a d|t u n p o ds f|t u txt a rs|t u items|t u txt];
      [| exact I | | reflexivity |]; simpl dump_name; simpl dump_content;
      simpl dump_description; simpl dump_options; simpl dump_features;
      simpl dump_price; simpl dump_date; simpl py_truthy_opt; cbv iota;
      destruct (py_truthy txt); cbn [String.append]; rewrite ?str_app_nil_r; reflexivity.
Qed.

Lemma n_ops_cons f x ops :
  n_ops f (x :: ops) = ((if f x then 1 else 0) + n_ops f ops)%Z.
Proof. unfold n_ops; cbn [filter]. destruct (f x); cbn [List.length]; lia. Qed.

Lemma n_ops_nil f : n_ops f [] = 0%Z.
Proof. reflexivity. Qed.

Lemma pool_call_ref o p :
  ref_count (snd (pool_call o p)) =
  (ref_count p + (if is_enter o then 1 else 0) - (if is_exit o then 1 else 0))%Z.
Proof.
  destruct o as [ok|ok|ok]; simpl.
  - unfold pool_aenter. destruct (_ =? 1)%Z, ok; simpl; lia.
  - unfold pool_aexit. destruct (_ =? 0)%Z, (playwright p), ok; simpl; lia.
  - unfold pool_acquire. destruct (browsers p), (playwright p), ok; simpl; lia.
Qed.

Lemma run_pool_ref ops p :
  ref_count (snd (run_pool ops p)) = (ref_count p + n_ops is_enter ops - n_ops is_exit ops)%Z.
Proof.
  revert p. induction ops as [|o ops IH]; intros p; [cbn [run_pool snd]; rewrite !n_ops_nil; lia|].
  cbn [run_pool]. pose proof (pool_call_ref o p) as R.
  destruct (pool_call o p) as [r p'] eqn:E. simpl in R.
  specialize (IH p'). destruct (run_pool ops p') as [rs p'']. simpl in IH |- *.
  rewrite IH, R, !n_ops_cons. destruct o; cbn [is_enter is_exit]; lia.
Qed.

Lemma pool_call_inv o p :
  PoolInv p -> op_ok o = true ->
  (is_enter o = false -> (0 < ref_count p)%Z) ->
  PoolInv (snd (pool_call o p)) /\ exists v, fst (pool_call o p) = Ok v.
Proof.
  intros (H0 & Hpw & Hb & Hbp) Hok Hpos.
  destruct o as [ok|ok|ok]; simpl in Hok; subst ok; simpl.
  - unfold pool_aenter. destruct (Z.eqb_spec (ref_count p + 1) 1); simpl.
    + split; eauto. unfold PoolInv; simpl. repeat split; auto; lia.
    + split; eauto. unfold PoolInv; simpl. repeat split; auto; try lia.
      intros _; apply Hpw; lia.
  - specialize (Hpos eq_refl). unfold pool_aexit.
    destruct (Z.eqb_spec (ref_count p - 1) 0); simpl.
    + assert (Hp : playwright p = true) by (apply Hpw; exact Hpos). rewrite Hp. simpl.
      split; eauto. unfold PoolInv; simpl. repeat split; try lia; try discriminate; auto.
    + split; eauto. unfold PoolInv; simpl. repeat split; auto; try lia.
      all: first [intros Hp; apply Hpw in Hp; lia | intros _; apply Hpw; lia].
  - specialize (Hpos eq_refl). unfold pool_acquire.
    destruct (browsers p) as [|b bs] eqn:Eb.
    + assert (Hp : playwright p = true) by (apply Hpw; exact Hpos). rewrite Hp. simpl.
      split; eauto. unfold PoolInv; simpl. repeat split; auto; try lia.
    + simpl. split; eauto. unfold PoolInv. rewrite Eb. auto.
Qed.

(** X7: whatever the outcome of each Playwright call, the pool's reference
    count is the number of enters minus the number of exits (the count is
    changed before Playwright is started or stopped). When every Playwright
    call succeeds, exits never outnumber enters and every acquire happens
    inside a session, playwright runs exactly while the count is positive,
    at most one browser is held, and no call raises. *)
Theorem run_pool_sessions ops :
  ref_count (snd (run_pool ops pool_init)) = (n_ops is_enter ops - n_ops is_exit ops)%Z /\
  (Forall (fun o => op_ok o = true) ops ->
   (forall pre post, ops = pre ++ post -> (n_ops is_exit pre <= n_ops is_enter pre)%Z) ->
   (forall pre ok post, ops = pre ++ PoolAcquire ok :: post ->
      (n_ops is_exit pre < n_ops is_enter pre)%Z) ->
   PoolInv (snd (run_pool ops pool_init))
   /\ Forall (fun r => exists v, r = Ok v) (fst (run_pool ops pool_init))).
Proof.
  split; [rewrite run_pool_ref; simpl; lia|].
  revert ops.
  assert (G : forall ops p,
    PoolInv p -> Forall (fun o => op_ok o = true) ops ->
    (forall pre post, ops = pre ++ post ->
       (n_ops is_exit pre <= n_ops is_enter pre + ref_count p)%Z) ->
    (forall pre ok post, ops = pre ++ PoolAcquire ok :: post ->
       (n_ops is_exit pre < n_ops is_enter pre + ref_count p)%Z) ->
    PoolInv (snd (run_pool ops p))
    /\ Forall (fun r => exists v, r = Ok v) (fst (run_pool ops p))).
  { induction ops as [|o ops IH]; intros p Hi Hok Hpre Hacq.
    - simpl. split; [exact Hi | constructor].
    - inversion Hok as [|? ? Ho Hoks]; subst.
      assert (Hpos : is_enter o = false -> (0 < ref_count p)%Z).
      { intros He. destruct o as [ok|ok|ok]; simpl in He; [discriminate| |].
        - specialize (Hpre [PoolExit ok] ops eq_refl).
          rewrite !n_ops_cons, !n_ops_nil in Hpre; cbn [is_enter is_exit] in Hpre; lia.
        - specialize (Hacq [] ok ops eq_refl). rewrite !n_ops_nil in Hacq; lia. }
      destruct (pool_call_inv o p Hi Ho Hpos) as (Ic & v & Ev).
      pose proof (pool_call_ref o p) as R.
      cbn [run_pool]. destruct (pool_call o p) as [r p'] eqn:E. simpl in Ic, Ev, R.
      destruct (IH p' Ic Hoks) as (I & F).
      + intros pre post ->. specialize (Hpre (o :: pre) post eq_refl).
        rewrite !n_ops_cons in Hpre. destruct o; cbn [is_enter is_exit] in *; lia.
      + intros pre ok post ->. specialize (Hacq (o :: pre) ok post eq_refl).
        rewrite !n_ops_cons in Hacq. destruct o; cbn [is_enter is_exit] in *; lia.
      + destruct (run_pool ops p') as [rs p'']. simpl in I, F |- *.
        split; [exact I|]. constructor; [subst; eauto | exact F]. }
  intros ops Hok Hpre Hacq.
  apply G; [| exact Hok | |].
  - unfold PoolInv; simpl. split; [lia|split; [split; [discriminate|lia]|split]].
    + simpl; lia.
    + intros H; exfalso; apply H; reflexivity.
  - intros pre post Hs; specialize (Hpre pre post Hs); simpl; lia.
  - intros pre ok post Hs; specialize (Hacq pre ok post Hs); simpl; lia.
Qed.

(** X7 (witness): two nested sessions, each acquiring a browser. *)
Lemma run_pool_sessions_witness :
  let ops := [PoolEnter true; PoolAcquire true; PoolEnter true; PoolAcquire true;
              PoolExit true; PoolExit true] in
  Forall (fun o => op_ok o = true) ops
  /\ (forall pre post, ops = pre ++ post -> (n_ops is_exit pre <= n_ops is_enter pre)%Z)
  /\ (forall pre ok post, ops = pre ++ PoolAcquire ok :: post ->
        (n_ops is_exit pre < n_ops is_enter pre)%Z)
  /\ PoolInv (snd (run_pool ops pool_init))
  /\ Forall (fun r => exists v, r = Ok v) (fst (run_pool ops pool_init)).
Proof.
  intros ops.
  assert (H0 : Forall (fun o => op_ok o = true) ops) by repeat constructor.
  assert (H1 : forall pre post, ops = pre ++ post ->
                 (n_ops is_exit pre <= n_ops is_enter pre)%Z).
  { intros pre post Hs.
    do 7 (destruct pre as [|? pre]; [subst ops; simpl in Hs; try discriminate;
         try (injection Hs; intros; subst); vm_compute; congruence|]);
      simpl in Hs; discriminate. }
  assert (H2 : forall pre ok post, ops = pre ++ PoolAcquire ok :: post ->
                 (n_ops is_exit pre < n_ops is_enter pre)%Z).
  { intros pre ok post Hs.
    do 7 (destruct pre as [|? pre]; [subst ops; simpl in Hs; try discriminate;
         try (injection Hs; intros; subst); vm_compute; congruence|]);
      simpl in Hs; discriminate. }
  split; [exact H0|]. split; [exact H1|]. split; [exact H2|].
  exact (proj2 (run_pool_sessions ops) H0 H1 H2).
Defined.


(** X8: the verification request is sent exactly when Turnstile is on, the
    secret is set and the token is non-empty; a truthy answer means Turnstile
    is off or the server's JSON object has a truthy success field. *)
Theorem verify_turnstile_token_gate use secret token reply :
  let (res, sent) := verify_turnstile_token use secret token reply in
  (sent = true <-> use = true /\ py_truthy_opt secret = true /\ py_truthy token = true)
  /\ (py_truthy_json res = true ->
      use = false
      \/ (sent = true
          /\ exists d, reply = TSJson (JObj d)
             /\ py_truthy_json (dict_get_default "success" d (JBool false)) = true)).
Proof.
  unfold verify_turnstile_token.
  destruct use; simpl; [|split; [split; [discriminate|intros [H _]; discriminate]|auto]].
  destruct (py_truthy_opt secret); simpl;
    [|split; [split; [discriminate|intros (_ & H & _); discriminate]|discriminate]].
  destruct (py_truthy token); simpl;
    [|split; [split; [discriminate|intros (_ & _ & H); discriminate]|discriminate]].
  destruct reply as [| |[| | | | |d]]; simpl;
    try (split; [tauto|discriminate]).
  split; [tauto|]. intros H; right; split; [reflexivity|eauto].
Qed.

Lemma started_after_verify_app out ext :
  started_after_verify out ->
  (forall pre q post, ext = pre ++ OutTaskStarted q :: post ->
     exists t, In (OutVerify t true) (out ++ pre)) ->
  started_after_verify (out ++ ext).
Proof.
  intros Ho He pre q post Hs.
  destruct (app_eq_app _ _ _ _ Hs) as [l [[Hout Hl]|[Hpre Hext]]].
  - destruct l as [|x l].
    + rewrite app_nil_r in Hout; subst out. simpl in Hl.
      destruct (He [] q post (eq_sym Hl)) as [t Ht]. rewrite app_nil_r in Ht; eauto.
    + injection Hl as <- Hl. exact (Ho pre q l Hout).
  - subst pre. exact (He l q post Hext).
Qed.

Lemma no_verify_after_success_app out ext :
  no_verify_after_success out ->
  (forall pre t post, ext = pre ++ OutVerify t true :: post ->
     forall t' b, ~ In (OutVerify t' b) post) ->
  ((exists t, In (OutVerify t true) out) -> forall t' b, ~ In (OutVerify t' b) ext) ->
  no_verify_after_success (out ++ ext).
Proof.
  intros Ho He Hx pre t post Hs t' b.
  destruct (app_eq_app _ _ _ _ Hs) as [l [[Hout Hl]|[Hpre Hext]]].
  - destruct l as [|x l].
    + rewrite app_nil_r in Hout; subst out. simpl in Hl.
      exact (He [] t post (eq_sym Hl) t' b).
    + injection Hl as <- Hl. subst post. intros Hin.
      apply in_app_or in Hin as [Hin|Hin].
      * exact (Ho pre t l Hout t' b Hin).
      * apply (Hx (ex_intro _ t (eq_ind_r (fun o => In _ o) (in_elt _ _ _) Hout)) t' b Hin).
  - exact (He l t post Hext t' b).
Qed.

Lemma ws_gate_quiet st ext :
  WsGate st ->
  (forall q, ~ In (OutTaskStarted q) ext) -> (forall t b, ~ In (OutVerify t b) ext) ->
  started_after_verify (ws_out st ++ ext) /\ no_verify_after_success (ws_out st ++ ext).
Proof.
  intros (_ & _ & Ha & Hb) Hq Hv. split.
  - apply started_after_verify_app; [exact Ha|].
    intros pre q post ->. exfalso; apply (Hq q), in_elt.
  - apply no_verify_after_success_app; [exact Hb| |].
    + intros pre t post ->. exfalso; apply (Hv t true), in_elt.
    + intros _ t' b; apply Hv.
Qed.

Lemma gate_extend st st' ext :
  WsGate st -> is_verified st' = is_verified st -> ws_out st' = ws_out st ++ ext ->
  (forall q, ~ In (OutTaskStarted q) ext) -> (forall t b, ~ In (OutVerify t b) ext) ->
  WsGate st'.
Proof.
  intros H Hver Hout Hq Hv. pose proof H as (Hv1 & Hv2 & _ & _).
  destruct (ws_gate_quiet st ext H Hq Hv) as [Ha Hb].
  unfold WsGate; rewrite Hver, Hout. split; [|split; [|split; assumption]].
  - intros E; destruct (Hv1 E) as [t Ht]; exists t; apply in_or_app; left; exact Ht.
  - intros E t Hin; apply in_app_or in Hin as [Hin|Hin];
      [exact (Hv2 E t Hin)|exact (Hv t true Hin)].
Qed.

Lemma gate_launch_verified st q :
  WsGate st -> is_verified st = true -> WsGate (ws_launch q (is_verified st) st).
Proof.
  intros H E. pose proof H as (Hv1 & Hv2 & Ha & Hb).
  destruct (Hv1 E) as [t0 Ht0].
  assert (Hq : forall ext, ws_out (ws_launch q (is_verified st) st) = ws_out st ++ ext ++ [OutTaskStarted q]
             -> (forall t b, ~ In (OutVerify t b) ext) -> WsGate (ws_launch q (is_verified st) st)).
  { intros ext Ho Hv. unfold WsGate. rewrite Ho. simpl. rewrite E.
    split; [intros _; exists t0; apply in_or_app; left; exact Ht0|].
    split; [discriminate|]. split.
    - apply started_after_verify_app; [exact Ha|].
      intros pre q' post Hs. exists t0. apply in_or_app; left; exact Ht0.
    - apply no_verify_after_success_app; [exact Hb| |].
      + intros pre t post Hs. exfalso.
        assert (In (OutVerify t true) (ext ++ [OutTaskStarted q])) by (rewrite Hs; apply in_elt).
        apply in_app_or in H0 as [H0|H0]; [exact (Hv t true H0)|simpl in H0; intuition discriminate].
      + intros _ t' b Hin. apply in_app_or in Hin as [Hin|Hin];
          [exact (Hv t' b Hin)|simpl in Hin; intuition discriminate]. }
  destruct (current_task st) eqn:Ec.
  - apply (Hq [OutTaskCancelled]); [unfold ws_launch; simpl; rewrite Ec; reflexivity|].
    intros t b Hin; simpl in Hin; intuition discriminate.
  - apply (Hq []); [unfold ws_launch; simpl; rewrite Ec; reflexivity|].
    intros t b [].
Qed.

Lemma gate_launch_new st q t :
  WsGate st -> is_verified st = false ->
  WsGate (ws_launch q true (ws_send [OutVerify t true] st)).
Proof.
  intros H E. pose proof H as (Hv1 & Hv2 & Ha & Hb).
  set (ext := (OutVerify t true :: match current_task st with
                                   | Some _ => [OutTaskCancelled] | None => [] end)
              ++ [OutTaskStarted q]).
  assert (Ho : ws_out (ws_launch q true (ws_send [OutVerify t true] st)) = ws_out st ++ ext).
  { unfold ws_launch, ws_send, ext; simpl. rewrite <- !app_assoc; reflexivity. }
  assert (Hc : forall t' b, ~ In (OutVerify t' b)
                 (match current_task st with Some _ => [OutTaskCancelled] | None => [] end
                  ++ [OutTaskStarted q])).
  { intros t' b Hin. destruct (current_task st); simpl in Hin; intuition discriminate. }
  unfold WsGate. rewrite Ho. simpl.
  split; [intros _; exists t; apply in_or_app; right; left; reflexivity|].
  split; [discriminate|]. split.
  - apply started_after_verify_app; [exact Ha|].
    intros pre q' post Hs. exists t. apply in_or_app; right.
    destruct pre as [|x pre]; [discriminate|]. injection Hs as <- _. left; reflexivity.
  - apply no_verify_after_success_app; [exact Hb| |].
    + intros pre t1 post Hs t' b Hin.
      destruct pre as [|x pre].
      * injection Hs as _ <-. exact (Hc t' b Hin).
      * injection Hs as _ Hs. apply (Hc t1 true). rewrite Hs. apply in_elt.
    + intros [t1 Ht1]. exfalso; exact (Hv2 E t1 Ht1).
Qed.

Lemma gate_verify_fail st t m :
  WsGate st -> is_verified st = false ->
  WsGate (ws_send [OutVerify t false; OutError m] st).
Proof.
  intros H E. pose proof H as (Hv1 & Hv2 & Ha & Hb).
  unfold WsGate, ws_send; simpl. rewrite E.
  split; [discriminate|]. split.
  - intros _ t0 Hin. apply in_app_or in Hin as [Hin|Hin];
      [exact (Hv2 E t0 Hin)|simpl in Hin; intuition discriminate].
  - split.
    + apply started_after_verify_app; [exact Ha|].
      intros pre q post Hs. exfalso.
      assert (In (OutTaskStarted q) [OutVerify t false; OutError m]) by (rewrite Hs; apply in_elt).
      simpl in H0; intuition discriminate.
    + apply no_verify_after_success_app; [exact Hb| |].
      * intros pre t1 post Hs. exfalso.
        assert (In (OutVerify t1 true) [OutVerify t false; OutError m]) by (rewrite Hs; apply in_elt).
        simpl in H0; intuition discriminate.
      * intros [t1 Ht1]. exfalso; exact (Hv2 E t1 Ht1).
Qed.

Ltac quiet_ext H e :=
  apply (gate_extend _ _ e H); [reflexivity|try reflexivity|
    intros ?q ?Hin; simpl in Hin; intuition discriminate|
    intros ?t ?b ?Hin; simpl in Hin; intuition discriminate].

Lemma ws_step_gate verify st i : WsGate st -> WsGate (ws_step true verify st i).
Proof.
  intros H.
  unfold ws_step. destruct (ws_open st); simpl; [|exact H].
  destruct i as [[q|] [t|]| | | | | | |].
  - destruct (py_truthy q); simpl; [|unfold ws_send; quiet_ext H [OutError "Query is required"]].
    destruct (is_verified st) eqn:E; simpl.
    + rewrite <- E; apply gate_launch_verified; assumption.
    + destruct (py_truthy t); simpl; [|unfold ws_send; quiet_ext H [OutError "Cloudflare verification required"]].
      destruct (verify t); simpl.
      * apply gate_launch_new; assumption.
      * apply gate_verify_fail; assumption.
  - destruct (py_truthy q); simpl; [|unfold ws_send; quiet_ext H [OutError "Query is required"]].
    destruct (is_verified st) eqn:E; simpl.
    + rewrite <- E; apply gate_launch_verified; assumption.
    + unfold ws_send; quiet_ext H [OutError "Cloudflare verification required"].
  - unfold ws_send; quiet_ext H [OutError "Query is required"].
  - unfold ws_send; quiet_ext H [OutError "Query is required"].
  - destruct (writing_flag st); simpl.
    + unfold ws_send; quiet_ext H [OutError "Cannot stop research while writing response"].
    + quiet_ext H [OutStopped].
  - exact H.
  - quiet_ext H [OutException].
  - apply (gate_extend _ _ (match current_task st with
                              | Some _ => [OutTaskCancelled] | None => [] end) H);
      [reflexivity|reflexivity|intros q0 Hin|intros t0 b0 Hin];
      destruct (current_task st); simpl in Hin; intuition discriminate.
  - destruct (current_task st); [|exact H].
    quiet_ext H (@nil WsOutput). rewrite app_nil_r; reflexivity.
  - destruct (current_task st); [|exact H].
    quiet_ext H [OutStopped; OutError "Research workflow error"].
  - quiet_ext H (@nil WsOutput). rewrite app_nil_r; reflexivity.
Qed.

(** X9: with Turnstile on, every task the WebSocket handler starts is preceded
    by a successful verification, and no verification follows a successful
    one. *)
Theorem ws_turnstile_gate verify ins :
  started_after_verify (ws_out (ws_run true verify ins ws_init))
  /\ no_verify_after_success (ws_out (ws_run true verify ins ws_init)).
Proof.
  assert (G : forall st, WsGate st -> WsGate (ws_run true verify ins st)).
  { unfold ws_run. induction ins as [|i ins IH]; intros st H; simpl; [exact H|].
    apply IH, ws_step_gate, H. }
  destruct (G ws_init) as (_ & _ & Ha & Hb); [|split; assumption].
  unfold WsGate; simpl. split; [discriminate|]. split; [intros _ t []|].
  split.
  - intros pre q post Hs; destruct pre; discriminate.
  - intros pre t post Hs; destruct pre; discriminate.
Qed.

(** X10: once the writing flag is set, stop requests only produce the refusal
    error: the stop flag is unchanged and the writing flag stays set, also
    after the task has finished. *)
Theorem ws_stop_refused_while_writing use verify ins st :
  writing_flag st = true ->
  Forall (fun i => i = WsStop \/ i = WsOtherAction \/ i = TaskWritingStarted
                   \/ i = TaskFinished) ins ->
  exists n,
    ws_out (ws_run use verify ins st)
      = ws_out st ++ repeat (OutError "Cannot stop research while writing response") n
    /\ stop_flag (ws_run use verify ins st) = stop_flag st
    /\ writing_flag (ws_run use verify ins st) = true.
Proof.
  unfold ws_run. revert st; induction ins as [|i ins IH]; intros st Hw Hall; simpl.
  - exists 0%nat; rewrite app_nil_r; auto.
  - inversion Hall as [|? ? Hi Hrest]; subst.
    assert (Hstep : exists k, ws_out (ws_step use verify st i)
                      = ws_out st ++ repeat (OutError "Cannot stop research while writing response") k
                    /\ stop_flag (ws_step use verify st i) = stop_flag st
                    /\ writing_flag (ws_step use verify st i) = true).
    { unfold ws_step. destruct (ws_open st); simpl;
        [|exists 0%nat; rewrite app_nil_r; auto].
      destruct Hi as [-> | [-> | [-> | -> ]]]; simpl.
      - rewrite Hw; simpl. exists 1%nat; auto.
      - exists 0%nat; rewrite app_nil_r; auto.
      - destruct (current_task st); simpl; exists 0%nat; rewrite app_nil_r; auto.
      - exists 0%nat; rewrite app_nil_r; auto. }
    destruct Hstep as (k & Ho & Hs & Hw').
    destruct (IH _ Hw' Hrest) as (n & Ho' & Hs' & Hw'').
    exists (k + n)%nat. rewrite Ho', Ho, Hs', Hs, repeat_app, app_assoc. auto.
Qed.

(** X10 (witness): stop requests around a finished task. *)
Lemma ws_stop_refused_while_writing_witness :
  let st := mkWsState true false true true None [] in
  let ins := [TaskFinished; WsStop; WsOtherAction; WsStop] in
  writing_flag st = true
  /\ Forall (fun i => i = WsStop \/ i = WsOtherAction \/ i = TaskWritingStarted
                      \/ i = TaskFinished) ins
  /\ exists n,
    ws_out (ws_run true (fun _ => true) ins st)
      = ws_out st ++ repeat (OutError "Cannot stop research while writing response") n
    /\ stop_flag (ws_run true (fun _ => true) ins st) = stop_flag st
    /\ writing_flag (ws_run true (fun _ => true) ins st) = true.
Proof.
  intros st ins.
  assert (Hw : writing_flag st = true) by reflexivity.
  assert (Hf : Forall (fun i => i = WsStop \/ i = WsOtherAction \/ i = TaskWritingStarted
                      \/ i = TaskFinished) ins)
    by (repeat constructor; auto; right; right; right; reflexivity).
  split; [exact Hw|split; [exact Hf|]].
  exact (ws_stop_refused_while_writing true (fun _ => true) ins st Hw Hf).
Defined.

Lemma dedup_loop_first_unseen rs seen mr nr nu :
  dedup_loop rs seen mr nr nu
  = (nr ++ firstn (Z.to_nat mr - List.length nr) (first_unseen rs seen),
     nu ++ map sr_url (firstn (Z.to_nat mr - List.length nr) (first_unseen rs seen))).
Proof.
  revert seen nr nu. induction rs as [|r rs IH]; intros seen nr nu; simpl.
  - rewrite firstn_nil. simpl. rewrite !app_nil_r. reflexivity.
  - destruct (existsb (String.eqb (sr_url r)) seen) eqn:E; simpl.
    + apply IH.
    + destruct (Z.of_nat (List.length nr) <? mr)%Z eqn:L.
      * apply Z.ltb_lt in L. rewrite IH, length_app. simpl.
        replace (Z.to_nat mr - List.length nr)%nat
          with (S (Z.to_nat mr - (List.length nr + 1)))%nat by lia.
        simpl. rewrite <- !app_assoc. reflexivity.
      * apply Z.ltb_ge in L. rewrite IH.
        replace (Z.to_nat mr - List.length nr)%nat with O by lia. reflexivity.
Qed.

(** X11: [_deduplicate_search_results] keeps the first [max_results] results
    whose URL is neither seen nor that of an earlier kept result, in input
    order, with exactly their URLs. *)
Theorem deduplicate_search_results_first_unseen rs seen mr :
  _deduplicate_search_results rs seen mr
  = (firstn (Z.to_nat mr) (first_unseen rs seen),
     map sr_url (firstn (Z.to_nat mr) (first_unseen rs seen))).
Proof.
  unfold _deduplicate_search_results. rewrite dedup_loop_first_unseen. simpl.
  rewrite Nat.sub_0_r. reflexivity.
Qed.

Lemma add_new_urls_prefix seen us : exists added, add_new_urls seen us = seen ++ added.
Proof.
  revert seen. induction us as [|u us IH]; intros seen; simpl.
  - exists []. rewrite app_nil_r. reflexivity.
  - destruct (url_in u seen); [apply IH|].
    destruct (IH (seen ++ [u])) as [a E]. rewrite E. exists (u :: a).
    rewrite <- app_assoc. reflexivity.
Qed.

Lemma update_fold bs st :
  let st' := fold_left (fun st b => if bi_success b then merge_one b st else st) bs st in
  let ok := filter bi_success bs in
  total_rewritten_queries st' = (total_rewritten_queries st + Z.of_nat (List.length ok))%Z /\
  queries_executed st' = queries_executed st ++ map bi_query ok /\
  searches st' = searches st ++ List.concat (map bi_filtered_results ok) /\
  extracted_content st' = extracted_content st /\
  original_query st' = original_query st /\ clock st' = clock st /\
  seen_urls st' = merge_urls bs (seen_urls st).
Proof.
  unfold merge_urls. revert st. induction bs as [|b bs IH]; intros st; simpl.
  - rewrite !app_nil_r. repeat split; lia.
  - destruct (bi_success b); simpl.
    + destruct (IH (merge_one b st)) as (H1 & H2 & H3 & H4 & H5 & H6 & H7). simpl in *.
      rewrite H1, H2, H3, H4, H5, H6, H7, <- !app_assoc. repeat split; lia.
    + apply IH.
Qed.

Lemma add_new_urls_incl seen us :
  incl seen (add_new_urls seen us) /\ incl us (add_new_urls seen us).
Proof.
  revert seen. induction us as [|u us IH]; intros seen; simpl.
  - split; [apply incl_refl | intros ? []].
  - destruct (url_in u seen) eqn:U.
    + apply url_in_spec in U. destruct (IH seen) as [I1 I2].
      split; [exact I1|]. intros x [<-|Hx]; [apply I1, U | apply I2, Hx].
    + destruct (IH (seen ++ [u])) as [I1 I2]. split.
      * intros x Hx. apply I1, in_or_app. left. exact Hx.
      * intros x [<-|Hx]; [apply I1, in_or_app; right; left; reflexivity | apply I2, Hx].
Qed.

Lemma merge_urls_incl bs seen :
  incl seen (merge_urls bs seen) /\
  forall b, In b bs -> bi_success b = true -> incl (bi_new_urls b) (merge_urls bs seen).
Proof.
  unfold merge_urls. revert seen. induction bs as [|b bs IH]; intros seen; simpl.
  - split; [apply incl_refl | intros _ []].
  - destruct (bi_success b) eqn:Sb.
    + destruct (add_new_urls_incl seen (bi_new_urls b)) as [I1 I2].
      destruct (IH (add_new_urls seen (bi_new_urls b))) as [I3 I4].
      split; [intros x Hx; apply I3, I1, Hx|].
      intros b' [<-|Hb] S'; [intros x Hx; apply I3, I2, Hx | apply I4; auto].
    + destruct (IH seen) as [I3 I4]. split; [exact I3|].
      intros b' [<-|Hb] S'; [congruence | apply I4; auto].
Qed.

(** X12: merging a batch adds one to the counter per successful row, appends
    their queries and results in row order, leaves the accepted content alone,
    and only extends the seen URLs, with every new URL of a successful row and
    without creating duplicates. *)
Theorem update_state_from_batch_effect bs st :
  let st' := snd (_update_state_from_batch bs st) in
  let ok := filter bi_success bs in
  total_rewritten_queries st' = (total_rewritten_queries st + Z.of_nat (List.length ok))%Z /\
  queries_executed st' = queries_executed st ++ map bi_query ok /\
  searches st' = searches st ++ List.concat (map bi_filtered_results ok) /\
  extracted_content st' = extracted_content st /\
  (exists added, seen_urls st' = seen_urls st ++ added) /\
  (forall b, In b bs -> bi_success b = true -> incl (bi_new_urls b) (seen_urls st')) /\
  (NoDup (seen_urls st) -> NoDup (seen_urls st')).
Proof.
  unfold _update_state_from_batch, modify. cbn zeta. simpl snd.
  destruct (update_fold bs st) as (H1 & H2 & H3 & H4 & _ & _ & H7).
  rewrite H1, H2, H3, H4, H7. split; [reflexivity|]. split; [reflexivity|].
  split; [reflexivity|]. split; [reflexivity|]. split.
  - unfold merge_urls. generalize (seen_urls st). clear.
    induction bs as [|b bs IH]; intros seen; simpl.
    + exists []. rewrite app_nil_r. reflexivity.
    + destruct (bi_success b); [|apply IH].
      destruct (add_new_urls_prefix seen (bi_new_urls b)) as [a1 E1].
      destruct (IH (add_new_urls seen (bi_new_urls b))) as [a2 E2].
      rewrite E2, E1, <- app_assoc. eexists; reflexivity.
  - split.
    + apply merge_urls_incl.
    + intros N. apply merge_urls_spec, N.
Qed.

Lemma In_firstn_l {A} n (l : list A) x : In x (firstn n l) -> In x l.
Proof.
  intros H. rewrite <- (firstn_skipn n l). apply in_or_app. left. exact H.
Qed.

Lemma queries_of_json_shape l qs :
  queries_of_json l = Some qs ->
  (List.length qs <= List.length l)%nat /\
  Forall (fun q => valid_time_filter (qf_time_filter q) = true) qs.
Proof.
  revert qs. induction l as [|[q tf st|q|] l IH]; intros qs E; simpl in E.
  - inversion E; subst. split; [simpl; lia | constructor].
  - destruct (valid_time_filter tf) eqn:V; [|discriminate].
    destruct (queries_of_json l) as [qs'|]; [|discriminate].
    inversion E; subst. destruct (IH qs' eq_refl) as [L F].
    split; [simpl; lia | constructor; [exact V | exact F]].
  - destruct (queries_of_json l) as [qs'|]; [|discriminate].
    inversion E; subst. destruct (IH qs' eq_refl) as [L F].
    split; [simpl; lia | constructor; [reflexivity | exact F]].
  - destruct (IH qs E) as [L F]. split; [simpl; lia | exact F].
Qed.

Lemma decision_of_json_shape j out :
  decision_of_json j = Some out ->
  (List.length (queries out) <= 3)%nat /\
  Forall (fun q => valid_time_filter (qf_time_filter q) = true) (queries out) /\
  action out <> ActCancelled /\
  (action out <> ActContinue -> queries out = [] /\ requires_recency out = false).
Proof.
  assert (K : forall qs rr, queries_of_json (firstn 3 (rj_queries j)) = Some qs ->
    mkRewriterOutput ActContinue rr qs = out ->
    (List.length (queries out) <= 3)%nat /\
    Forall (fun q => valid_time_filter (qf_time_filter q) = true) (queries out) /\
    action out <> ActCancelled /\
    (action out <> ActContinue -> queries out = [] /\ requires_recency out = false)).
  { intros qs rr Q <-. destruct (queries_of_json_shape _ _ Q) as [L F].
    rewrite length_firstn in L. simpl.
    split; [lia|]. split; [exact F|]. split; [discriminate|]. intros C; congruence. }
  unfold decision_of_json. destruct (rj_action j) as [a|].
  - destruct (String.eqb a "stop").
    + intros E; inversion E; subst. simpl.
      split; [lia|]. split; [constructor|]. split; [discriminate|]. auto.
    + destruct (queries_of_json (firstn 3 (rj_queries j))) as [qs|] eqn:Q; [|discriminate].
      intros E; injection E as E'; exact (K _ _ eq_refl E').
  - destruct (queries_of_json (firstn 3 (rj_queries j))) as [qs|] eqn:Q; [|discriminate].
    intros E; injection E as E'; exact (K _ _ eq_refl E').
Qed.

Lemma plain_text_decision_shape content :
  let out := plain_text_decision content in
  requires_recency out = false /\ (List.length (queries out) <= 3)%nat /\
  action out <> ActCancelled /\
  (action out <> ActContinue -> queries out = []) /\
  Forall (fun q => qf_query q <> "" /\ py_strip (qf_query q) = qf_query q /\
                   qf_time_filter q = None /\ qf_strategy q = None /\
                   exists line, In line (split_lines content) /\
                                String.prefix "-" line = false /\
                                qf_query q = py_strip line)
    (queries out).
Proof.
  unfold plain_text_decision. destruct (String.eqb (string_upper content) "STOP").
  - cbn [queries requires_recency action]. split; [reflexivity|]. split; [simpl; lia|].
    split; [discriminate|]. split; [auto | constructor].
  - cbn [queries requires_recency action]. split; [reflexivity|].
    split; [rewrite length_firstn; lia|].
    split; [discriminate|]. split; [intros C; congruence|].
    apply Forall_forall. intros q Hq.
    apply In_firstn_l in Hq. apply in_map_iff in Hq as [line [<- Hl]].
    apply filter_In in Hl as [Hl P]. apply andb_true_iff in P as [T D].
    apply negb_true_iff in D. cbn [qf_query qf_time_filter qf_strategy].
    split; [intros E; unfold py_truthy in T; rewrite E in T; discriminate|].
    split; [apply py_strip_idem|]. split; [reflexivity|]. split; [reflexivity|].
    exists line. auto.
Qed.

(** X13: the rewriter raises only LLMError, when the model call raises;
    otherwise it returns at most three queries with valid time filters, flags
    cancellation exactly when the call was cancelled (action cancelled), and a
    non-continue action carries no queries and no recency. *)
Theorem rewrite_queries_task_result llm i :
  match fst (rewrite_queries_task llm i) with
  | Ok (out, cancelled) =>
      (List.length (queries out) <= 3)%nat /\
      Forall (fun q => valid_time_filter (qf_time_filter q) = true) (queries out) /\
      (cancelled = true <-> llm i = LLMCancelled) /\
      (cancelled = true <-> action out = ActCancelled) /\
      (action out <> ActContinue -> queries out = [] /\ requires_recency out = false)
  | Raise e => e = "LLMError" /\ llm i = LLMRaises
  end.
Proof.
  unfold rewrite_queries_task. simpl fst. destruct (llm i) as [| |content parsed] eqn:L.
  - cbn. split; [lia|]. split; [constructor|]. split; [tauto|]. split; [tauto|]. auto.
  - auto.
  - assert (Hc : (false = true <-> LLMReply content parsed = LLMCancelled)).
    { split; discriminate. }
    destruct (match parsed with Some j => decision_of_json j | None => None end) as [out|] eqn:D.
    + destruct parsed as [j|]; [|discriminate].
      destruct (decision_of_json_shape j out D) as (H1 & H2 & H3 & H4).
      split; [exact H1|]. split; [exact H2|]. split; [exact Hc|].
      split; [split; [discriminate | intros E; contradiction]|]. exact H4.
    + destruct (plain_text_decision_shape content) as (H1 & H2 & H3 & H4 & H5).
      split; [exact H2|]. split.
      * eapply Forall_impl; [|exact H5]. intros q (_ & _ & -> & _). reflexivity.
      * split; [exact Hc|]. split; [split; [discriminate | intros E; contradiction]|].
        intros C. split; [apply H4, C | exact H1].
Qed.

(** X14: an unparsable rewriter reply is read as plain text: no recency, STOP
    in any case stops, and every query is a non-empty stripped line of the
    reply not starting with a dash, with no time filter or strategy. *)
Theorem rewrite_queries_task_plain_text llm i content :
  llm i = LLMReply content None ->
  exists out,
    fst (rewrite_queries_task llm i) = Ok (out, false) /\
    requires_recency out = false /\
    (String.eqb (string_upper content) "STOP" = true -> action out = ActStop) /\
    Forall (fun q => qf_query q <> "" /\ py_strip (qf_query q) = qf_query q /\
                     qf_time_filter q = None /\ qf_strategy q = None /\
                     exists line, In line (split_lines content) /\
                                  String.prefix "-" line = false /\
                                  qf_query q = py_strip line)
      (queries out).
Proof.
  intros L. unfold rewrite_queries_task. rewrite L. simpl fst.
  exists (plain_text_decision content). split; [reflexivity|].
  destruct (plain_text_decision_shape content) as (H1 & _ & _ & _ & H5).
  split; [exact H1|]. split; [|exact H5].
  intros S. unfold plain_text_decision. rewrite S. reflexivity.
Qed.

(** X14 (witness): a three-line reply with one dashed line. *)
Lemma rewrite_queries_task_plain_text_witness :
  exists out,
    fst (rewrite_queries_task (fun _ => LLMReply "a
-b
 c " None) 0) = Ok (out, false) /\ List.length (queries out) = 2%nat.
Proof.
  destruct (rewrite_queries_task_plain_text (fun _ => LLMReply "a
-b
 c " None) 0 "a
-b
 c " eq_refl) as [out [E _]].
  exists out. split; [exact E|].
  vm_compute in E. injection E as <-. reflexivity.
Defined.

(** X15: the guardrail rejects a query only when the reply parses, its
    is_acceptable field is present and false and its confidence converts; the
    cancelled flag is set exactly when the call was cancelled. *)
Theorem check_query_safety_fail_open llm i :
  (is_acceptable (fst (fst (check_query_safety llm i))) = false <->
   exists raw j, llm i = LLMReply raw (Some j) /\ gj_is_acceptable j = Some false /\
                 gj_confidence j <> Some None) /\
  (snd (fst (check_query_safety llm i)) = true <-> llm i = LLMCancelled).
Proof.
  unfold check_query_safety. simpl.
  destruct (llm i) as [| |raw [j|]].
  - split; [split; [discriminate | intros (? & ? & E & _); discriminate]|]. tauto.
  - split; [split; [discriminate | intros (? & ? & E & _); discriminate]|].
    split; discriminate.
  - destruct (gj_confidence j) as [[q|]|] eqn:C; simpl.
    + split; [|split; discriminate].
      destruct (gj_is_acceptable j) as [[|]|] eqn:A; simpl.
      * split; [discriminate|]. intros (r & j' & E & A' & _). injection E as <- <-. congruence.
      * split; [intros _; exists raw, j; rewrite C; split; [reflexivity|]; split; [exact A | discriminate]|reflexivity].
      * split; [discriminate|]. intros (r & j' & E & A' & _). injection E as <- <-. congruence.
    + split; [|split; discriminate].
      split; [discriminate|]. intros (r & j' & E & _ & C'). injection E as <- <-. contradiction.
    + split; [|split; discriminate].
      destruct (gj_is_acceptable j) as [[|]|] eqn:A; simpl.
      * split; [discriminate|]. intros (r & j' & E & A' & _). injection E as <- <-. congruence.
      * split; [intros _; exists raw, j; rewrite C; split; [reflexivity|]; split; [exact A | discriminate]|reflexivity].
      * split; [discriminate|]. intros (r & j' & E & A' & _). injection E as <- <-. congruence.
  - split; [split; [discriminate | intros (? & ? & E & _); discriminate]|].
    split; discriminate.
Qed.

Lemma py_slice_upto_map {A B} (f : A -> B) l n :
  py_slice_upto (map f l) n = map f (py_slice_upto l n).
Proof.
  unfold py_slice_upto. rewrite length_map. destruct (0 <=? n)%Z; apply firstn_map.
Qed.

Lemma py_slice_upto_incl {A} (l : list A) n x : In x (py_slice_upto l n) -> In x l.
Proof. unfold py_slice_upto. destruct (0 <=? n)%Z; apply In_firstn_l. Qed.

Lemma filter_negb_nil {A} (p : A -> bool) l :
  filter (fun x => negb (p x)) l = [] -> filter p l = l.
Proof.
  induction l as [|x l IH]; simpl; [reflexivity|].
  destruct (p x); simpl; [intros E; f_equal; apply IH, E | discriminate].
Qed.

(** X16: when the filter reply does not parse, the first
    [MAX_RESULTS_FILTERED] clean results are returned in input order with
    score 0.7, the removed ad URLs are counted as filtered out, and all inputs
    as total results. *)
Theorem filter_search_results_fallback srt K q rs llm raw :
  llm (filter (fun r => negb (is_ad_or_tracking_url (sr_url r))) rs) = LLMReply raw None ->
  exists out,
    filter_search_results_by_titles srt K q rs llm = Ok (out, false) /\
    total_results out = List.length rs /\
    filtered_out out = Z.of_nat (List.length (filter (fun r => is_ad_or_tracking_url (sr_url r)) rs)) /\
    map to_search_result (relevant_results out)
      = py_slice_upto (filter (fun r => negb (is_ad_or_tracking_url (sr_url r))) rs) K /\
    Forall (fun r => is_ad_or_tracking_url (fr_url r) = false /\ relevance_score r = PFin (7 # 10))
      (relevant_results out).
Proof.
  intros L. unfold filter_search_results_by_titles.
  destruct (filter (fun r => negb (is_ad_or_tracking_url (sr_url r))) rs) as [|c cs] eqn:C.
  - eexists. split; [reflexivity|]. simpl. split; [reflexivity|].
    rewrite (filter_negb_nil (fun r => is_ad_or_tracking_url (sr_url r)) rs C).
    split; [reflexivity|].
    split; [unfold py_slice_upto; destruct (0 <=? K)%Z; rewrite ?firstn_nil; reflexivity
           | constructor].
  - rewrite L. eexists. split; [reflexivity|]. cbn [relevant_results total_results filtered_out].
    split; [reflexivity|]. split; [reflexivity|].
    rewrite py_slice_upto_map, map_map. split.
    + simpl. rewrite <- (map_id (py_slice_upto (c :: cs) K)) at 2. apply map_ext.
      intros [t u sn]. reflexivity.
    + apply Forall_forall. intros r Hr. apply in_map_iff in Hr as [x [<- Hx]].
      apply py_slice_upto_incl in Hx. rewrite <- C in Hx.
      apply filter_In in Hx as [_ Hx]. apply negb_true_iff in Hx.
      split; [exact Hx | reflexivity].
Qed.

(** X16 (witness): one ad URL among three results, top one kept. *)
Lemma filter_search_results_fallback_witness :
  exists out,
    filter_search_results_by_titles insertion_list_sort 1 "q"
      [mkSearchResult "t" "https://ads.example.com" "s";
       mkSearchResult "t" "https://example.com/a" "s";
       mkSearchResult "t" "https://example.com/b" "s"]
      (fun _ => LLMReply "not json" None) = Ok (out, false) /\
    filtered_out out = 1%Z.
Proof.
  destruct (filter_search_results_fallback insertion_list_sort 1 "q"
      [mkSearchResult "t" "https://ads.example.com" "s";
       mkSearchResult "t" "https://example.com/a" "s";
       mkSearchResult "t" "https://example.com/b" "s"]
      (fun _ => LLMReply "not json" None) "not json" eq_refl)
    as (out & E & _ & F & _).
  exists out. split; [exact E | rewrite F; vm_compute; reflexivity].
Defined.

(** X17: with a non-negative [MAX_RESULTS_FILTERED], the filter raises only
    LLMError, or returns the query, the input count and at most
    [MAX_RESULTS_FILTERED] results; a cancelled call returns none and counts
    every input as filtered out. *)
Theorem filter_search_results_bounds srt K q rs llm :
  (0 <= K)%Z ->
  match filter_search_results_by_titles srt K q rs llm with
  | Ok (out, cancelled) =>
      tf_query out = q /\ total_results out = List.length rs /\
      (List.length (relevant_results out) <= Z.to_nat K)%nat /\
      (cancelled = true -> relevant_results out = [] /\
                           filtered_out out = Z.of_nat (List.length rs))
  | Raise e => e = "LLMError"
  end.
Proof.
  intros HK. unfold filter_search_results_by_titles.
  destruct (filter (fun r => negb (is_ad_or_tracking_url (sr_url r))) rs) as [|c cs].
  - cbn. split; [reflexivity|]. split; [reflexivity|]. split; [lia|]. discriminate.
  - destruct (llm (c :: cs)) as [| |raw parsed].
    + cbn. split; [reflexivity|]. split; [reflexivity|]. split; [lia|]. auto.
    + reflexivity.
    + destruct (match parsed with Some l => all_items l | None => None end) as [fr|];
        cbn [tf_query total_results relevant_results];
        (split; [reflexivity|]); (split; [reflexivity|]);
        (split; [|discriminate]); rewrite py_slice_upto_nonneg by exact HK;
        rewrite length_firstn; lia.
Qed.

(** X17 (witness): a cancelled filter call. *)
Lemma filter_search_results_bounds_witness :
  match filter_search_results_by_titles insertion_list_sort 2 "q" [mkSearchResult "t" "u" "s"]
          (fun _ => LLMCancelled) with
  | Ok (out, cancelled) =>
      tf_query out = "q" /\ total_results out = 1%nat /\
      (List.length (relevant_results out) <= 2)%nat /\
      (cancelled = true -> relevant_results out = [] /\ filtered_out out = 1%Z)
  | Raise e => e = "LLMError"
  end.
Proof. exact (filter_search_results_bounds insertion_list_sort 2 "q" [mkSearchResult "t" "u" "s"] (fun _ => LLMCancelled) ltac:(lia)). Defined.

Lemma substring_0_length m s : (String.length (substring 0 m s) <= m)%nat.
Proof.
  revert s. induction m as [|m IH]; intros [|c s]; simpl; try lia.
  specialize (IH s). lia.
Qed.

Lemma summary_line_content c :
  exists tail,
    summary_line (PyContent c)
    = Ok ("- [" ++ content_title c ++ "]: " ++ page_type c ++ tail)%string /\
    (String.length tail <= 206)%nat.
Proof.
  unfold summary_line. simpl getattr_page_type. cbv iota beta zeta.
  destruct (attr_content (PyContent c)) as [x|].
  - exists (" - " ++ substring 0 200 x ++ "...")%string. split.
    + simpl getattr_title. rewrite <- !str_app_assoc. reflexivity.
    + rewrite !str_length_app. pose proof (substring_0_length 200 x). simpl. lia.
  - destruct (attr_description (PyContent c)) as [x|].
    + exists (" - " ++ substring 0 200 x ++ "...")%string. split.
      * simpl getattr_title. rewrite <- !str_app_assoc. reflexivity.
      * rewrite !str_length_app. pose proof (substring_0_length 200 x). simpl. lia.
    + exists ""%string. split; [|simpl; lia].
      simpl getattr_title. rewrite <- ?str_app_assoc, str_app_nil_r. reflexivity.
Qed.

(** X18: on extracted content the digest never raises: one line per item, each
    its title and page type followed by at most 206 more characters; an empty
    list gives the fixed placeholder. *)
Theorem build_content_summary_contents cs :
  match cs with
  | [] => _build_content_summary (map PyContent cs) = Ok "No content gathered yet."
  | _ =>
      exists ss,
        _build_content_summary (map PyContent cs) = Ok (String.concat nl ss) /\
        Forall2 (fun c s => exists tail,
                   s = ("- [" ++ content_title c ++ "]: " ++ page_type c ++ tail)%string /\
                   (String.length tail <= 206)%nat) cs ss
  end.
Proof.
  assert (L : forall cs, exists ss,
    summary_lines (map PyContent cs) = Ok ss /\
    Forall2 (fun c s => exists tail,
               s = ("- [" ++ content_title c ++ "]: " ++ page_type c ++ tail)%string /\
               (String.length tail <= 206)%nat) cs ss).
  { clear cs. intros cs. induction cs as [|c cs IH]; cbn [map summary_lines].
    - exists []. split; [reflexivity | constructor].
    - destruct (summary_line_content c) as [tail [E B]]. rewrite E.
      destruct IH as [ss [E2 F]]. rewrite E2.
      eexists. split; [reflexivity|]. constructor; [|exact F]. exists tail. auto. }
  destruct cs as [|c cs]; [reflexivity|].
  destruct (L (c :: cs)) as [ss [E F]]. exists ss. split; [|exact F].
  unfold _build_content_summary. simpl map at 1. rewrite E. reflexivity.
Qed.

Lemma workflow_result_source env fuel st :
  let (o, s) := research_workflow env fuel st in
  forall r, o = Ret r -> status r = Rejected -> guardrail_phase env st = (Ret (Some r), s).
Proof.
  unfold research_workflow. wp; intros r0 Hr; try discriminate.
  all: try (injection Hr as <-; intros H; try discriminate H).
  - assumption.
  - match goal with H : status _ = Rejected |- _ => cbn [status] in H;
      match type of H with (if ?b then _ else _) = _ => destruct b; discriminate H end end.
Qed.

Lemma guardrail_phase_rejects env st r st' :
  guardrail_phase env st = (Ret (Some r), st') -> status r = Rejected ->
  USE_GUARDRAILS env = true /\ sources r = [] /\ response r = None /\
  st' = advance (S (clock st)) EvGuardrail st /\
  exists raw j,
    with_cancel env st (guardrail_llm env) (clock st) = LLMReply raw (Some j) /\
    gj_is_acceptable j = Some false /\ gj_confidence j <> Some None /\
    rejection_reason r = Some (match gj_reason j with Some s => s | None => "Unable to determine" end).
Proof.
  unfold guardrail_phase. destruct (USE_GUARDRAILS env) eqn:U; [|intros E; discriminate E].
  unfold bind, get, modify, check_stop.
  destruct (check_query_safety (with_cancel env st (guardrail_llm env)) (clock st))
    as [[gr c] next] eqn:CQ.
  destruct (stop_now env (advance next EvGuardrail st)) eqn:SN.
  { intros E; injection E as <- _; discriminate. }
  destruct (is_acceptable gr) eqn:A; simpl; intros E; [discriminate E|].
  injection E as <- <-. intros _.
  unfold check_query_safety in CQ.
  destruct (with_cancel env st (guardrail_llm env) (clock st)) as [| |raw [j|]];
    [injection CQ as <- <- <-; discriminate A | injection CQ as <- <- <-; discriminate A
    | | injection CQ as <- <- <-; discriminate A].
  destruct (gj_confidence j) as [[q|]|] eqn:C; injection CQ as <- <- <-;
    simpl in A |- *; try discriminate A;
    (split; [reflexivity|]); (split; [reflexivity|]); (split; [reflexivity|]);
    (split; [reflexivity|]); exists raw, j; (split; [reflexivity|]);
    (destruct (gj_is_acceptable j) as [[|]|]; [discriminate A | | discriminate A]);
    (split; [reflexivity|]); rewrite C; (split; [discriminate|reflexivity]).
Qed.

(** X19: a run is rejected only by the guardrail: guardrails are on, the first
    call's reply parsed with is_acceptable false, no other call was made, no
    sources or response are returned, and the reason is the reply's. *)
Theorem rejected_run_guardrail_only env q fuel r st :
  run_research env q fuel = (Ret r, st) -> status r = Rejected ->
  USE_GUARDRAILS env = true /\ sources r = [] /\ response r = None /\
  trace st = [EvGuardrail] /\ clock st = 1%nat /\
  exists raw j,
    guardrail_llm env 0 = LLMReply raw (Some j) /\
    gj_is_acceptable j = Some false /\ gj_confidence j <> Some None /\
    rejection_reason r = Some (match gj_reason j with Some s => s | None => "Unable to determine" end).
Proof.
  intros E Hs. unfold run_research in E.
  pose proof (workflow_result_source env fuel (init_state q)) as W.
  rewrite E in W. specialize (W r eq_refl Hs).
  destruct (guardrail_phase_rejects env _ r st W Hs)
    as (H1 & H2 & H3 & -> & raw & j & L & H4 & H5 & H6).
  split; [exact H1|]. split; [exact H2|]. split; [exact H3|].
  split; [reflexivity|]. split; [reflexivity|].
  exists raw, j. split; [|auto].
  unfold with_cancel in L. destruct (stop_now env (init_state q)); [discriminate L | exact L].
Qed.

(** X19 (witness): a guardrail that rejects every query. *)
Lemma rejected_run_guardrail_only_witness :
  USE_GUARDRAILS rejecting_env = true /\
  trace (advance 1 EvGuardrail (init_state "q")) = [EvGuardrail].
Proof.
  destruct (rejected_run_guardrail_only rejecting_env "q" 1
              (mkWorkflowResult Rejected None [] (Some "unsafe"))
              (advance 1 EvGuardrail (init_state "q"))
              ltac:(vm_compute; reflexivity) eq_refl) as (H1 & _ & _ & H4 & _).
  split; [exact H1 | exact H4].
Defined.

#[export] Instance R_gate_preorder : PreOrder R_gate.
Proof.
  split.
  - intros s. exists []. rewrite app_nil_r. split; [reflexivity | constructor].
  - intros a b c [x [E1 F1]] [y [E2 F2]]. exists (x ++ y).
    rewrite E2, E1, app_assoc. split; [reflexivity | apply Forall_app; auto].
Qed.

Section ScrapeComponents.
Context (env : Env) (R : RState -> RState -> Prop) `{PreOrder _ R}.

Lemma loop_pres_scrape fuel rr :
  (forall e, is_work e = true -> preserves R (call e)) -> preserves R (check_stop env) ->
  (forall q st, R st (emit (EvSearchFailed q) st)) ->
  (forall q st, R st (emit (EvQueryStopSeen q) st)) ->
  (forall rs, preserves R (_scrape_and_extract_results env rs)) ->
  (forall b st, R st (merge_one b st)) ->
  preserves R (_iterative_query_rewriting env fuel rr).
Proof.
  intros Hc Hs He Hq Ha Hm. revert rr. induction fuel as [|fuel IH]; intros rr; simpl; pres;
    auto using gather_pres, collect_successes_pres,
      update_pres, rewriter_call_pres.
Qed.

Lemma workflow_pres_scrape fuel :
  (forall e, is_work e = true -> preserves R (call e)) -> preserves R (check_stop env) ->
  (forall q st, R st (emit (EvSearchFailed q) st)) ->
  (forall q st, R st (emit (EvQueryStopSeen q) st)) ->
  (forall rs, preserves R (_scrape_and_extract_results env rs)) ->
  (forall b st, R st (merge_one b st)) ->
  (forall u r st, R st (set_initial u r st)) ->
  preserves R (research_workflow env fuel).
Proof.
  intros Hc Hs He Hq Ha Hm Hi. unfold research_workflow. pres;
    auto using guardrail_pres, search_and_filter_pres, loop_pres_scrape,
      final_response_pres.
  apply preserves_modify. auto.
Qed.
End ScrapeComponents.

Lemma R_gate_same s s' : extracted_content s' = extracted_content s -> R_gate s s'.
Proof. intros E. exists []. rewrite E, app_nil_r. split; [reflexivity | constructor]. Qed.

Lemma scrape_gate env rs :
  USE_EXTRACTION env = true -> preserves R_gate (_scrape_and_extract_results env rs).
Proof.
  intros HX. unfold _scrape_and_extract_results.
  refine (preserves_bind R_gate _ _ _ _).
  - refine (launch_units_pres R_gate rs _). intros u st. apply R_gate_same. reflexivity.
  - intros us st. pose proof (extraction_path_gates env us st HX) as G.
    destruct (handle_units env us st) as [o st']. exact G.
Qed.

Lemma guardrail_some_sources env st res s :
  guardrail_phase env st = (Ret (Some res), s) -> sources res = [].
Proof.
  unfold guardrail_phase. destruct (USE_GUARDRAILS env); [|intros E; discriminate E].
  unfold bind, get, modify, check_stop.
  destruct (check_query_safety (with_cancel env st (guardrail_llm env)) (clock st))
    as [[gr c] next].
  destruct (stop_now env (advance next EvGuardrail st)); [intros E; injection E as <- _; reflexivity|].
  destruct (is_acceptable gr); simpl; intros E; [discriminate E | injection E as <- _; reflexivity].
Qed.

Lemma workflow_sources env fuel st :
  let (o, s) := research_workflow env fuel st in
  forall r, o = Ret r -> sources r = [] \/ sources r = extracted_content s.
Proof.
  unfold research_workflow. wp; intros r0 Hr; try discriminate.
  all: injection Hr as <-.
  - left. eapply guardrail_some_sources. eassumption.
  - left. reflexivity.
  - right. reflexivity.
Qed.

(** X20: with extraction on, every accepted item at the end of a run, and
    every source it returns, passes the quality gate. *)
Theorem extraction_mode_content_gated env q fuel :
  USE_EXTRACTION env = true ->
  Forall (fun c => has_meaningful_content c = true)
    (extracted_content (snd (run_research env q fuel))) /\
  match fst (run_research env q fuel) with
  | Ret r => Forall (fun c => has_meaningful_content c = true) (sources r)
  | _ => True
  end.
Proof.
  intros HX. unfold run_research.
  assert (G : R_gate (init_state q) (snd (research_workflow env fuel (init_state q)))).
  { refine (workflow_pres_scrape env R_gate fuel _ _ _ _ _ _ _ (init_state q)).
    - intros e _ st. apply R_gate_same. reflexivity.
    - intros st. rewrite check_stop_spec. apply R_gate_same.
      destruct (stop_now env st); reflexivity.
    - intros q' st. apply R_gate_same. reflexivity.
    - intros q' st. apply R_gate_same. reflexivity.
    - intros rs. apply scrape_gate, HX.
    - intros b st. apply R_gate_same. reflexivity.
    - intros u r st. apply R_gate_same. reflexivity. }
  destruct G as [added [E F]]. simpl in E.
  pose proof (workflow_sources env fuel (init_state q)) as W.
  destruct (research_workflow env fuel (init_state q)) as [o s]. simpl in E |- *.
  rewrite E. split; [exact F|].
  destruct o as [r| |]; auto.
  destruct (W r eq_refl) as [-> | ->]; [constructor | rewrite E; exact F].
Qed.

(** X20 (witness): two extracted pages, one an empty directory, which is
    dropped. *)
Lemma extraction_mode_content_gated_witness :
  USE_EXTRACTION gating_env = true /\
  extracted_content (snd (run_research gating_env "q" 2)) = [listed_page] /\
  Forall (fun c => has_meaningful_content c = true)
    (extracted_content (snd (run_research gating_env "q" 2))).
Proof.
  split; [reflexivity|]. split; [vm_compute; reflexivity|].
  exact (proj1 (extraction_mode_content_gated gating_env "q" 2 eq_refl)).
Defined.
